(** * Data augmentation for wearable-sensor windows

    A shallow embedding of [deeplearning/data_augmentation.py]: the seven
    transforms (jitter, scaling, magnitude warping, time warping, rotation,
    permutation, random sampling) and their helpers.

    Conventions of the embedding.
    - A 2-D [numpy] array is a list of rows together with its column count
      (so that the shape [(0, N)] keeps its [N]).  Entries are real numbers:
      floating point is idealised to exact real arithmetic.
    - [numpy.random] is an explicit generator state threaded through every
      draw: three tapes (standard normal variates, uniform variates in
      [[0,1)], raw integers) read at a common cursor.  A statement that
      holds for every generator state holds for every sequence of draws.
    - A Python exception is an [exn] named by its class; a call yields an
      [outcome]: a value, a raised exception, or [Timeout] when the fuel
      given to the unbounded [while] loop of [permutation] runs out.
    - The library calls the module makes ([numpy], [scipy]'s [CubicSpline],
      [transforms3d]'s [axangle2mat]) are written out as far as the module
      depends on them: their results in exact arithmetic and the errors
      they raise on the arguments the module can pass. *)

From Stdlib Require Import String Reals Lra Lia ZArith List Bool RNsatz.
From Stdlib Require Import Permutation Sorting.Sorted FinFun.
Import ListNotations.

Set Implicit Arguments.

(** ** Exceptions and outcomes *)

Inductive exn : Type := PyExc (cls : string).

Definition ValueError : exn := PyExc "ValueError".
Definition IndexError : exn := PyExc "IndexError".
Definition NameError : exn := PyExc "NameError".
Definition ZeroDivisionError : exn := PyExc "ZeroDivisionError".
(** The two error classes of the specification's taxonomy; no statement of
    the module raises them. *)
Definition InvalidShape : exn := PyExc "InvalidShape".
Definition InvalidParameters : exn := PyExc "InvalidParameters".

Inductive outcome (A : Type) : Type :=
| Ok (a : A)
| Raise (e : exn)
| Timeout.

Arguments Raise {A} e.
Arguments Timeout {A}.

Definition obind {A B} (o : outcome A) (k : A -> outcome B) : outcome B :=
  match o with
  | Ok a => k a
  | Raise e => Raise e
  | Timeout => Timeout
  end.

(** ** The random generator *)

Record RandomState : Type := mkRandomState {
  gauss : nat -> R;     (* standard normal variates *)
  unif : nat -> R;      (* uniform variates of [0,1) *)
  bits : nat -> nat;    (* raw integers *)
  cursor : nat
}.

Definition advance (n : nat) (s : RandomState) : RandomState :=
  mkRandomState (gauss s) (unif s) (bits s) (cursor s + n).

Definition Rand (A : Type) : Type := RandomState -> outcome (A * RandomState).

Definition ret {A} (a : A) : Rand A := fun s => Ok (a, s).

Definition bind {A B} (c : Rand A) (k : A -> Rand B) : Rand B :=
  fun s => match c s with
           | Ok (a, s') => k a s'
           | Raise e => Raise e
           | Timeout => Timeout
           end.

Definition raise {A} (e : exn) : Rand A := fun _ => Raise e.

Definition lift {A} (o : outcome A) : Rand A :=
  fun s => match o with
           | Ok a => Ok (a, s)
           | Raise e => Raise e
           | Timeout => Timeout
           end.

Declare Scope rand_scope.
Delimit Scope rand_scope with rand.
Notation "x <- c ;; k" := (bind c (fun x => k))
  (at level 61, c at next level, right associativity) : rand_scope.
Local Open Scope rand_scope.

(** What the caller sees of a run: the value or the exception. *)
Definition result_of {A} (o : outcome (A * RandomState)) : outcome A :=
  match o with
  | Ok (a, _) => Ok a
  | Raise e => Raise e
  | Timeout => Timeout
  end.

Definition next_gauss : Rand R := fun s => Ok (gauss s (cursor s), advance 1 s).
Definition next_unif : Rand R := fun s => Ok (unif s (cursor s), advance 1 s).
Definition next_bits : Rand nat := fun s => Ok (bits s (cursor s), advance 1 s).

Fixpoint draw_list {A} (n : nat) (d : Rand A) : Rand (list A) :=
  match n with
  | O => ret []
  | S n' => a <- d ;; l <- draw_list n' d ;; ret (a :: l)
  end.

(** ** Arrays *)

Record ndarray : Type := mkArray {
  shape1 : nat;               (* X.shape[1] *)
  rowsOf : list (list R)
}.

Definition shape0 (X : ndarray) : nat := length (rowsOf X).

Definition shape (X : ndarray) : nat * nat := (shape0 X, shape1 X).

(** Every row has [shape1] entries. *)
Definition wf (X : ndarray) : Prop :=
  Forall (fun r => length r = shape1 X) (rowsOf X).

Definition entry (X : ndarray) (i j : nat) : R := nth j (nth i (rowsOf X) []) 0%R.

Definition column (j : nat) (rows : list (list R)) : list R :=
  map (fun r => nth j r 0%R) rows.

Fixpoint map2 {A B C} (f : A -> B -> C) (l : list A) (l' : list B) : list C :=
  match l, l' with
  | a :: t, b :: t' => f a b :: map2 f t t'
  | _, _ => []
  end.

(** [np.zeros((m, n))] and [np.ones((m, n))]. *)
Definition np_zeros (sh : nat * nat) : ndarray :=
  mkArray (snd sh) (repeat (repeat 0%R (snd sh)) (fst sh)).

Definition np_ones (sh : nat * nat) : ndarray :=
  mkArray (snd sh) (repeat (repeat 1%R (snd sh)) (fst sh)).

(** Elementwise [X + Y] and [X * Y] of two arrays of one shape. *)
Definition np_add (X Y : ndarray) : ndarray :=
  mkArray (shape1 X) (map2 (map2 Rplus) (rowsOf X) (rowsOf Y)).

Definition np_mul (X Y : ndarray) : ndarray :=
  mkArray (shape1 X) (map2 (map2 Rmult) (rowsOf X) (rowsOf Y)).

Definition np_mul_checked (X Y : ndarray) : outcome ndarray :=
  if (Nat.eqb (shape0 X) (shape0 Y) && Nat.eqb (shape1 X) (shape1 Y))%bool
  then Ok (np_mul X Y)
  else Raise ValueError.

Definition dot (u v : list R) : R := fold_right Rplus 0%R (map2 Rmult u v).

(** [np.matmul(A, B)]: the inner dimensions must agree. *)
Definition np_matmul (A B : ndarray) : outcome ndarray :=
  if Nat.eqb (shape1 A) (shape0 B)
  then Ok (mkArray (shape1 B)
             (map (fun r => map (fun j => dot r (column j (rowsOf B)))
                                (seq 0 (shape1 B)))
                  (rowsOf A)))
  else Raise ValueError.

(** ** [numpy.random] *)

(** [np.random.normal(loc, scale, size=(m, n))]: a negative scale is refused;
    each entry is [loc + scale * z] for a fresh standard normal [z]. *)
Definition np_random_normal (loc scale : R) (sh : nat * nat) : Rand ndarray :=
  if Rlt_dec scale 0 then raise ValueError
  else
    rows <- draw_list (fst sh)
              (draw_list (snd sh) (z <- next_gauss ;; ret (loc + scale * z)%R)) ;;
    ret (mkArray (snd sh) rows).

(** ** Jitter and scaling *)

Definition jitter (X : ndarray) (sigma : R) : Rand ndarray :=
  noise <- np_random_normal 0 sigma (shape X) ;;
  ret (np_add X noise).

Definition scaling (X : ndarray) (sigma : R) : Rand ndarray :=
  sc_factor <- np_random_normal 1 sigma (1, shape1 X) ;;
  noise <- lift (np_matmul (np_ones (shape0 X, 1)) sc_factor) ;;
  ret (np_mul X noise).

(** ** Python indexing

    [a[i]] wraps a negative index once and raises [IndexError] outside
    [-len, len); a slice bound is wrapped once and then clipped. *)

Definition py_index (len : nat) (i : Z) : outcome nat :=
  if ((0 <=? i) && (i <? Z.of_nat len))%Z then Ok (Z.to_nat i)
  else if ((- Z.of_nat len <=? i) && (i <? 0))%Z then Ok (Z.to_nat (i + Z.of_nat len))
  else Raise IndexError.

Definition py_bound (len : nat) (i : Z) : nat :=
  if (i <? 0)%Z then Z.to_nat (Z.max 0 (i + Z.of_nat len))
  else Z.to_nat (Z.min i (Z.of_nat len)).

Definition py_getitem {A} (d : A) (l : list A) (i : Z) : outcome A :=
  obind (py_index (length l) i) (fun k => Ok (nth k l d)).

Definition list_set {A} (l : list A) (k : nat) (a : A) : list A :=
  firstn k l ++ a :: skipn (S k) l.

Definition py_setitem {A} (l : list A) (i : Z) (a : A) : outcome (list A) :=
  obind (py_index (length l) i) (fun k => Ok (list_set l k a)).

(** [l[a:b]] *)
Definition py_slice {A} (a b : Z) (l : list A) : list A :=
  let a' := py_bound (length l) a in
  let b' := py_bound (length l) b in
  firstn (b' - a') (skipn a' l).

(** [l[a:]] *)
Definition py_slice_from {A} (a : Z) (l : list A) : list A :=
  skipn (py_bound (length l) a) l.

(** [l[a:b] = v] on an array: the lengths agree, or [v] has one element,
    which is then repeated over the slice (also over an empty one). *)
Definition py_set_slice {A} (a b : Z) (l v : list A) : outcome (list A) :=
  let a' := py_bound (length l) a in
  let k := py_bound (length l) b - a' in
  if Nat.eqb (length v) k then Ok (firstn a' l ++ v ++ skipn (a' + k) l)
  else match v with
       | [x] => Ok (firstn a' l ++ repeat x k ++ skipn (a' + k) l)
       | _ => Raise ValueError
       end.

(** ** Integer draws *)

(** [np.random.randint(low, high, size)]: an empty request returns at once,
    a negative size and an empty range are refused. *)
Definition np_random_randint (low high size : Z) : Rand (list Z) :=
  if (size =? 0)%Z then ret []
  else if (size <? 0)%Z then raise ValueError
  else if (high <=? low)%Z then raise ValueError
  else draw_list (Z.to_nat size)
         (k <- next_bits ;; ret (low + Z.of_nat k mod (high - low))%Z).

Definition swap (i j : nat) (l : list nat) : list nat :=
  list_set (list_set l i (nth j l O)) j (nth i l O).

(** The shuffle behind [np.random.permutation]: for [i] from the last
    position down to 1, exchange position [i] with a position drawn from
    [0..i]. *)
Fixpoint shuffle_from (i : nat) (l : list nat) : Rand (list nat) :=
  match i with
  | O => ret l
  | S i' => k <- next_bits ;; shuffle_from i' (swap i (k mod (S i)) l)
  end.

Definition np_random_permutation (n : Z) : Rand (list nat) :=
  shuffle_from (Z.to_nat n - 1) (seq 0 (Z.to_nat n)).

(** [np.sort] of an integer vector. *)
Fixpoint insert_sorted (x : Z) (l : list Z) : list Z :=
  match l with
  | [] => [x]
  | y :: t => if (x <=? y)%Z then x :: l else y :: insert_sorted x t
  end.

Definition np_sort (l : list Z) : list Z := fold_right insert_sorted [] l.

(** [np.zeros(n, dtype=int)] *)
Definition np_zeros_int (n : Z) : outcome (list Z) :=
  if (n <? 0)%Z then Raise ValueError else Ok (repeat 0%Z (Z.to_nat n)).

(** [np.min] *)
Definition np_min (l : list Z) : outcome Z :=
  match l with
  | [] => Raise ValueError
  | x :: t => Ok (fold_left Z.min t x)
  end.

(** ** Permutation *)

(** One pass of the body of the [while] loop: the candidate boundaries. *)
Definition draw_segs (M nPerm minSegLength : Z) : Rand (list Z) :=
  segs <- lift (np_zeros_int (nPerm + 1)) ;;
  cuts <- np_random_randint minSegLength (M - minSegLength) (nPerm - 1) ;;
  segs <- lift (py_set_slice 1 (-1) segs (np_sort cuts)) ;;
  lift (py_setitem segs (-1) M).

(** [np.min(segs[1:]-segs[0:-1]) > minSegLength] *)
Definition accepted (segs : list Z) (minSegLength : Z) : outcome bool :=
  obind (np_min (map2 Z.sub (py_slice_from 1 segs) (py_slice 0 (-1) segs)))
        (fun m => Ok (minSegLength <? m)%Z).

Fixpoint search_segs (fuel : nat) (M nPerm minSegLength : Z) : Rand (list Z) :=
  match fuel with
  | O => fun _ => Timeout
  | S fuel' =>
      segs <- draw_segs M nPerm minSegLength ;;
      ok <- lift (accepted segs minSegLength) ;;
      if ok : bool then ret segs else search_segs fuel' M nPerm minSegLength
  end.

(** The body of the [for] loop: copy segment [k] of [X] to row [pp] on. *)
Definition place_segment (X : list (list R)) (segs : list Z)
    (st : list (list R) * nat) (k : nat) : outcome (list (list R) * nat) :=
  let '(X_new, pp) := st in
  obind (py_getitem 0%Z segs (Z.of_nat k)) (fun lo =>
  obind (py_getitem 0%Z segs (Z.of_nat k + 1)) (fun hi =>
  let x_temp := py_slice lo hi X in
  obind (py_set_slice (Z.of_nat pp) (Z.of_nat (pp + length x_temp)) X_new x_temp)
        (fun X_new' => Ok (X_new', pp + length x_temp)))).

Fixpoint place_all (X : list (list R)) (segs : list Z) (idx : list nat)
    (st : list (list R) * nat) : outcome (list (list R) * nat) :=
  match idx with
  | [] => Ok st
  | k :: idx' => obind (place_segment X segs st k) (place_all X segs idx')
  end.

Definition permutation (fuel : nat) (X : ndarray) (nPerm minSegLength : Z)
  : Rand ndarray :=
  let X_new := np_zeros (shape X) in
  idx <- np_random_permutation nPerm ;;
  segs <- search_segs fuel (Z.of_nat (shape0 X)) nPerm minSegLength ;;
  st <- lift (place_all (rowsOf X) segs idx (rowsOf X_new, O)) ;;
  ret (mkArray (shape1 X) (fst st)).

(** ** Linear interpolation

    [np.interp(x, xp, fp)], one query at a time.  A query right of the last
    sample point takes the last value, one left of the first the first value;
    otherwise [j] is the greatest position whose sample point is not beyond
    the query (found by scanning from position 1, as numpy's search does on a
    non-decreasing [xp]), and the value is [fp[j]] when [j] is the last
    position or [xp[j]] is the query itself, and the chord through positions
    [j] and [j+1] otherwise. *)

Fixpoint scan_le (key : R) (arr : list R) : nat :=
  match arr with
  | [] => O
  | a :: t => if Rlt_dec key a then O else S (scan_le key t)
  end.

Definition interp_search (key : R) (xp : list R) : nat := scan_le key (tl xp).

Definition interp1 (xp fp : list R) (x : R) : R :=
  let n := length xp in
  if Nat.eqb n 1 then nth 0 fp 0%R
  else if Rlt_dec (nth (n - 1) xp 0%R) x then nth (n - 1) fp 0%R
  else if Rlt_dec x (nth 0 xp 0%R) then nth 0 fp 0%R
  else
    let j := interp_search x xp in
    if Nat.eqb j (n - 1) then nth j fp 0%R
    else if Req_dec_T (nth j xp 0%R) x then nth j fp 0%R
    else
      let slope := ((nth (S j) fp 0 - nth j fp 0) / (nth (S j) xp 0 - nth j xp 0))%R in
      (slope * (x - nth j xp 0) + nth j fp 0)%R.

Definition np_interp (x xp fp : list R) : outcome (list R) :=
  if Nat.eqb (length xp) 0 then Raise ValueError
  else if negb (Nat.eqb (length xp) (length fp)) then Raise ValueError
  else Ok (map (interp1 xp fp) x).

(** [np.arange(M)] as sample positions. *)
Definition np_arange (M : nat) : list R := map INR (seq 0 M).

(** [A[:, c]] *)
Definition np_col (c : nat) (A : ndarray) : outcome (list R) :=
  if Nat.ltb c (shape1 A) then Ok (column c (rowsOf A)) else Raise IndexError.

(** [A[:, c] = v] for a vector [v] with one entry per row. *)
Definition np_set_col (c : nat) (v : list R) (A : ndarray) : outcome ndarray :=
  if negb (Nat.ltb c (shape1 A)) then Raise IndexError
  else if negb (Nat.eqb (length v) (shape0 A)) then Raise ValueError
  else Ok (mkArray (shape1 A) (map2 (fun r a => list_set r c a) (rowsOf A) v)).

(** ** Random sampling *)

(** The integer array [tt] of [rand_sample_timesteps] is only ever read and
    written one column at a time; it is kept as the list of its columns. *)
Definition int_cols := list (list Z).

(** [tt[1:-1, c] = v] *)
Definition set_interior (c : nat) (v : list Z) (tt : int_cols) : outcome int_cols :=
  match nth_error tt c with
  | None => Raise IndexError
  | Some col => obind (py_set_slice 1 (-1) col v) (fun col' => Ok (list_set tt c col'))
  end.

(** [tt[-1, :] = a] *)
Fixpoint set_last_row (a : Z) (tt : int_cols) : outcome int_cols :=
  match tt with
  | [] => Ok []
  | col :: rest =>
      obind (py_setitem col (-1) a) (fun col' =>
      obind (set_last_row a rest) (fun rest' => Ok (col' :: rest')))
  end.

Definition sample_column (M nSample : Z) (c : nat) (tt : int_cols) : Rand int_cols :=
  draws <- np_random_randint 1 (M - 1) (nSample - 2) ;;
  lift (set_interior c (np_sort draws) tt).

Definition rand_sample_timesteps (X : ndarray) (nSample : Z) : Rand int_cols :=
  let M := Z.of_nat (shape0 X) in
  tt <- lift (obind (np_zeros_int nSample) (fun z => Ok (repeat z (shape1 X)))) ;;
  tt <- sample_column M nSample 0 tt ;;
  tt <- sample_column M nSample 1 tt ;;
  tt <- sample_column M nSample 2 tt ;;
  lift (set_last_row (M - 1) tt).

(** [X[t, c]] for an integer vector [t] of row numbers. *)
Fixpoint np_take (col : list R) (t : list Z) : outcome (list R) :=
  match t with
  | [] => Ok []
  | i :: t' =>
      obind (py_getitem 0%R col i) (fun a =>
      obind (np_take col t') (fun l => Ok (a :: l)))
  end.

(** [X_new[:,c] = np.interp(np.arange(X.shape[0]), tt[:,c], X[tt[:,c],c])] *)
Definition resample_column (X : ndarray) (tt : int_cols) (c : nat)
    (X_new : ndarray) : outcome ndarray :=
  match nth_error tt c with
  | None => Raise IndexError
  | Some t =>
      obind (np_col c X) (fun col =>
      obind (np_take col t) (fun fp =>
      obind (np_interp (np_arange (shape0 X)) (map IZR t) fp) (fun v =>
      np_set_col c v X_new)))
  end.

Definition rand_sampling (X : ndarray) (nSample : Z) : Rand ndarray :=
  tt <- rand_sample_timesteps X nSample ;;
  lift (obind (resample_column X tt 0 (np_zeros (shape X))) (fun X_new =>
        obind (resample_column X tt 1 X_new) (fun X_new =>
        resample_column X tt 2 X_new))).

(** ** Rotation *)

(** [np.random.uniform(low, high)] *)
Definition np_random_uniform (low high : R) : Rand R :=
  u <- next_unif ;; ret (low + (high - low) * u)%R.

(** [transforms3d.axangles.axangle2mat(axis, angle)]: the axis is unpacked
    into three components (anything else is a [ValueError]), normalised, and
    turned into the rotation matrix of Rodrigues' formula. *)
Definition axangle2mat (axis : list R) (angle : R) : outcome ndarray :=
  match axis with
  | [x; y; z] =>
      let n := sqrt (x * x + y * y + z * z) in
      let x := (x / n)%R in
      let y := (y / n)%R in
      let z := (z / n)%R in
      let c := cos angle in
      let s := sin angle in
      let C := (1 - c)%R in
      let xs := (x * s)%R in let ys := (y * s)%R in let zs := (z * s)%R in
      let xC := (x * C)%R in let yC := (y * C)%R in let zC := (z * C)%R in
      let xyC := (x * yC)%R in let yzC := (y * zC)%R in let zxC := (z * xC)%R in
      Ok (mkArray 3
            [[x * xC + c; xyC - zs; zxC + ys];
             [xyC + zs; y * yC + c; yzC - xs];
             [zxC - ys; yzC + xs; z * zC + c]]%R)
  | _ => Raise ValueError
  end.

Definition rotation (X : ndarray) : Rand ndarray :=
  axis <- draw_list (shape1 X) (np_random_uniform (-1) 1) ;;
  angle <- np_random_uniform (- PI) PI ;;
  lift (obind (axangle2mat axis angle) (np_matmul X)).

(** ** Cubic splines

    [scipy.interpolate.CubicSpline(x, y)] with its default not-a-knot ends:
    the derivatives at the knots solve a tridiagonal system (scipy hands it
    to a banded solver; here it is eliminated row by row), and each piece is
    the cubic Hermite polynomial of its end values and derivatives. *)

Fixpoint diff (l : list R) : list R :=
  match l with
  | a :: (b :: _) as t => (b - a)%R :: diff t
  | _ => []
  end.

Definition strictly_increasing (xs : list R) : bool :=
  forallb (fun d => if Rlt_dec 0 d then true else false) (diff xs).

(** A row of the system: lower, diagonal and upper entry, right-hand side. *)
Definition tri_row : Type := R * R * R * R.

Definition spline_row (n : nat) (xs dx slope : list R) (r : nat) : tri_row :=
  let x_ i := nth i xs 0%R in
  let dx_ i := nth i dx 0%R in
  let sl_ i := nth i slope 0%R in
  if Nat.eqb n 3 then
    match r with
    | O => (0, 1, 1, 2 * sl_ O)%R
    | S O => (dx_ 1%nat, 2 * (dx_ O + dx_ 1%nat), dx_ O,
              3 * (dx_ O * sl_ 1%nat + dx_ 1%nat * sl_ O))%R
    | _ => (1, 1, 0, 2 * sl_ 1%nat)%R
    end
  else if Nat.eqb r 0 then
    let d := (x_ 2%nat - x_ O)%R in
    (0, dx_ 1%nat, d,
     ((dx_ O + 2 * d) * dx_ 1%nat * sl_ O + dx_ O * dx_ O * sl_ 1%nat) / d)%R
  else if Nat.eqb r (n - 1) then
    let d := (x_ (n - 1)%nat - x_ (n - 3)%nat)%R in
    (d, dx_ (n - 3)%nat, 0,
     (dx_ (n - 2)%nat * dx_ (n - 2)%nat * sl_ (n - 3)%nat
      + (2 * d + dx_ (n - 2)%nat) * dx_ (n - 3)%nat * sl_ (n - 2)%nat) / d)%R
  else
    (dx_ r, 2 * (dx_ (r - 1)%nat + dx_ r), dx_ (r - 1)%nat,
     3 * (dx_ r * sl_ (r - 1)%nat + dx_ (r - 1)%nat * sl_ r))%R.

Fixpoint eliminate (rows : list tri_row) (c_prev d_prev : R) : list (R * R) :=
  match rows with
  | [] => []
  | (a, b, c, d) :: t =>
      let m := (b - a * c_prev)%R in
      let c' := (c / m)%R in
      let d' := ((d - a * d_prev) / m)%R in
      (c', d') :: eliminate t c' d'
  end.

Fixpoint back_substitute (cd : list (R * R)) : list R :=
  match cd with
  | [] => []
  | (c', d') :: t =>
      let s := back_substitute t in
      (d' - c' * hd 0 s)%R :: s
  end.

Definition knot_derivatives (xs ys : list R) : list R :=
  let n := length xs in
  let dx := diff xs in
  let slope := map2 Rdiv (diff ys) dx in
  if Nat.eqb n 2 then [nth 0 slope 0%R; nth 0 slope 0%R]
  else back_substitute (eliminate (map (spline_row n xs dx slope) (seq 0 n)) 0 0).

(** One piece: its right end, the left end, and the coefficients of
    [(x - left)^3], [(x - left)^2], [(x - left)] and 1. *)
Record piece : Type := mkPiece {
  p_left : R; p_right : R; c0 : R; c1 : R; c2 : R; c3 : R
}.

Fixpoint pieces (xs ys s : list R) : list piece :=
  match xs, ys, s with
  | x0 :: ((x1 :: _) as xs'), y0 :: ((y1 :: _) as ys'), s0 :: ((s1 :: _) as s') =>
      let dx := (x1 - x0)%R in
      let slope := ((y1 - y0) / dx)%R in
      let t := ((s0 + s1 - 2 * slope) / dx)%R in
      mkPiece x0 x1 (t / dx) ((slope - s0) / dx - t) s0 y0 :: pieces xs' ys' s'
  | _, _, _ => []
  end.

Definition piece_value (p : piece) (x : R) : R :=
  let d := (x - p_left p)%R in
  (((c0 p * d + c1 p) * d + c2 p) * d + c3 p)%R.

(** Evaluation picks the piece whose interval holds [x]; the first and the
    last piece extend beyond the knots. *)
Fixpoint ppoly (ps : list piece) (x : R) : R :=
  match ps with
  | [] => 0%R
  | [p] => piece_value p x
  | p :: rest => if Rlt_dec x (p_right p) then piece_value p x else ppoly rest x
  end.

Definition CubicSpline (xs ys : list R) : outcome (R -> R) :=
  if Nat.ltb (length xs) 2 then Raise ValueError
  else if negb (Nat.eqb (length xs) (length ys)) then Raise ValueError
  else if negb (strictly_increasing xs) then Raise ValueError
  else Ok (ppoly (pieces xs ys (knot_derivatives xs ys))).

(** ** Random curves and magnitude warping *)

(** [np.arange(0, stop, num/den)] for the Python quotient [num/den] of two
    integers: [ceil(stop / step)] values [i * step]. *)
Definition np_arange_step (stop num den : Z) : outcome (list R) :=
  if (den =? 0)%Z then Raise ZeroDivisionError
  else if (num =? 0)%Z then Raise ZeroDivisionError
  else
    let len := Z.to_nat (- ((- (stop * den)) / num))%Z in
    Ok (map (fun i => (INR i * (IZR num / IZR den))%R) (seq 0 len)).

Definition generate_random_curves (X : ndarray) (sigma : R) (knot : Z) : Rand ndarray :=
  let M := shape0 X in
  let N := shape1 X in
  ticks <- lift (np_arange_step (Z.of_nat M) (Z.of_nat M - 1) (knot + 1)) ;;
  let xx := mkArray N (map (fun t => repeat t N) ticks) in
  yy <- (if (knot + 2 <? 0)%Z then raise ValueError
         else np_random_normal 1 sigma (Z.to_nat (knot + 2), N)) ;;
  let x_range := np_arange M in
  lift (obind (np_col 0 xx) (fun x0 => obind (np_col 0 yy) (fun y0 =>
        obind (CubicSpline x0 y0) (fun cs_x =>
        obind (np_col 1 xx) (fun x1 => obind (np_col 1 yy) (fun y1 =>
        obind (CubicSpline x1 y1) (fun cs_y =>
        obind (np_col 2 xx) (fun x2 => obind (np_col 2 yy) (fun y2 =>
        obind (CubicSpline x2 y2) (fun cs_z =>
        Ok (mkArray 3 (map (fun t => [cs_x t; cs_y t; cs_z t]) x_range)))))))))))).

Definition magnitude_warp (X : ndarray) (sigma : R) : Rand ndarray :=
  curve <- generate_random_curves X sigma 4 ;;
  lift (np_mul_checked X curve).

(** ** Time warping *)

(** What a global name of the module is bound to.  Only a curve generator
    is ever called through a name looked up at run time; the other
    definitions are recorded by name. *)
Inductive pyobj : Type :=
| PyCurveGenerator (f : ndarray -> R -> Rand ndarray)
| PyObject (descr : string).

Definition globals : Type := list (string * pyobj).

Fixpoint lookup (name : string) (g : globals) : option pyobj :=
  match g with
  | [] => None
  | (k, v) :: rest => if String.eqb name k then Some v else lookup name rest
  end.

(** The names the module binds, in the order of its statements. *)
Definition module_globals : globals :=
  [ ("np", PyObject "module numpy");
    ("CubicSpline", PyObject "class scipy.interpolate.CubicSpline");
    ("axangle2mat", PyObject "function transforms3d.axangles.axangle2mat");
    ("jitter", PyObject "function");
    ("scaling", PyObject "function");
    ("generate_random_curves",
       PyCurveGenerator (fun X sigma => generate_random_curves X sigma 4));
    ("magnitude_warp", PyObject "function");
    ("distort_timesteps", PyObject "function");
    ("time_warp", PyObject "function");
    ("rotation", PyObject "function");
    ("permutation", PyObject "function");
    ("rand_sample_timesteps", PyObject "function");
    ("rand_sampling", PyObject "function") ]%string.

(** A call [name(X, sigma)] through the module's globals. *)
Definition call_global (g : globals) (name : string) (X : ndarray) (sigma : R)
  : Rand ndarray :=
  match lookup name g with
  | None => raise NameError
  | Some (PyCurveGenerator f) => f X sigma
  | Some (PyObject _) => raise (PyExc "TypeError")
  end.

(** [np.cumsum(tt, axis=0)] *)
Fixpoint cumsum_rows (acc : list R) (rows : list (list R)) : list (list R) :=
  match rows with
  | [] => []
  | r :: rest => let acc' := map2 Rplus acc r in acc' :: cumsum_rows acc' rest
  end.

Definition np_cumsum0 (tt : ndarray) : ndarray :=
  mkArray (shape1 tt) (cumsum_rows (repeat 0%R (shape1 tt)) (rowsOf tt)).

(** [tt_cum[-1, c]] *)
Definition last_entry (A : ndarray) (c : nat) : outcome R :=
  obind (py_getitem [] (rowsOf A) (-1)) (fun r =>
  if Nat.ltb c (shape1 A) then Ok (nth c r 0%R) else Raise IndexError).

(** [tt_cum[:,c] = tt_cum[:,c]*t] *)
Definition scale_col (c : nat) (t : R) (A : ndarray) : outcome ndarray :=
  obind (np_col c A) (fun col => np_set_col c (map (fun v => (v * t)%R) col) A).

Definition distort_timesteps (g : globals) (X : ndarray) (sigma : R) : Rand ndarray :=
  tt <- call_global g "GenerateRandomCurves" X sigma ;;
  let tt_cum := np_cumsum0 tt in
  let Mm1 := (INR (shape0 X) - 1)%R in
  lift (obind (last_entry tt_cum 0) (fun l0 =>
        obind (last_entry tt_cum 1) (fun l1 =>
        obind (last_entry tt_cum 2) (fun l2 =>
        obind (scale_col 0 (Mm1 / l0) tt_cum) (fun tt_cum =>
        obind (scale_col 1 (Mm1 / l1) tt_cum) (fun tt_cum =>
        scale_col 2 (Mm1 / l2) tt_cum)))))).

(** [X_new[:,c] = np.interp(x_range, tt_new[:,c], X[:,c])] *)
Definition warp_column (X tt_new : ndarray) (c : nat) (X_new : ndarray)
  : outcome ndarray :=
  obind (np_col c tt_new) (fun xp =>
  obind (np_col c X) (fun fp =>
  obind (np_interp (np_arange (shape0 X)) xp fp) (fun v =>
  np_set_col c v X_new))).

Definition time_warp (g : globals) (X : ndarray) (sigma : R) : Rand ndarray :=
  tt_new <- distort_timesteps g X sigma ;;
  lift (obind (warp_column X tt_new 0 (np_zeros (shape X))) (fun X_new =>
        obind (warp_column X tt_new 1 X_new) (fun X_new =>
        warp_column X tt_new 2 X_new))).

(** * Vocabulary of the statements *)

(** A draw that always succeeds and moves the cursor by [k]. *)
Definition steady {A} (d : Rand A) (k : nat) (v : RandomState -> A) : Prop :=
  forall s, d s = Ok (v s, advance k s).

(** The array [np.random.normal] returns on a non-negative scale. *)
Definition normal_rows (loc scale : R) (sh : nat * nat) (s : RandomState)
  : list (list R) :=
  map (fun i => map (fun j => (loc + scale * gauss s (cursor s + i * snd sh + j))%R)
                    (seq 0 (snd sh)))
      (seq 0 (fst sh)).

(** The Euclidean norm of a row. *)
Definition norm (r : list R) : R := sqrt (dot r r).

(** The axis and the angle [rotation] draws for an array of [N] columns. *)
Definition drawn_axis (N : nat) (rng : RandomState) : list R :=
  map (fun j => (-1 + (1 - -1) * unif rng (cursor rng + j))%R) (seq 0 N).

Definition drawn_angle (N : nat) (rng : RandomState) : R :=
  (- PI + (PI - - PI) * unif rng (cursor rng + N))%R.

(** The values [np.random.randint] returns for a request of [n > 0] numbers
    from a non-empty range. *)
Definition randint_draws (low high : Z) (n : nat) (s : RandomState) : list Z :=
  map (fun j => (low + Z.of_nat (bits s (cursor s + j)) mod (high - low))%Z) (seq 0 n).

(** The lengths of the candidate segments: [segs[1:] - segs[0:-1]]. *)
Definition gaps (segs : list Z) : list Z := map2 Z.sub (tl segs) segs.

(** The sum of a list of integers. *)
Definition zsum (l : list Z) : Z := fold_right Z.add 0%Z l.

(** Sample data: the [M x N] window whose entry [(i, j)] is [i * N + j], and
    a generator state. *)
Definition window (M N : nat) : ndarray :=
  mkArray N (map (fun i => map (fun j => INR (i * N + j)) (seq 0 N)) (seq 0 M)).

Definition sample_rng : RandomState :=
  mkRandomState (fun n => (INR n - 2)%R) (fun n => (/ INR (n + 2))%R)
                (fun n => n * n + 1) 0.

(** A run that exhausts every amount of fuel: the loop does not end. *)
Definition never_returns {A} (run : nat -> outcome A) : Prop :=
  forall fuel, run fuel = Timeout.

(** The segments a list of boundaries cuts [X] into. *)
Fixpoint slices {A} (X : list A) (segs : list Z) : list (list A) :=
  match segs with
  | lo :: ((hi :: _) as t) => py_slice lo hi X :: slices X t
  | _ => []
  end.

(** A column of sample positions: 0, then positions inside the window, then
    the last position. *)
Definition sample_positions (M : Z) (n : nat) (last : Z) (t : list Z) : Prop :=
  exists d, t = 0%Z :: d ++ [last] /\ length d + 2 = n /\
            Forall (fun x => (1 <= x < M - 1)%Z) d.

(** The values [np.interp] writes into column [c] for the positions [t]. *)
Definition resampled (X : ndarray) (c : nat) (t : list Z) : list R :=
  map (interp1 (map IZR t)
               (map (fun i => nth (Z.to_nat i) (column c (rowsOf X)) 0%R) t))
      (np_arange (shape0 X)).

(** The errors numpy and Python raise by themselves in this module. *)
Definition numpy_error (e : exn) : Prop :=
  e = ValueError \/ e = IndexError \/ e = ZeroDivisionError.

(** A run that, if it raises at all, raises one of these. *)
Definition benign {A} (o : outcome A) : Prop :=
  match o with
  | Raise e => numpy_error e
  | _ => True
  end.

(** The knots and the spline of channel [c] in a run of the curve generator
    on [M >= 6] rows. *)
Definition curve_ticks (X : ndarray) : list R :=
  map (fun i => (INR i * (IZR (Z.of_nat (shape0 X) - 1) / IZR (4 + 1)))%R) (seq 0 6).

Definition curve_values (X : ndarray) (sigma : R) (rng : RandomState) (c : nat) : list R :=
  column c (normal_rows 1 sigma (6, shape1 X) rng).

Definition curve_spline (X : ndarray) (sigma : R) (rng : RandomState) (c : nat) : R -> R :=
  ppoly (pieces (curve_ticks X) (curve_values X sigma rng c)
                (knot_derivatives (curve_ticks X) (curve_values X sigma rng c))).


(** A generator state that replays a given list of raw integers. *)
Definition tape_rng (tape : list nat) : RandomState :=
  mkRandomState (fun _ => 0%R) (fun _ => 0%R) (fun n => nth n tape 0) 0.

(** [Y] has the shape of [X], and every row of [Y] has that many entries. *)
Definition same_shape (X Y : ndarray) : Prop := shape Y = shape X /\ wf Y.

(** A column of sample positions whose interior is in non-decreasing
    order. *)
Definition sorted_positions (M : Z) (n : nat) (last : Z) (t : list Z) : Prop :=
  exists d, t = 0%Z :: d ++ [last] /\ length d + 2 = n /\
            Forall (fun x => (1 <= x < M - 1)%Z) d /\ LocallySorted Z.le d.

(** The module's globals with the name [distort_timesteps] calls added, as
    an alias of the curve generator with its default number of knots. *)
Definition aliased_globals : globals :=
  ("GenerateRandomCurves"%string,
   PyCurveGenerator (fun X sigma => generate_random_curves X sigma 4))
  :: module_globals.

(** The curve that is 1 at every row of every channel. *)
Definition unit_curve (M : nat) : ndarray := mkArray 3 (repeat [1; 1; 1]%R M).

(** * Properties *)

(** ** The generator *)

Lemma advance_0 (s : RandomState) : advance 0 s = s.
Proof. destruct s; unfold advance; simpl. f_equal. lia. Qed.

Lemma advance_advance (a b : nat) (s : RandomState) :
  advance a (advance b s) = advance (b + a) s.
Proof. unfold advance; simpl. f_equal. lia. Qed.

Lemma draw_list_steady {A} (d : Rand A) (k : nat) (v : RandomState -> A) :
  steady d k v ->
  forall n, steady (draw_list n d) (n * k)
              (fun s => map (fun j => v (advance (j * k) s)) (seq 0 n)).
Proof.
  intros Hd n. induction n as [|n IH]; intros s.
  - simpl. unfold ret. now rewrite advance_0.
  - cbn [draw_list]. unfold bind at 1. rewrite Hd.
    unfold bind at 1. rewrite IH. unfold ret.
    rewrite advance_advance.
    replace (k + n * k) with (S n * k) by reflexivity.
    cbn [seq map]. rewrite advance_0.
    rewrite <- seq_shift, map_map.
    erewrite (map_ext (fun j => v (advance (j * k) (advance k s)))).
    + reflexivity.
    + intros j. rewrite advance_advance. do 2 f_equal.
Qed.

Lemma steady_gauss (f : R -> R) :
  steady (z <- next_gauss ;; ret (f z)) 1 (fun s => f (gauss s (cursor s))).
Proof. intros s. reflexivity. Qed.

Lemma steady_bits {A} (f : nat -> A) :
  steady (k <- next_bits ;; ret (f k)) 1 (fun s => f (bits s (cursor s))).
Proof. intros s. reflexivity. Qed.

Lemma steady_uniform (low high : R) :
  steady (np_random_uniform low high) 1
         (fun s => (low + (high - low) * unif s (cursor s))%R).
Proof. intros s. reflexivity. Qed.

Lemma np_random_normal_ok (loc scale : R) (sh : nat * nat) (s : RandomState) :
  (0 <= scale)%R ->
  np_random_normal loc scale sh s
  = Ok (mkArray (snd sh) (normal_rows loc scale sh s), advance (fst sh * (snd sh * 1)) s).
Proof.
  intros Hs. unfold np_random_normal.
  destruct (Rlt_dec scale 0) as [Hlt|_]; [lra|].
  unfold bind.
  rewrite (draw_list_steady (draw_list_steady (steady_gauss (fun z => (loc + scale * z)%R)) (snd sh)) (fst sh)).
  unfold ret. do 3 f_equal. unfold normal_rows.
  apply map_ext. intros i. apply map_ext. intros j.
  simpl. do 3 f_equal. lia.
Qed.

Lemma np_random_normal_neg (loc scale : R) (sh : nat * nat) (s : RandomState) :
  (scale < 0)%R -> np_random_normal loc scale sh s = Raise ValueError.
Proof.
  intros Hs. unfold np_random_normal.
  destruct (Rlt_dec scale 0) as [_|Hn]; [reflexivity|lra].
Qed.

(** ** Lists and arrays *)

Lemma map2_length {A B C} (f : A -> B -> C) (l : list A) (l' : list B) :
  length (map2 f l l') = Nat.min (length l) (length l').
Proof.
  revert l'. induction l as [|a l IH]; intros [|b l']; simpl; auto.
Qed.

Lemma nth_map2 {A B C} (f : A -> B -> C) (l : list A) (l' : list B)
    (i : nat) (da : A) (db : B) (dc : C) :
  i < length l -> i < length l' ->
  nth i (map2 f l l') dc = f (nth i l da) (nth i l' db).
Proof.
  revert l' i. induction l as [|a l IH]; intros [|b l'] [|i]; simpl; intros; try lia; auto.
  apply IH; lia.
Qed.

Lemma map2_fst_id {A B} (f : A -> B -> A) (l : list A) (l' : list B) :
  length l = length l' ->
  (forall i a b, nth_error l i = Some a -> nth_error l' i = Some b -> f a b = a) ->
  map2 f l l' = l.
Proof.
  revert l'. induction l as [|a l IH]; intros [|b l'] Hlen H; simpl in *; try discriminate; auto.
  f_equal.
  - apply (H 0); reflexivity.
  - apply IH; [lia|]. intros i x y Hx Hy. apply (H (S i)); assumption.
Qed.

Lemma wf_row (X : ndarray) (i : nat) (r : list R) :
  wf X -> nth_error (rowsOf X) i = Some r -> length r = shape1 X.
Proof.
  intros Hwf Hr. unfold wf in Hwf. rewrite Forall_forall in Hwf.
  apply Hwf. eapply nth_error_In; eauto.
Qed.

Lemma nth_error_map_seq {A} (f : nat -> A) (n i : nat) (a : A) :
  nth_error (map f (seq 0 n)) i = Some a -> i < n /\ a = f i.
Proof.
  intros H.
  assert (Hi : i < n).
  { assert (Hl : i < length (map f (seq 0 n))) by (apply nth_error_Some; congruence).
    now rewrite length_map, length_seq in Hl. }
  split; [exact Hi|].
  rewrite nth_error_map, nth_error_seq in H.
  destruct (Nat.ltb_spec i n) as [_|Hge]; [|lia].
  simpl in H. congruence.
Qed.

Lemma nth_map_seq {A} (f : nat -> A) (n i : nat) (d : A) :
  i < n -> nth i (map f (seq 0 n)) d = f i.
Proof.
  intros Hi. rewrite (nth_indep _ d (f 0)) by (rewrite length_map, length_seq; exact Hi).
  rewrite (map_nth f (seq 0 n) 0 i). rewrite seq_nth by exact Hi. reflexivity.
Qed.

Lemma nth_repeat_lt {A} (a d : A) (n i : nat) : i < n -> nth i (repeat a n) d = a.
Proof.
  revert i. induction n as [|n IH]; intros [|i] Hi; simpl; try lia; auto.
  apply IH. lia.
Qed.

Lemma nth_map_lt {A B} (f : A -> B) (l : list A) (i : nat) (da : A) (db : B) :
  i < length l -> nth i (map f l) db = f (nth i l da).
Proof.
  intros Hi. rewrite (nth_indep _ db (f da)) by (rewrite length_map; exact Hi).
  apply map_nth.
Qed.

Lemma wf_nth_length (X : ndarray) (i : nat) :
  wf X -> i < shape0 X -> length (nth i (rowsOf X) []) = shape1 X.
Proof.
  intros Hwf Hi. unfold wf in Hwf. rewrite Forall_forall in Hwf.
  apply Hwf. apply nth_In. exact Hi.
Qed.

(** ** Jitter *)

Lemma normal_rows_length (loc scale : R) (sh : nat * nat) (s : RandomState) :
  length (normal_rows loc scale sh s) = fst sh.
Proof. unfold normal_rows. now rewrite length_map, length_seq. Qed.

(** C8.  With noise scale 0 the noise is identically zero: [jitter(X, 0)]
    returns [X] itself, entry for entry. *)
Theorem jitter_sigma_zero (X : ndarray) (rng : RandomState) :
  wf X -> result_of (jitter X 0 rng) = Ok X.
Proof.
  intros Hwf. unfold jitter, bind.
  rewrite np_random_normal_ok by lra.
  unfold ret, result_of. f_equal.
  destruct X as [N rows]. unfold np_add, shape, shape0 in *. cbn [shape1 rowsOf fst snd] in *.
  f_equal. apply map2_fst_id.
  - now rewrite normal_rows_length.
  - intros i r z Hr Hz. unfold normal_rows in Hz. cbn [fst snd] in Hz.
    apply nth_error_map_seq in Hz. destruct Hz as [Hi ->].
    assert (Hlen : length r = N) by (apply (@wf_row (mkArray N rows) i r Hwf Hr)).
    apply map2_fst_id.
    + now rewrite length_map, length_seq.
    + intros j x e Hx He. apply nth_error_map_seq in He. destruct He as [_ ->]. lra.
Qed.

Lemma jitter_sigma_zero_witness :
  result_of (jitter (mkArray 3 [[1; 2; 3]; [4; 5; 6]]%R) 0
               (mkRandomState (fun n => INR n) (fun _ => 0%R) (fun n => n) 0))
  = Ok (mkArray 3 [[1; 2; 3]; [4; 5; 6]]%R).
Proof.
  apply jitter_sigma_zero. unfold wf. cbn. repeat constructor.
Defined.

(** ** Scaling *)

Lemma dot_single (a b : R) : dot [a] [b] = (a * b + 0)%R.
Proof. reflexivity. Qed.

(** C7.  [scaling(X, sigma)] multiplies column [j] by one factor
    [1 + sigma * z_j], where [z_j] is the [j]-th standard normal variate
    drawn: every row of a column is scaled by the same factor. *)
Theorem scaling_per_channel (X : ndarray) (sigma : R) (rng : RandomState) :
  wf X -> (0 <= sigma)%R ->
  exists (factors : list R) (Y : ndarray),
    length factors = shape1 X /\
    (forall j, j < shape1 X ->
       nth j factors 0%R = (1 + sigma * gauss rng (cursor rng + j))%R) /\
    result_of (scaling X sigma rng) = Ok Y /\
    shape Y = shape X /\
    (forall i j, i < shape0 X -> j < shape1 X ->
       entry Y i j = (entry X i j * nth j factors 0)%R).
Proof.
  intros Hwf Hs.
  set (N := shape1 X). set (M := shape0 X).
  set (factors := map (fun j => (1 + sigma * gauss rng (cursor rng + j))%R) (seq 0 N)).
  assert (Hf : forall j, j < N -> nth j factors 0%R
                                  = (1 + sigma * gauss rng (cursor rng + j))%R).
  { intros j Hj. unfold factors. now rewrite nth_map_seq. }
  assert (Hrun : scaling X sigma rng
                 = Ok (np_mul X (mkArray N
                         (map (fun r => map (fun j => dot r (column j [factors])) (seq 0 N))
                              (repeat [1%R] M))),
                       advance (1 * (N * 1)) rng)).
  { unfold scaling, bind. rewrite np_random_normal_ok by exact Hs.
    unfold normal_rows. cbn [fst snd seq map]. fold N.
    replace (map (fun j => (1 + sigma * gauss rng (cursor rng + 0 * N + j))%R) (seq 0 N))
      with factors
      by (unfold factors; apply map_ext; intros j; do 3 f_equal; lia).
    unfold np_matmul, np_ones, shape0. cbn [shape1 rowsOf fst snd length Nat.eqb lift].
    fold M. reflexivity. }
  exists factors. eexists. split; [|split; [exact Hf|split; [|split]]].
  - unfold factors. now rewrite length_map, length_seq.
  - rewrite Hrun. reflexivity.
  - unfold shape, np_mul, shape0. cbn [shape1 rowsOf]. f_equal.
    rewrite map2_length, length_map, repeat_length. fold (shape0 X). fold M. lia.
  - intros i j Hi Hj. unfold entry, np_mul. cbn [rowsOf].
    rewrite (nth_map2 _ _ _ [] [] []);
      [|exact Hi|rewrite length_map, repeat_length; exact Hi].
    rewrite (nth_map_lt _ _ [1%R]) by (rewrite repeat_length; exact Hi).
    rewrite nth_repeat_lt by exact Hi.
    rewrite (nth_map2 _ _ _ 0%R 0%R 0%R);
      [|rewrite wf_nth_length by assumption; exact Hj
       |rewrite length_map, length_seq; exact Hj].
    rewrite nth_map_seq by exact Hj.
    unfold column. cbn [map]. rewrite dot_single. lra.
Qed.

Lemma scaling_per_channel_witness :
  exists (factors : list R) (Y : ndarray),
    length factors = 2 /\
    (forall j, j < 2 -> nth j factors 0%R = (1 + 1 * INR (0 + j))%R) /\
    result_of (scaling (mkArray 2 [[1; 2]; [3; 4]; [5; 6]]%R) 1
                 (mkRandomState (fun n => INR n) (fun _ => 0%R) (fun n => n) 0)) = Ok Y /\
    shape Y = (3, 2) /\
    (forall i j, i < 3 -> j < 2 ->
       entry Y i j = (entry (mkArray 2 [[1; 2]; [3; 4]; [5; 6]]%R) i j * nth j factors 0)%R).
Proof.
  apply (scaling_per_channel
           (X := mkArray 2 [[1; 2]; [3; 4]; [5; 6]]%R) (sigma := 1%R)
           (mkRandomState (fun n => INR n) (fun _ => 0%R) (fun n => n) 0)).
  - unfold wf. cbn. repeat constructor.
  - lra.
Defined.

(** ** Time warping: the unresolved name *)

Lemma curve_generator_names :
  lookup "GenerateRandomCurves" module_globals = None /\
  exists f, lookup "generate_random_curves" module_globals = Some (PyCurveGenerator f).
Proof. split; [reflexivity|]. eexists. reflexivity. Qed.

Lemma distort_timesteps_name_error (X : ndarray) (sigma : R) (rng : RandomState) :
  distort_timesteps module_globals X sigma rng = Raise NameError.
Proof. reflexivity. Qed.

(** C9.  [time_warp] never returns: its helper [distort_timesteps] calls
    [GenerateRandomCurves], a name the module does not bind (the curve
    generator is bound to [generate_random_curves]), so every call ends in a
    [NameError]. *)
Theorem time_warp_name_error (X : ndarray) (sigma : R) (rng : RandomState) :
  result_of (time_warp module_globals X sigma rng) = Raise NameError.
Proof.
  unfold time_warp, bind. now rewrite distort_timesteps_name_error.
Qed.

(** ** Rotation *)

Lemma rotation_run (X : ndarray) (rng : RandomState) :
  rotation X rng
  = lift (obind (axangle2mat (drawn_axis (shape1 X) rng) (drawn_angle (shape1 X) rng))
                (np_matmul X))
         (advance 1 (advance (shape1 X * 1) rng)).
Proof.
  unfold rotation, bind at 1.
  rewrite (draw_list_steady (steady_uniform (-1) 1) (shape1 X)).
  unfold bind. rewrite steady_uniform.
  unfold drawn_axis, drawn_angle. cbn [unif cursor advance].
  rewrite Nat.mul_1_r.
  erewrite (map_ext (fun j => (-1 + (1 - -1) * unif rng (cursor rng + j * 1))%R)).
  - reflexivity.
  - intros j. now rewrite Nat.mul_1_r.
Qed.

Lemma matmul_row3 (a b c d e f g h k p q w : R) :
  map (fun j => dot [p; q; w] (column j [[a; b; c]; [d; e; f]; [g; h; k]])) (seq 0 3)
  = [p * a + (q * d + (w * g + 0)); p * b + (q * e + (w * h + 0));
     p * c + (q * f + (w * k + 0))]%R.
Proof. reflexivity. Qed.

Lemma rodrigues_norm (x y z c s p q w : R) :
  (x * x + y * y + z * z = 1)%R -> (c * c + s * s = 1)%R ->
  let C := (1 - c)%R in
  let xs := (x * s)%R in let ys := (y * s)%R in let zs := (z * s)%R in
  let xC := (x * C)%R in let yC := (y * C)%R in let zC := (z * C)%R in
  let xyC := (x * yC)%R in let yzC := (y * zC)%R in let zxC := (z * xC)%R in
  dot [p * (x * xC + c) + (q * (xyC + zs) + (w * (zxC - ys) + 0));
       p * (xyC - zs) + (q * (y * yC + c) + (w * (yzC + xs) + 0));
       p * (zxC + ys) + (q * (yzC - xs) + (w * (z * zC + c) + 0))]%R
      [p * (x * xC + c) + (q * (xyC + zs) + (w * (zxC - ys) + 0));
       p * (xyC - zs) + (q * (y * yC + c) + (w * (yzC + xs) + 0));
       p * (zxC + ys) + (q * (yzC - xs) + (w * (z * zC + c) + 0))]%R
  = dot [p; q; w] [p; q; w].
Proof.
  intros Hn Hc C xs ys zs xC yC zC xyC yzC zxC.
  subst C xs ys zs xC yC zC xyC yzC zxC.
  unfold dot. cbn [map2 fold_right]. nsatz.
Qed.

Lemma unit_axis (x y z : R) :
  [x; y; z] <> [0; 0; 0]%R ->
  let n := sqrt (x * x + y * y + z * z) in
  (x / n * (x / n) + y / n * (y / n) + z / n * (z / n) = 1)%R.
Proof.
  intros Hne n.
  assert (Hpos : (0 < x * x + y * y + z * z)%R).
  { destruct (Req_dec x 0) as [Hx|Hx]; [|nra].
    destruct (Req_dec y 0) as [Hy|Hy]; [|nra].
    destruct (Req_dec z 0) as [Hz|Hz]; [|nra].
    exfalso. apply Hne. now subst. }
  assert (Hn : (0 < n)%R) by (apply sqrt_lt_R0; exact Hpos).
  assert (Hnn : (n * n = x * x + y * y + z * z)%R) by (apply sqrt_sqrt; lra).
  field_simplify_eq; [|lra]. nra.
Qed.

(** C5.  For an [M x 3] array and a non-zero drawn axis, [rotation] returns
    an array of the same shape each of whose rows has the Euclidean norm of
    the corresponding row of [X]: one rotation matrix multiplies every row. *)
Theorem rotation_preserves_norm (X : ndarray) (rng : RandomState) :
  wf X -> shape1 X = 3 -> drawn_axis 3 rng <> [0; 0; 0]%R ->
  exists Y : ndarray,
    result_of (rotation X rng) = Ok Y /\
    shape Y = shape X /\
    (forall i, i < shape0 X ->
       norm (nth i (rowsOf Y) []) = norm (nth i (rowsOf X) [])).
Proof.
  intros Hwf HN Hax.
  rewrite rotation_run, HN.
  remember (drawn_angle 3 rng) as angle eqn:Ha. clear Ha.
  unfold drawn_axis in *. cbn [seq map] in *.
  set (x := (-1 + (1 - -1) * unif rng (cursor rng + 0))%R) in *.
  set (y := (-1 + (1 - -1) * unif rng (cursor rng + 1))%R) in *.
  set (z := (-1 + (1 - -1) * unif rng (cursor rng + 2))%R) in *.
  pose proof (unit_axis Hax) as Hunit. cbv zeta in Hunit.
  unfold axangle2mat. cbv zeta.
  remember (sqrt (x * x + y * y + z * z)) as n eqn:Hn. clear Hn.
  remember (x / n)%R as u eqn:Hu. remember (y / n)%R as v eqn:Hv.
  remember (z / n)%R as t eqn:Ht. clear Hu Hv Ht.
  assert (Hcs : (cos angle * cos angle + sin angle * sin angle = 1)%R).
  { pose proof (sin2_cos2 angle) as H. unfold Rsqr in H. lra. }
  remember (cos angle) as c eqn:Hc. remember (sin angle) as s eqn:Hs. clear Hc Hs.
  unfold obind, np_matmul. cbn [shape1 shape0 rowsOf length].
  rewrite HN. cbn [Nat.eqb lift result_of].
  eexists. split; [reflexivity|]. split.
  - unfold shape, shape0. cbn [shape1 rowsOf]. now rewrite length_map, HN.
  - intros i Hi. cbn [rowsOf].
    rewrite (nth_map_lt _ _ []) by exact Hi.
    pose proof (wf_nth_length Hwf Hi) as Hlen. rewrite HN in Hlen.
    destruct (nth i (rowsOf X) []) as [|p [|q [|w [|? ?]]]]; try discriminate.
    rewrite matmul_row3. unfold norm. f_equal.
    apply (@rodrigues_norm u v t c s p q w Hunit Hcs).
Qed.

Lemma rotation_preserves_norm_witness :
  exists Y : ndarray,
    result_of (rotation (mkArray 3 [[1; 1; 1]; [1; 2; 3]]%R)
                 (mkRandomState (fun _ => 0%R) (fun _ => (1 / 4)%R) (fun n => n) 0)) = Ok Y /\
    shape Y = (2, 3) /\
    (forall i, i < 2 ->
       norm (nth i (rowsOf Y) []) = norm (nth i [[1; 1; 1]; [1; 2; 3]]%R [])).
Proof.
  apply (@rotation_preserves_norm (mkArray 3 [[1; 1; 1]; [1; 2; 3]]%R)
           (mkRandomState (fun _ => 0%R) (fun _ => (1 / 4)%R) (fun n => n) 0)).
  - unfold wf. cbn. repeat constructor.
  - reflexivity.
  - unfold drawn_axis. cbn. intros H. injection H as H _ _. lra.
Defined.

(** ** Python indexing *)

Lemma py_index_nat (len k : nat) : k < len -> py_index len (Z.of_nat k) = Ok k.
Proof.
  intros Hk. unfold py_index.
  replace ((0 <=? Z.of_nat k) && (Z.of_nat k <? Z.of_nat len))%Z with true
    by (symmetry; apply andb_true_intro; split; [apply Z.leb_le|apply Z.ltb_lt]; lia).
  now rewrite Nat2Z.id.
Qed.

Lemma py_index_last (len : nat) : 0 < len -> py_index len (-1) = Ok (len - 1).
Proof.
  intros Hl. unfold py_index. cbn [Z.leb Z.compare andb].
  replace ((- Z.of_nat len <=? -1) && (-1 <? 0))%Z with true
    by (symmetry; apply andb_true_intro; split; [apply Z.leb_le|apply Z.ltb_lt]; lia).
  f_equal. lia.
Qed.

Lemma py_getitem_nat {A} (d : A) (l : list A) (k : nat) :
  k < length l -> py_getitem d l (Z.of_nat k) = Ok (nth k l d).
Proof. intros Hk. unfold py_getitem. now rewrite py_index_nat. Qed.

Lemma py_bound_nat (len k : nat) : py_bound len (Z.of_nat k) = Nat.min k len.
Proof.
  unfold py_bound.
  destruct (Z.ltb_spec (Z.of_nat k) 0) as [H|_]; [lia|]. lia.
Qed.

Lemma py_bound_m1 (len : nat) : py_bound len (-1) = len - 1.
Proof. unfold py_bound. cbn [Z.ltb Z.compare]. lia. Qed.

Lemma py_slice_nat {A} (a b : nat) (l : list A) :
  a <= b -> b <= length l ->
  py_slice (Z.of_nat a) (Z.of_nat b) l = firstn (b - a) (skipn a l).
Proof.
  intros Hab Hb. unfold py_slice. rewrite !py_bound_nat.
  now rewrite !Nat.min_l by lia.
Qed.

Lemma py_set_slice_exact {A} (pp : nat) (l v : list A) :
  pp + length v <= length l ->
  py_set_slice (Z.of_nat pp) (Z.of_nat (pp + length v)) l v
  = Ok (firstn pp l ++ v ++ skipn (pp + length v) l).
Proof.
  intros Hle. unfold py_set_slice. rewrite !py_bound_nat.
  rewrite !Nat.min_l by lia.
  replace (pp + length v - pp) with (length v) by lia.
  now rewrite Nat.eqb_refl.
Qed.

Lemma list_set_length {A} (l : list A) (k : nat) (a : A) :
  k < length l -> length (list_set l k a) = length l.
Proof.
  intros Hk. unfold list_set.
  rewrite length_app, length_firstn. cbn [length]. rewrite length_skipn. lia.
Qed.

Lemma nth_list_set {A} (l : list A) (k i : nat) (a d : A) :
  k < length l ->
  nth i (list_set l k a) d = if Nat.eqb i k then a else nth i l d.
Proof.
  intros Hk. unfold list_set.
  assert (Hf : length (firstn k l) = k) by (rewrite length_firstn; lia).
  destruct (Nat.eqb_spec i k) as [->|Hne].
  - rewrite app_nth2 by lia. rewrite Hf, Nat.sub_diag. reflexivity.
  - destruct (Nat.lt_ge_cases i k) as [Hlt|Hge].
    + rewrite app_nth1 by lia.
      rewrite <- (firstn_skipn k l) at 2. now rewrite app_nth1 by lia.
    + rewrite app_nth2 by lia. rewrite Hf.
      destruct (i - k) as [|m] eqn:Hm; [lia|]. cbn [nth].
      rewrite nth_skipn. f_equal. lia.
Qed.

(** ** The shuffle returns a permutation *)

Lemma swap_length (i j : nat) (l : list nat) :
  i < length l -> j < length l -> length (swap i j l) = length l.
Proof.
  intros Hi Hj. unfold swap.
  rewrite list_set_length; rewrite list_set_length; auto.
Qed.

Lemma swap_Permutation (i j : nat) (l : list nat) :
  i < length l -> j < length l -> Permutation l (swap i j l).
Proof.
  intros Hi Hj.
  apply (proj2 (Permutation_nth l (swap i j l) O)). split.
  - now apply swap_length.
  - exists (fun x => if Nat.eqb x j then i else if Nat.eqb x i then j else x).
    split; [|split].
    + intros x Hx.
      destruct (Nat.eqb_spec x j); [lia|]. destruct (Nat.eqb_spec x i); lia.
    + intros x y Hx Hy.
      destruct (Nat.eqb_spec x j), (Nat.eqb_spec y j),
               (Nat.eqb_spec x i), (Nat.eqb_spec y i); lia.
    + intros x Hx. unfold swap.
      rewrite nth_list_set by (rewrite list_set_length; assumption).
      destruct (Nat.eqb_spec x j) as [->|Hxj]; [reflexivity|].
      rewrite nth_list_set by assumption.
      destruct (Nat.eqb_spec x i) as [->|Hxi]; reflexivity.
Qed.

Lemma shuffle_from_spec (i : nat) (l : list nat) (s : RandomState) :
  i < length l \/ i = 0 ->
  exists l', shuffle_from i l s = Ok (l', advance i s) /\ Permutation l l'.
Proof.
  revert l s. induction i as [|i IH]; intros l s Hi.
  - exists l. cbn. unfold ret. rewrite advance_0. split; [reflexivity|apply Permutation_refl].
  - assert (Hlen : S i < length l) by lia.
    cbn [shuffle_from]. unfold bind, next_bits. cbv beta iota.
    set (j := bits s (cursor s) mod S (S i)).
    assert (Hj : j < S (S i)) by (apply Nat.mod_upper_bound; lia).
    destruct (IH (swap (S i) j l) (advance 1 s)) as [l' [Hrun Hperm]].
    { left. rewrite swap_length; lia. }
    exists l'. rewrite Hrun, advance_advance. split; [reflexivity|].
    eapply Permutation_trans; [|exact Hperm].
    apply swap_Permutation; lia.
Qed.

Lemma np_random_permutation_spec (n : Z) (s : RandomState) :
  exists idx, np_random_permutation n s = Ok (idx, advance (Z.to_nat n - 1) s)
              /\ Permutation (seq 0 (Z.to_nat n)) idx.
Proof.
  unfold np_random_permutation. apply shuffle_from_spec.
  rewrite length_seq. lia.
Qed.

(** ** Sorting and integer draws *)

Lemma insert_sorted_Permutation (x : Z) (l : list Z) :
  Permutation (x :: l) (insert_sorted x l).
Proof.
  induction l as [|y t IH]; cbn [insert_sorted]; [apply Permutation_refl|].
  destruct (x <=? y)%Z; [apply Permutation_refl|].
  eapply Permutation_trans; [apply perm_swap|]. now apply perm_skip.
Qed.

Lemma np_sort_Permutation (l : list Z) : Permutation l (np_sort l).
Proof.
  induction l as [|x t IH]; cbn; [constructor|].
  eapply Permutation_trans; [apply perm_skip; exact IH|].
  apply insert_sorted_Permutation.
Qed.

Lemma np_sort_length (l : list Z) : length (np_sort l) = length l.
Proof. symmetry. apply Permutation_length, np_sort_Permutation. Qed.

Lemma np_sort_Forall (P : Z -> Prop) (l : list Z) : Forall P l -> Forall P (np_sort l).
Proof.
  intros H. eapply Permutation_Forall; [apply np_sort_Permutation|exact H].
Qed.

Lemma insert_sorted_sorted (x : Z) (l : list Z) :
  LocallySorted Z.le l -> LocallySorted Z.le (insert_sorted x l).
Proof.
  induction 1 as [|a|a b t Hs IH Hab]; cbn [insert_sorted] in *.
  - constructor.
  - destruct (Z.leb_spec x a); repeat constructor; lia.
  - destruct (Z.leb_spec x a).
    + repeat constructor; try assumption; lia.
    + destruct (Z.leb_spec x b).
      * repeat constructor; try assumption; lia.
      * constructor; [exact IH|exact Hab].
Qed.

Lemma np_sort_sorted (l : list Z) : LocallySorted Z.le (np_sort l).
Proof.
  induction l as [|x t IH]; cbn; [constructor|]. now apply insert_sorted_sorted.
Qed.

Lemma randint_draws_range (low high : Z) (n : nat) (s : RandomState) :
  (low < high)%Z ->
  Forall (fun c => (low <= c < high)%Z) (randint_draws low high n s).
Proof.
  intros Hlt. unfold randint_draws. apply Forall_forall. intros c Hc.
  apply in_map_iff in Hc. destruct Hc as [j [<- _]].
  pose proof (Z.mod_pos_bound (Z.of_nat (bits s (cursor s + j))) (high - low)). lia.
Qed.

Lemma np_random_randint_ok (low high size : Z) (s : RandomState) :
  (0 < size)%Z -> (low < high)%Z ->
  np_random_randint low high size s
  = Ok (randint_draws low high (Z.to_nat size) s, advance (Z.to_nat size * 1) s).
Proof.
  intros Hs Hr. unfold np_random_randint.
  destruct (Z.eqb_spec size 0); [lia|].
  destruct (Z.ltb_spec size 0); [lia|].
  destruct (Z.leb_spec high low); [lia|].
  rewrite (draw_list_steady
             (steady_bits (fun k => (low + Z.of_nat k mod (high - low))%Z)) (Z.to_nat size)).
  do 2 f_equal. unfold randint_draws. apply map_ext. intros j.
  cbn [bits cursor advance]. do 5 f_equal. lia.
Qed.

Lemma np_random_randint_empty_range (low high size : Z) (s : RandomState) :
  (size <> 0)%Z -> (high <= low)%Z ->
  np_random_randint low high size s = Raise ValueError.
Proof.
  intros Hs Hr. unfold np_random_randint.
  destruct (Z.eqb_spec size 0); [lia|].
  destruct (Z.ltb_spec size 0); [reflexivity|].
  destruct (Z.leb_spec high low); [reflexivity|lia].
Qed.

Lemma np_random_randint_negative (low high size : Z) (s : RandomState) :
  (size < 0)%Z -> np_random_randint low high size s = Raise ValueError.
Proof.
  intros Hs. unfold np_random_randint.
  destruct (Z.eqb_spec size 0); [lia|].
  destruct (Z.ltb_spec size 0); [reflexivity|lia].
Qed.

(** ** The candidate boundaries of [permutation] *)

Lemma set_interior_zeros (n : nat) (mid : list Z) :
  length mid = n ->
  py_set_slice 1 (-1) (repeat 0%Z (n + 2)) mid = Ok (0%Z :: mid ++ [0%Z]).
Proof.
  intros Hlen. unfold py_set_slice.
  rewrite py_bound_m1, (py_bound_nat _ 1), repeat_length.
  replace (Nat.min 1 (n + 2)) with 1 by lia.
  replace (n + 2 - 1 - 1) with n by lia.
  rewrite Hlen, Nat.eqb_refl. f_equal.
  replace (n + 2) with (S (n + 1)) by lia. cbn [repeat firstn skipn app Nat.add].
  do 2 f_equal. rewrite repeat_app, skipn_app, repeat_length, Nat.sub_diag.
  rewrite (skipn_all2 (n := n)) by (rewrite repeat_length; lia).
  reflexivity.
Qed.

Lemma set_last (mid : list Z) (a M : Z) :
  py_setitem (0%Z :: mid ++ [a]) (-1) M = Ok (0%Z :: mid ++ [M]).
Proof.
  unfold py_setitem. rewrite py_index_last by (cbn; lia).
  cbn [obind]. f_equal. unfold list_set.
  assert (Hlen : length (0%Z :: mid ++ [a]) = S (S (length mid)))
    by (cbn [length]; rewrite length_app; cbn [length]; lia).
  rewrite Hlen. replace (S (S (length mid)) - 1) with (S (length mid)) by lia.
  rewrite skipn_all2 by lia.
  cbn [firstn]. rewrite firstn_app, Nat.sub_diag, firstn_all. cbn [firstn].
  now rewrite app_nil_r.
Qed.

Lemma draw_segs_nonpositive (M nPerm minSegLength : Z) (s : RandomState) :
  (nPerm <= 0)%Z -> draw_segs M nPerm minSegLength s = Raise ValueError.
Proof.
  intros Hn. unfold draw_segs, bind, lift, np_zeros_int.
  destruct (Z.ltb_spec (nPerm + 1) 0); [reflexivity|].
  now rewrite np_random_randint_negative by lia.
Qed.

Lemma draw_segs_single (M minSegLength : Z) (s : RandomState) :
  draw_segs M 1 minSegLength s = Ok ([0; M]%Z, s).
Proof. reflexivity. Qed.

Lemma draw_segs_empty_range (M nPerm minSegLength : Z) (s : RandomState) :
  (2 <= nPerm)%Z -> (M - minSegLength <= minSegLength)%Z ->
  draw_segs M nPerm minSegLength s = Raise ValueError.
Proof.
  intros Hn Hr. unfold draw_segs, bind, lift, np_zeros_int.
  destruct (Z.ltb_spec (nPerm + 1) 0); [reflexivity|].
  now rewrite np_random_randint_empty_range by lia.
Qed.

Lemma draw_segs_ok (M nPerm minSegLength : Z) (s : RandomState) :
  (2 <= nPerm)%Z -> (minSegLength < M - minSegLength)%Z ->
  draw_segs M nPerm minSegLength s
  = Ok (0%Z :: np_sort (randint_draws minSegLength (M - minSegLength)
                                        (Z.to_nat (nPerm - 1)) s) ++ [M],
        advance (Z.to_nat (nPerm - 1) * 1) s).
Proof.
  intros Hn Hr. unfold draw_segs, bind, lift, np_zeros_int.
  destruct (Z.ltb_spec (nPerm + 1) 0); [lia|].
  rewrite np_random_randint_ok by lia.
  replace (Z.to_nat (nPerm + 1)) with (Z.to_nat (nPerm - 1) + 2) by lia.
  rewrite set_interior_zeros
    by (rewrite np_sort_length; unfold randint_draws; now rewrite length_map, length_seq).
  now rewrite set_last.
Qed.

(** The outcome of one pass, whatever the parameters. *)
Lemma draw_segs_cases (M nPerm minSegLength : Z) (s : RandomState) :
  draw_segs M nPerm minSegLength s = Raise ValueError \/
  exists mid s',
    draw_segs M nPerm minSegLength s = Ok (0%Z :: mid ++ [M], s') /\
    Z.of_nat (length mid) = (nPerm - 1)%Z.
Proof.
  destruct (Z.le_gt_cases nPerm 0) as [H0|H0].
  { left. now apply draw_segs_nonpositive. }
  destruct (Z.eq_dec nPerm 1) as [->|H1].
  { right. exists [], s. split; reflexivity. }
  destruct (Z.le_gt_cases (M - minSegLength) minSegLength) as [Hr|Hr].
  { left. apply draw_segs_empty_range; lia. }
  right. eexists. eexists. split.
  - apply draw_segs_ok; lia.
  - rewrite np_sort_length. unfold randint_draws. rewrite length_map, length_seq. lia.
Qed.

(** ** The acceptance test *)

Lemma map2_firstn {A B C} (f : A -> B -> C) (l : list A) (l' : list B) (n : nat) :
  length l <= n -> map2 f l (firstn n l') = map2 f l l'.
Proof.
  revert l' n. induction l as [|a l IH]; intros [|b l'] [|n] Hn; cbn in *; try lia; auto.
  f_equal. apply IH. lia.
Qed.

Lemma segs_differences (segs : list Z) :
  map2 Z.sub (py_slice_from 1 segs) (py_slice 0 (-1) segs) = gaps segs.
Proof.
  unfold py_slice_from, py_slice, gaps.
  rewrite py_bound_m1, (py_bound_nat _ 1), (py_bound_nat _ 0).
  cbn [Nat.min skipn]. rewrite Nat.sub_0_r.
  destruct segs as [|x t]; [reflexivity|].
  cbn [length Nat.min]. replace (Nat.min 1 (S (length t))) with 1 by lia.
  cbn [skipn tl]. apply map2_firstn. cbn. lia.
Qed.

Lemma gaps_cons (lo hi : Z) (t : list Z) :
  gaps (lo :: hi :: t) = (hi - lo)%Z :: gaps (hi :: t).
Proof. reflexivity. Qed.

Lemma gaps_length (segs : list Z) : length (gaps segs) = length segs - 1.
Proof.
  unfold gaps. rewrite map2_length. destruct segs; cbn; lia.
Qed.

(** The segment lengths telescope to the distance of the outer boundaries. *)
Lemma zsum_gaps (mid : list Z) (a b : Z) :
  zsum (gaps (a :: mid ++ [b])) = (b - a)%Z.
Proof.
  revert a. induction mid as [|x mid IH]; intros a.
  - cbn. lia.
  - cbn [app]. rewrite gaps_cons. cbn [zsum fold_right].
    fold (zsum (gaps (x :: mid ++ [b]))). rewrite IH. lia.
Qed.

Lemma zsum_lower (m : Z) (l : list Z) :
  Forall (fun g => (m < g)%Z) l -> (Z.of_nat (length l) * (m + 1) <= zsum l)%Z.
Proof.
  induction 1 as [|g l Hg _ IH]; cbn [length zsum fold_right]; [lia|].
  fold (zsum l). lia.
Qed.

Lemma fold_min_gt (m x : Z) (t : list Z) :
  (m <? fold_left Z.min t x)%Z = true <-> (m < x)%Z /\ Forall (fun g => (m < g)%Z) t.
Proof.
  revert x. induction t as [|y t IH]; intros x; cbn [fold_left].
  - rewrite Z.ltb_lt. split; [intros H; split; [exact H|constructor]|tauto].
  - rewrite IH. split.
    + intros [H1 H2]. split; [lia|]. constructor; [lia|exact H2].
    + intros [H1 H2]. inversion H2; subst. split; [lia|assumption].
Qed.

Lemma accepted_spec (mid : list Z) (M m : Z) :
  exists ok, accepted (0%Z :: mid ++ [M]) m = Ok ok /\
             (ok = true <-> Forall (fun g => (m < g)%Z) (gaps (0%Z :: mid ++ [M]))).
Proof.
  unfold accepted. rewrite segs_differences.
  destruct (gaps (0%Z :: mid ++ [M])) as [|g t] eqn:Hg.
  - exfalso. apply (f_equal (@length Z)) in Hg.
    rewrite gaps_length in Hg. cbn [length] in Hg. rewrite length_app in Hg. cbn in Hg. lia.
  - cbn [np_min obind]. eexists. split; [reflexivity|].
    rewrite fold_min_gt. split.
    + intros [H1 H2]. now constructor.
    + intros H. inversion H; subst. now split.
Qed.

(** An accepted candidate has [nPerm] segments, each longer than
    [minSegLength], that add up to [M]. *)
Lemma accepted_room (mid : list Z) (M m : Z) :
  accepted (0%Z :: mid ++ [M]) m = Ok true ->
  ((Z.of_nat (length mid) + 1) * (m + 1) <= M)%Z.
Proof.
  intros Hacc. destruct (accepted_spec mid M m) as [ok [Hok Hiff]].
  rewrite Hok in Hacc. injection Hacc as ->.
  pose proof (zsum_lower (proj1 Hiff eq_refl)) as Hsum.
  rewrite zsum_gaps, gaps_length in Hsum.
  cbn [length] in Hsum. rewrite length_app in Hsum. cbn [length] in Hsum.
  replace (S (length mid + 1) - 1) with (length mid + 1) in Hsum by lia.
  lia.
Qed.

(** ** The search loop *)

Lemma search_segs_step (fuel : nat) (M nPerm minSegLength : Z) (s : RandomState) :
  search_segs (S fuel) M nPerm minSegLength s
  = match draw_segs M nPerm minSegLength s with
    | Ok (segs, s1) =>
        match accepted segs minSegLength with
        | Ok true => Ok (segs, s1)
        | Ok false => search_segs fuel M nPerm minSegLength s1
        | Raise e => Raise e
        | Timeout => Timeout
        end
    | Raise e => Raise e
    | Timeout => Timeout
    end.
Proof.
  cbn [search_segs]. unfold bind, lift, ret.
  destruct (draw_segs M nPerm minSegLength s) as [[segs s1]| |]; try reflexivity.
  destruct (accepted segs minSegLength) as [[|]| |]; reflexivity.
Qed.

Lemma search_segs_result (fuel : nat) (M nPerm minSegLength : Z)
    (s s' : RandomState) (segs : list Z) :
  search_segs fuel M nPerm minSegLength s = Ok (segs, s') ->
  exists mid, segs = 0%Z :: mid ++ [M] /\
              Z.of_nat (length mid) = (nPerm - 1)%Z /\
              accepted segs minSegLength = Ok true.
Proof.
  revert s. induction fuel as [|fuel IH]; intros s; [discriminate|].
  rewrite search_segs_step.
  destruct (draw_segs_cases M nPerm minSegLength s) as [->|[mid [s1 [-> Hlen]]]];
    [discriminate|].
  destruct (accepted_spec mid M minSegLength) as [ok [Hok _]].
  rewrite Hok. destruct ok.
  - intros [= <- <-]. exists mid. auto.
  - apply IH.
Qed.

(** With [nPerm * minSegLength >= M] no candidate is accepted. *)
Lemma search_segs_infeasible (fuel : nat) (M nPerm minSegLength : Z) (s : RandomState) :
  (M <= nPerm * minSegLength)%Z ->
  search_segs fuel M nPerm minSegLength s = Timeout \/
  search_segs fuel M nPerm minSegLength s = Raise ValueError.
Proof.
  intros Hbad. revert s. induction fuel as [|fuel IH]; intros s;
    [left; reflexivity|].
  rewrite search_segs_step.
  destruct (draw_segs_cases M nPerm minSegLength s) as [->|[mid [s1 [-> Hlen]]]];
    [right; reflexivity|].
  destruct (accepted_spec mid M minSegLength) as [ok [Hok _]].
  rewrite Hok. destruct ok; [|apply IH].
  exfalso. apply accepted_room in Hok. nia.
Qed.

Lemma search_segs_diverges (fuel : nat) (M nPerm minSegLength : Z) (s : RandomState) :
  (M <= nPerm * minSegLength)%Z ->
  nPerm = 1%Z \/ (2 <= nPerm /\ minSegLength < M - minSegLength)%Z ->
  search_segs fuel M nPerm minSegLength s = Timeout.
Proof.
  intros Hbad Hdraw. revert s. induction fuel as [|fuel IH]; intros s;
    [reflexivity|].
  rewrite search_segs_step.
  assert (Hseg : exists mid s1,
             draw_segs M nPerm minSegLength s = Ok (0%Z :: mid ++ [M], s1) /\
             Z.of_nat (length mid) = (nPerm - 1)%Z).
  { destruct Hdraw as [->|[H2 Hr]].
    - exists [], s. split; reflexivity.
    - eexists. eexists. split; [apply draw_segs_ok; assumption|].
      rewrite np_sort_length. unfold randint_draws. rewrite length_map, length_seq. lia. }
  destruct Hseg as [mid [s1 [-> Hlen]]].
  destruct (accepted_spec mid M minSegLength) as [ok [Hok _]].
  rewrite Hok. destruct ok; [|apply IH].
  exfalso. apply accepted_room in Hok. nia.
Qed.

(** ** Permutation with too little room *)

Lemma window_shape (M N : nat) : shape (window M N) = (M, N).
Proof. unfold shape, shape0, window. cbn [rowsOf shape1]. now rewrite length_map, length_seq. Qed.

Lemma window_wf (M N : nat) : wf (window M N).
Proof.
  unfold wf, window. cbn [rowsOf shape1]. apply Forall_forall. intros r Hr.
  apply in_map_iff in Hr. destruct Hr as [i [<- _]]. now rewrite length_map, length_seq.
Qed.

Lemma permutation_run (fuel : nat) (X : ndarray) (nPerm minSegLength : Z)
    (rng : RandomState) :
  exists idx,
    Permutation (seq 0 (Z.to_nat nPerm)) idx /\
    permutation fuel X nPerm minSegLength rng
    = match search_segs fuel (Z.of_nat (shape0 X)) nPerm minSegLength
              (advance (Z.to_nat nPerm - 1) rng) with
      | Ok (segs, s1) =>
          match place_all (rowsOf X) segs idx (rowsOf (np_zeros (shape X)), O) with
          | Ok st => Ok (mkArray (shape1 X) (fst st), s1)
          | Raise e => Raise e
          | Timeout => Timeout
          end
      | Raise e => Raise e
      | Timeout => Timeout
      end.
Proof.
  destruct (np_random_permutation_spec nPerm rng) as [idx [Hrun Hperm]].
  exists idx. split; [exact Hperm|].
  unfold permutation, bind at 1. rewrite Hrun.
  unfold bind, lift, ret.
  destruct (search_segs fuel (Z.of_nat (shape0 X)) nPerm minSegLength
              (advance (Z.to_nat nPerm - 1) rng)) as [[segs s1]| |]; try reflexivity.
  destruct (place_all (rowsOf X) segs idx (rowsOf (np_zeros (shape X)), 0));
    reflexivity.
Qed.

(** C1, as the code has it.  With [nPerm * minSegLength >= M] the call never
    returns an array and raises no [InvalidParameters]: either numpy refuses
    the draw of the cut points with a [ValueError], or every candidate
    partition is rejected and the loop goes on for ever; the latter whenever
    at least one cut point is drawn, from a non-empty range. *)
Theorem permutation_infeasible (fuel : nat) (X : ndarray) (nPerm minSegLength : Z)
    (rng : RandomState) :
  (Z.of_nat (shape0 X) <= nPerm * minSegLength)%Z ->
  (result_of (permutation fuel X nPerm minSegLength rng) = Timeout \/
   result_of (permutation fuel X nPerm minSegLength rng) = Raise ValueError) /\
  ((2 <= nPerm /\ minSegLength < Z.of_nat (shape0 X) - minSegLength)%Z ->
   result_of (permutation fuel X nPerm minSegLength rng) = Timeout).
Proof.
  intros Hbad.
  destruct (permutation_run fuel X nPerm minSegLength rng) as [idx [_ ->]].
  split.
  - destruct (@search_segs_infeasible fuel _ _ _ (advance (Z.to_nat nPerm - 1) rng) Hbad)
      as [-> | ->]; [left|right]; reflexivity.
  - intros Hdraw.
    now rewrite (@search_segs_diverges fuel _ _ _ (advance (Z.to_nat nPerm - 1) rng)
                   Hbad (or_intror Hdraw)).
Qed.

Lemma permutation_infeasible_witness :
  (result_of (permutation 7 (window 20 3) 4 5 sample_rng) = Timeout \/
   result_of (permutation 7 (window 20 3) 4 5 sample_rng) = Raise ValueError) /\
  ((2 <= 4 /\ 5 < Z.of_nat (shape0 (window 20 3)) - 5)%Z ->
   result_of (permutation 7 (window 20 3) 4 5 sample_rng) = Timeout).
Proof.
  apply (@permutation_infeasible 7 (window 20 3) 4 5 sample_rng).
  vm_compute. discriminate.
Defined.

(** C1, as stated, fails: on a window of 20 rows with [nPerm = 4] and
    [minSegLength = 5] (so that [nPerm * minSegLength = M]) the call raises
    nothing; it exhausts every amount of fuel. *)
Lemma permutation_no_invalid_parameters :
  never_returns (fun fuel => result_of (permutation fuel (window 20 3) 4 5 sample_rng))
  /\ result_of (permutation 1000 (window 20 3) 4 5 sample_rng) <> Raise InvalidParameters.
Proof.
  assert (H : never_returns
                (fun fuel => result_of (permutation fuel (window 20 3) 4 5 sample_rng))).
  { intros fuel.
    destruct (permutation_run fuel (window 20 3) 4 5 sample_rng) as [idx [_ ->]].
    rewrite search_segs_diverges; [reflexivity| |right].
    - vm_compute. discriminate.
    - vm_compute. split; [discriminate|reflexivity]. }
  split; [exact H|]. rewrite (H 1000). discriminate.
Qed.

(** ** Permutation re-blocks the rows *)

Lemma slices_length {A} (X : list A) (segs : list Z) :
  length (slices X segs) = length segs - 1.
Proof.
  induction segs as [|lo [|hi t] IH]; cbn [slices length] in *; try lia.
Qed.

Lemma nth_slices {A} (X : list A) (segs : list Z) (k : nat) :
  k + 1 < length segs ->
  nth k (slices X segs) [] = py_slice (nth k segs 0%Z) (nth (k + 1) segs 0%Z) X.
Proof.
  revert k. induction segs as [|lo [|hi t] IH]; intros k Hk; cbn [length] in Hk; try lia.
  destruct k as [|k]; [reflexivity|].
  cbn [slices nth Nat.add]. apply IH. cbn [length]. lia.
Qed.

Lemma firstn_plus {A} (a b : nat) (l : list A) :
  firstn a l ++ firstn b (skipn a l) = firstn (a + b) l.
Proof.
  revert l. induction a as [|a IH]; intros l; [reflexivity|].
  destruct l as [|x l]; cbn [firstn skipn Nat.add app].
  - now rewrite firstn_nil.
  - f_equal. apply IH.
Qed.

Lemma last_default {A} (l : list A) (x d d' : A) : last (x :: l) d = last (x :: l) d'.
Proof.
  revert x. induction l as [|y l IH]; intros x; [reflexivity|].
  change (last (y :: l) d = last (y :: l) d'). apply IH.
Qed.

(** Boundaries that start at [lo >= 0], grow by more than [m >= 0] each
    time and end within [X] cut out the stretch of [X] between the first and
    the last of them, in pieces longer than [m]. *)
Lemma slices_spec {A} (X : list A) (m : Z) (rest : list Z) (lo : Z) :
  (0 <= m)%Z -> (0 <= lo)%Z ->
  Forall (fun g => (m < g)%Z) (gaps (lo :: rest)) ->
  (last (lo :: rest) lo <= Z.of_nat (length X))%Z ->
  (lo <= last (lo :: rest) lo)%Z /\
  concat (slices X (lo :: rest))
  = firstn (Z.to_nat (last (lo :: rest) lo - lo)) (skipn (Z.to_nat lo) X) /\
  Forall (fun sg => (m < Z.of_nat (length sg))%Z) (slices X (lo :: rest)).
Proof.
  intros Hm. revert lo. induction rest as [|hi rest IH]; intros lo Hlo Hg Hlast.
  - cbn. rewrite Z.sub_diag. cbn. repeat split; try lia. constructor.
  - rewrite gaps_cons in Hg. inversion Hg as [|g gs Hg1 Hg2]; subst.
    assert (Heq : last (lo :: hi :: rest) lo = last (hi :: rest) hi).
    { change (last (lo :: hi :: rest) lo) with (last (hi :: rest) lo).
      apply last_default. }
    rewrite Heq in *.
    destruct (IH hi ltac:(lia) Hg2 Hlast) as [Hle [Hcat Hall]].
    assert (Hsl : py_slice lo hi X
                  = firstn (Z.to_nat (hi - lo)) (skipn (Z.to_nat lo) X)).
    { rewrite <- (Z2Nat.id lo) at 1 by lia. rewrite <- (Z2Nat.id hi) at 1 by lia.
      rewrite py_slice_nat by lia. f_equal. lia. }
    split; [lia|]. split.
    + change (slices X (lo :: hi :: rest))
        with (py_slice lo hi X :: slices X (hi :: rest)).
      cbn [concat]. rewrite Hcat, Hsl.
      replace (skipn (Z.to_nat hi) X)
        with (skipn (Z.to_nat (hi - lo)) (skipn (Z.to_nat lo) X))
        by (rewrite skipn_skipn; f_equal; lia).
      rewrite firstn_plus. f_equal. lia.
    + change (slices X (lo :: hi :: rest))
        with (py_slice lo hi X :: slices X (hi :: rest)).
      constructor; [|exact Hall].
      rewrite Hsl, length_firstn, length_skipn. lia.
Qed.

Lemma place_segment_ok (X : list (list R)) (segs : list Z)
    (placed rest : list (list R)) (k : nat) :
  k + 1 < length segs ->
  length (nth k (slices X segs) []) <= length rest ->
  place_segment X segs (placed ++ rest, length placed) k
  = Ok ((placed ++ nth k (slices X segs) []) ++ skipn (length (nth k (slices X segs) [])) rest,
        length (placed ++ nth k (slices X segs) [])).
Proof.
  intros Hk Hroom. unfold place_segment.
  rewrite py_getitem_nat by lia. cbn [obind].
  replace (Z.of_nat k + 1)%Z with (Z.of_nat (k + 1)) by lia.
  rewrite py_getitem_nat by lia. cbn [obind].
  rewrite <- nth_slices by exact Hk.
  set (x := nth k (slices X segs) []) in *.
  rewrite py_set_slice_exact by (rewrite length_app; lia). cbn [obind].
  rewrite firstn_app, Nat.sub_diag, firstn_all. cbn [firstn]. rewrite app_nil_r.
  rewrite skipn_app, skipn_all2 by lia. cbn [app].
  replace (length placed + length x - length placed) with (length x) by lia.
  now rewrite length_app, <- app_assoc.
Qed.

Lemma place_all_ok (X : list (list R)) (segs : list Z) (idx : list nat) :
  forall placed rest,
  Forall (fun k => k + 1 < length segs) idx ->
  length (concat (map (fun k => nth k (slices X segs) []) idx)) <= length rest ->
  place_all X segs idx (placed ++ rest, length placed)
  = Ok (placed ++ concat (map (fun k => nth k (slices X segs) []) idx)
          ++ skipn (length (concat (map (fun k => nth k (slices X segs) []) idx))) rest,
        length placed + length (concat (map (fun k => nth k (slices X segs) []) idx))).
Proof.
  induction idx as [|k idx IH]; intros placed rest Hin Hroom.
  - cbn. now rewrite Nat.add_0_r.
  - inversion Hin as [|? ? Hk Hin']; subst.
    cbn [map concat] in *. rewrite length_app in Hroom.
    cbn [place_all]. rewrite place_segment_ok by (try assumption; lia).
    cbn [obind]. rewrite IH by (try assumption; rewrite length_skipn; lia).
    rewrite skipn_skipn, !length_app, <- !app_assoc.
    f_equal. f_equal; [|lia].
    f_equal. f_equal. f_equal. f_equal. apply Nat.add_comm.
Qed.

Lemma map_nth_seq {A} (l : list A) (d : A) :
  map (fun k => nth k l d) (seq 0 (length l)) = l.
Proof.
  apply (nth_ext _ _ d d).
  - now rewrite length_map, length_seq.
  - intros n Hn. rewrite length_map, length_seq in Hn. now rewrite nth_map_seq.
Qed.

(** C4.  Whenever [permutation] returns (with a non-negative
    [minSegLength]), the rows of the result are a rearrangement of the rows
    of [X]: [X] is cut into exactly [nPerm] consecutive segments, each with
    more than [minSegLength] rows, and the result is these segments
    concatenated in the order of a permutation [idx] of [0 .. nPerm-1]. *)
Theorem permutation_reblocks (fuel : nat) (X Y : ndarray) (nPerm minSegLength : Z)
    (rng : RandomState) :
  (0 <= minSegLength)%Z ->
  result_of (permutation fuel X nPerm minSegLength rng) = Ok Y ->
  Permutation (rowsOf Y) (rowsOf X) /\
  shape Y = shape X /\
  exists (segments : list (list (list R))) (idx : list nat),
    concat segments = rowsOf X /\
    Z.of_nat (length segments) = nPerm /\
    Forall (fun sg => (minSegLength < Z.of_nat (length sg))%Z) segments /\
    Permutation (seq 0 (length segments)) idx /\
    rowsOf Y = concat (map (fun k => nth k segments []) idx).
Proof.
  intros Hm Hrun.
  destruct (permutation_run fuel X nPerm minSegLength rng) as [idx [Hperm Heq]].
  rewrite Heq in Hrun. clear Heq.
  destruct (search_segs fuel (Z.of_nat (shape0 X)) nPerm minSegLength
              (advance (Z.to_nat nPerm - 1) rng)) as [[segs s1]| |] eqn:Hsearch;
    try discriminate.
  apply search_segs_result in Hsearch.
  destruct Hsearch as [mid [-> [Hlen Hacc]]].
  destruct (accepted_spec mid (Z.of_nat (shape0 X)) minSegLength) as [ok [Hok Hiff]].
  rewrite Hok in Hacc. injection Hacc as ->.
  pose proof (proj1 Hiff eq_refl) as Hgaps. clear Hiff Hok.
  set (segs := (0%Z :: mid ++ [Z.of_nat (shape0 X)])) in *.
  assert (Hlast : last segs 0%Z = Z.of_nat (shape0 X)).
  { unfold segs. rewrite app_comm_cons. apply last_last. }
  destruct (@slices_spec _ (rowsOf X) minSegLength (mid ++ [Z.of_nat (shape0 X)]) 0%Z
              Hm (Z.le_refl 0) Hgaps) as [_ [Hcat Hall]].
  { fold segs. rewrite Hlast. unfold shape0. lia. }
  fold segs in Hcat, Hall. rewrite Hlast in Hcat.
  rewrite Z.sub_0_r, Nat2Z.id in Hcat. cbn [Z.to_nat skipn] in Hcat.
  rewrite firstn_all2 in Hcat by (unfold shape0; lia).
  assert (Hsegs : length segs = length mid + 2).
  { unfold segs. cbn [length]. rewrite length_app. cbn [length]. lia. }
  assert (Hn : length (slices (rowsOf X) segs) = Z.to_nat nPerm).
  { rewrite slices_length, Hsegs. lia. }
  set (seg := fun k => nth k (slices (rowsOf X) segs) []) in *.
  assert (Hblocks : Permutation (rowsOf X) (concat (map seg idx))).
  { rewrite <- Hcat at 1.
    rewrite <- (map_nth_seq (slices (rowsOf X) segs) []) at 1.
    rewrite Hn. fold seg. rewrite <- !flat_map_concat_map.
    now apply Permutation_flat_map. }
  assert (Hidx : Forall (fun k => k + 1 < length segs) idx).
  { apply Forall_forall. intros k Hk.
    apply (Permutation_in _ (Permutation_sym Hperm)) in Hk.
    apply in_seq in Hk. lia. }
  assert (Hzeros : length (rowsOf (np_zeros (shape X))) = shape0 X).
  { unfold np_zeros, shape. cbn [rowsOf fst snd]. apply repeat_length. }
  assert (Htotal : length (concat (map seg idx)) = shape0 X).
  { rewrite <- (Permutation_length Hblocks). reflexivity. }
  assert (Hroom : length (concat (map seg idx)) <= length (rowsOf (np_zeros (shape X))))
    by lia.
  pose proof (@place_all_ok (rowsOf X) segs idx [] (rowsOf (np_zeros (shape X)))
                Hidx Hroom) as Hplace.
  fold seg in Hplace. cbn [app length Nat.add] in Hplace.
  rewrite skipn_all2 in Hplace by lia. rewrite app_nil_r in Hplace.
  rewrite Hplace in Hrun.
  cbn [result_of fst] in Hrun. injection Hrun as <-. cbn [rowsOf].
  split; [now apply Permutation_sym|]. split.
  - unfold shape, shape0. cbn [shape1 rowsOf]. f_equal. exact Htotal.
  - exists (slices (rowsOf X) segs), idx. repeat split.
    + exact Hcat.
    + rewrite Hn. lia.
    + exact Hall.
    + rewrite Hn. exact Hperm.
Qed.

Lemma permutation_reblocks_witness :
  Permutation (rowsOf (mkArray 1 (map (fun i => [INR i]) [6; 7; 0; 1; 2; 3; 4; 5])))
              (rowsOf (window 8 1)) /\
  shape (mkArray 1 (map (fun i => [INR i]) [6; 7; 0; 1; 2; 3; 4; 5])) = shape (window 8 1) /\
  exists (segments : list (list (list R))) (idx : list nat),
    concat segments = rowsOf (window 8 1) /\
    Z.of_nat (length segments) = 3%Z /\
    Forall (fun sg => (1 < Z.of_nat (length sg))%Z) segments /\
    Permutation (seq 0 (length segments)) idx /\
    rowsOf (mkArray 1 (map (fun i => [INR i]) [6; 7; 0; 1; 2; 3; 4; 5]))
    = concat (map (fun k => nth k segments []) idx).
Proof.
  apply (@permutation_reblocks 5 (window 8 1)
           (mkArray 1 (map (fun i => [INR i]) [6; 7; 0; 1; 2; 3; 4; 5])) 3 1 sample_rng).
  - lia.
  - vm_compute. reflexivity.
Defined.

(** C4, as stated, fails for a negative [minSegLength]: the cut points may
    then be negative themselves.  On eight rows with [nPerm = 4] and
    [minSegLength = -2] the cuts [-1, 6, 7] are accepted (every gap exceeds
    [-2]); the segments are [X[0:-1]] (rows 0 to 6), [X[-1:6]] (empty),
    [X[6:7]] and [X[7:8]], of nine rows in all, and the last of them is
    written to the empty slice [X_new[8:9]].  The result holds row 6 twice
    and row 7 not at all. *)
Lemma permutation_negative_min_length :
  result_of (permutation 1 (window 8 3) 4 (-2) (tape_rng [3; 2; 1; 1; 8; 9]))
  = Ok (mkArray 3 (map (fun i => map (fun j => INR (i * 3 + j)) (seq 0 3))
                       [0; 1; 2; 3; 4; 5; 6; 6])) /\
  ~ Permutation
      (rowsOf (mkArray 3 (map (fun i => map (fun j => INR (i * 3 + j)) (seq 0 3))
                              [0; 1; 2; 3; 4; 5; 6; 6])))
      (rowsOf (window 8 3)).
Proof.
  split; [vm_compute; reflexivity|].
  intros HP.
  assert (Hin : In (map (fun j => INR (7 * 3 + j)) (seq 0 3))
                   (map (fun i => map (fun j => INR (i * 3 + j)) (seq 0 3))
                        [0; 1; 2; 3; 4; 5; 6; 6])).
  { apply (Permutation_in _ (Permutation_sym HP)).
    unfold window. cbn [rowsOf].
    apply (in_map (fun i => map (fun j => INR (i * 3 + j)) (seq 0 3)) (seq 0 8) 7).
    apply in_seq. lia. }
  apply in_map_iff in Hin. destruct Hin as [i [Heq Hi]].
  assert (H0 : INR (i * 3 + 0) = INR (7 * 3 + 0))
    by exact (f_equal (fun l => nth 0 l 0%R) Heq).
  apply INR_eq in H0. cbn [In] in Hi. lia.
Qed.

(** ** Random sampling: the sample positions *)

Lemma nth_error_list_set {A} (l : list A) (k i : nat) (a : A) :
  k < length l ->
  nth_error (list_set l k a) i = if Nat.eqb i k then Some a else nth_error l i.
Proof.
  intros Hk. unfold list_set.
  assert (Hf : length (firstn k l) = k) by (rewrite length_firstn; lia).
  destruct (Nat.eqb_spec i k) as [->|Hne].
  - rewrite nth_error_app2 by lia. now rewrite Hf, Nat.sub_diag.
  - destruct (Nat.lt_ge_cases i k) as [Hlt|Hge].
    + rewrite nth_error_app1 by lia. rewrite nth_error_firstn.
      destruct (Nat.ltb_spec i k); [reflexivity|lia].
    + rewrite nth_error_app2 by lia. rewrite Hf.
      destruct (i - k) as [|m] eqn:Hm; [lia|]. cbn [nth_error].
      rewrite nth_error_skipn. f_equal. lia.
Qed.

Lemma np_random_randint_total (low high size : Z) (s : RandomState) :
  (0 <= size)%Z -> (low < high)%Z ->
  exists draws s',
    np_random_randint low high size s = Ok (draws, s') /\
    length draws = Z.to_nat size /\
    Forall (fun x => (low <= x < high)%Z) draws.
Proof.
  intros Hs Hr. destruct (Z.eq_dec size 0) as [->|Hne].
  - exists [], s. repeat split. constructor.
  - eexists. eexists. split; [apply np_random_randint_ok; lia|]. split.
    + unfold randint_draws. now rewrite length_map, length_seq.
    + now apply randint_draws_range.
Qed.

Lemma sample_column_ok (M nSample : Z) (c : nat) (tt : int_cols) (s : RandomState) :
  (2 <= nSample)%Z -> (3 <= M)%Z ->
  nth_error tt c = Some (repeat 0%Z (Z.to_nat nSample)) ->
  exists t s',
    sample_column M nSample c tt s = Ok (list_set tt c t, s') /\
    sample_positions M (Z.to_nat nSample) 0 t.
Proof.
  intros Hn HM Hc. unfold sample_column, bind.
  destruct (@np_random_randint_total 1 (M - 1) (nSample - 2) s) as [draws [s' [-> [Hlen Hin]]]];
    try lia.
  unfold lift, set_interior. rewrite Hc.
  replace (Z.to_nat nSample) with (length (np_sort draws) + 2)
    by (rewrite np_sort_length; lia).
  rewrite set_interior_zeros by reflexivity. cbn [obind].
  eexists. eexists. split; [reflexivity|].
  exists (np_sort draws). repeat split. now apply np_sort_Forall.
Qed.

Lemma set_last_row_ok (a : Z) (tt : int_cols) :
  Forall (fun col => 0 < length col) tt ->
  set_last_row a tt = Ok (map (fun col => list_set col (length col - 1) a) tt).
Proof.
  induction 1 as [|col tt Hcol _ IH]; [reflexivity|].
  cbn [set_last_row map]. unfold py_setitem.
  rewrite py_index_last by exact Hcol. cbn [obind]. now rewrite IH.
Qed.

Lemma set_last_sample (M : Z) (n : nat) (a b : Z) (t : list Z) :
  sample_positions M n a t ->
  sample_positions M n b (list_set t (length t - 1) b).
Proof.
  intros [d [-> [Hlen Hin]]]. exists d. repeat split; try assumption.
  pose proof (set_last d a b) as H. unfold py_setitem in H.
  rewrite py_index_last in H by (cbn; lia). cbn [obind] in H. now injection H.
Qed.

Lemma sample_positions_length (M : Z) (n : nat) (a : Z) (t : list Z) :
  sample_positions M n a t -> length t = n.
Proof.
  intros [d [-> [Hlen _]]]. cbn [length]. rewrite length_app. cbn [length]. lia.
Qed.

(** The columns 0, 1 and 2 of the array [rand_sample_timesteps] returns. *)
Lemma rand_sample_timesteps_ok (X : ndarray) (nSample : Z) (s : RandomState) :
  (2 <= nSample)%Z -> 3 <= shape0 X -> 3 <= shape1 X ->
  exists tt s',
    rand_sample_timesteps X nSample s = Ok (tt, s') /\
    forall c, c < 3 ->
      exists t, nth_error tt c = Some t /\
                sample_positions (Z.of_nat (shape0 X)) (Z.to_nat nSample)
                                 (Z.of_nat (shape0 X) - 1) t.
Proof.
  intros Hn HM HN. unfold rand_sample_timesteps.
  set (M := Z.of_nat (shape0 X)). set (n := Z.to_nat nSample).
  set (z := repeat 0%Z n).
  assert (HM' : (3 <= M)%Z) by (unfold M; lia).
  assert (HN0 : 0 < shape1 X) by lia.
  assert (Hz : np_zeros_int nSample = Ok z).
  { unfold np_zeros_int. destruct (Z.ltb_spec nSample 0); [lia|reflexivity]. }
  unfold bind at 1. rewrite Hz. cbn [obind lift].
  set (tt0 := repeat z (shape1 X)).
  assert (H0 : forall c, c < shape1 X -> nth_error tt0 c = Some z).
  { intros c Hc. unfold tt0. rewrite nth_error_repeat by exact Hc. reflexivity. }
  assert (Hl0 : length tt0 = shape1 X) by apply repeat_length.
  destruct (@sample_column_ok M nSample 0 tt0 s Hn HM' (H0 0 HN0))
    as [t0 [s0 [E0 P0]]].
  unfold bind at 1. rewrite E0.
  set (tt1 := list_set tt0 0 t0).
  assert (Hl1 : length tt1 = shape1 X) by (unfold tt1; rewrite list_set_length; lia).
  assert (H1 : nth_error tt1 1 = Some z)
    by (unfold tt1; rewrite nth_error_list_set by lia; apply H0; lia).
  destruct (@sample_column_ok M nSample 1 tt1 s0 Hn HM' H1) as [t1 [s1 [E1 P1]]].
  unfold bind at 1. rewrite E1.
  set (tt2 := list_set tt1 1 t1).
  assert (Hl2 : length tt2 = shape1 X) by (unfold tt2; rewrite list_set_length; lia).
  assert (H2 : nth_error tt2 2 = Some z).
  { unfold tt2. rewrite nth_error_list_set by lia. cbn [Nat.eqb].
    unfold tt1. rewrite nth_error_list_set by lia. apply H0. lia. }
  destruct (@sample_column_ok M nSample 2 tt2 s1 Hn HM' H2) as [t2 [s2 [E2 P2]]].
  unfold bind at 1. rewrite E2.
  set (tt3 := list_set tt2 2 t2).
  assert (Hcols : forall c col, nth_error tt3 c = Some col -> length col = n).
  { intros c col. unfold tt3. rewrite nth_error_list_set by lia.
    destruct (Nat.eqb_spec c 2); [intros [= <-]; exact (sample_positions_length P2)|].
    unfold tt2. rewrite nth_error_list_set by lia.
    destruct (Nat.eqb_spec c 1); [intros [= <-]; exact (sample_positions_length P1)|].
    unfold tt1. rewrite nth_error_list_set by lia.
    destruct (Nat.eqb_spec c 0); [intros [= <-]; exact (sample_positions_length P0)|].
    intros Hc. assert (Hlt : c < length tt0) by (apply nth_error_Some; congruence).
    rewrite H0 in Hc by lia. injection Hc as <-. apply repeat_length. }
  assert (Hpos : Forall (fun col => 0 < length col) tt3).
  { apply Forall_forall. intros col Hin. apply In_nth_error in Hin.
    destruct Hin as [c Hc]. rewrite (Hcols c col Hc). lia. }
  unfold lift. rewrite (set_last_row_ok (M - 1) Hpos).
  eexists. eexists. split; [reflexivity|].
  intros c Hc. rewrite nth_error_map.
  unfold tt3. rewrite nth_error_list_set by lia.
  unfold tt2. rewrite nth_error_list_set by lia.
  unfold tt1. rewrite nth_error_list_set by lia.
  destruct c as [|[|[|c]]]; try lia; cbn [Nat.eqb option_map];
    eexists; (split; [reflexivity|]); eapply set_last_sample; eassumption.
Qed.

(** ** Random sampling: interpolation back onto the grid *)

Lemma np_take_ok (col : list R) (t : list Z) :
  Forall (fun i => (0 <= i < Z.of_nat (length col))%Z) t ->
  np_take col t = Ok (map (fun i => nth (Z.to_nat i) col 0%R) t).
Proof.
  induction 1 as [|i t Hi _ IH]; [reflexivity|].
  cbn [np_take map]. rewrite <- (Z2Nat.id i) at 1 by lia.
  rewrite py_getitem_nat by lia. cbn [obind]. now rewrite IH.
Qed.

Lemma sample_positions_range (M : Z) (n : nat) (t : list Z) :
  (1 <= M)%Z -> sample_positions M n (M - 1) t ->
  Forall (fun i => (0 <= i < M)%Z) t.
Proof.
  intros HM [d [-> [_ Hd]]]. constructor; [lia|].
  apply Forall_app. split.
  - eapply Forall_impl; [|exact Hd]. cbn. intros; lia.
  - repeat constructor; lia.
Qed.

Lemma resampled_length (X : ndarray) (c : nat) (t : list Z) :
  length (resampled X c t) = shape0 X.
Proof. unfold resampled, np_arange. now rewrite !length_map, length_seq. Qed.

Lemma resample_column_ok (X X_new : ndarray) (tt : int_cols) (c n : nat) (t : list Z) :
  nth_error tt c = Some t ->
  c < shape1 X -> 1 <= shape0 X -> shape X_new = shape X ->
  sample_positions (Z.of_nat (shape0 X)) n (Z.of_nat (shape0 X) - 1) t ->
  resample_column X tt c X_new
  = Ok (mkArray (shape1 X)
          (map2 (fun r a => list_set r c a) (rowsOf X_new) (resampled X c t))).
Proof.
  intros Ht Hc HM Hsh Hpos. unfold resample_column. rewrite Ht.
  unfold shape in Hsh. injection Hsh as Hsh0 Hsh1.
  unfold np_col. destruct (Nat.ltb_spec c (shape1 X)) as [_|]; [|lia]. cbn [obind].
  rewrite np_take_ok.
  2:{ unfold column. rewrite length_map. fold (shape0 X).
      apply sample_positions_range with (n := n); [lia|exact Hpos]. }
  cbn [obind]. unfold np_interp. rewrite !length_map.
  destruct Hpos as [d [-> _]]. cbn [length Nat.eqb negb]. rewrite Nat.eqb_refl.
  cbn [negb obind]. unfold np_set_col. rewrite Hsh1, Hsh0.
  destruct (Nat.ltb_spec c (shape1 X)) as [_|]; [|lia]. cbn [negb].
  fold (resampled X c (0%Z :: d ++ [(Z.of_nat (shape0 X) - 1)%Z])).
  now rewrite resampled_length, Nat.eqb_refl.
Qed.

Lemma set_col_shape (X : ndarray) (rows : list (list R)) (v : list R) (c : nat) :
  length rows = shape0 X -> length v = shape0 X ->
  shape (mkArray (shape1 X) (map2 (fun r a => list_set r c a) rows v)) = shape X.
Proof.
  intros Hr Hv. unfold shape at 1, shape0 at 1. cbn [rowsOf shape1].
  now rewrite map2_length, Hr, Hv, Nat.min_id.
Qed.

(** The array [rand_sampling] returns on at least three rows and columns
    for [nSample >= 2]. *)
Lemma rand_sampling_run (X : ndarray) (nSample : Z) (rng : RandomState) :
  (2 <= nSample)%Z -> 3 <= shape0 X -> 3 <= shape1 X ->
  exists t0 t1 t2 s',
    let P := sample_positions (Z.of_nat (shape0 X)) (Z.to_nat nSample)
                              (Z.of_nat (shape0 X) - 1) in
    P t0 /\ P t1 /\ P t2 /\
    rand_sampling X nSample rng
    = Ok (mkArray (shape1 X)
            (map2 (fun r a => list_set r 2 a)
               (map2 (fun r a => list_set r 1 a)
                  (map2 (fun r a => list_set r 0 a)
                     (rowsOf (np_zeros (shape X))) (resampled X 0 t0))
                  (resampled X 1 t1))
               (resampled X 2 t2)),
          s').
Proof.
  intros Hn HM HN.
  destruct (rand_sample_timesteps_ok X rng Hn HM HN) as [tt [s' [Hrun Hcols]]].
  destruct (Hcols 0 ltac:(lia)) as [t0 [H0 P0]].
  destruct (Hcols 1 ltac:(lia)) as [t1 [H1 P1]].
  destruct (Hcols 2 ltac:(lia)) as [t2 [H2 P2]].
  exists t0, t1, t2, s'. cbv zeta. repeat split; try assumption.
  unfold rand_sampling, bind. rewrite Hrun. unfold lift.
  assert (Hz : shape (np_zeros (shape X)) = shape X).
  { unfold np_zeros, shape, shape0. cbn [rowsOf shape1 fst snd]. now rewrite repeat_length. }
  rewrite (@resample_column_ok X _ tt 0 (Z.to_nat nSample) t0 H0 ltac:(lia) ltac:(lia) Hz P0). cbn [obind].
  assert (Hlen0 : length (rowsOf (np_zeros (shape X))) = shape0 X)
    by (unfold np_zeros, shape; cbn [rowsOf fst snd]; apply repeat_length).
  rewrite (@resample_column_ok X _ tt 1 (Z.to_nat nSample) t1 H1 ltac:(lia) ltac:(lia));
    [|apply set_col_shape; [exact Hlen0|apply resampled_length] | exact P1].
  cbn [obind rowsOf].
  rewrite (@resample_column_ok X _ tt 2 (Z.to_nat nSample) t2 H2 ltac:(lia) ltac:(lia));
    [reflexivity| | exact P2].
  apply set_col_shape; [|apply resampled_length].
  now rewrite map2_length, resampled_length, Hlen0, Nat.min_id.
Qed.

(** ** Interpolation at the two ends *)

Lemma scan_le_all (key : R) (l : list R) :
  Forall (fun a => (a <= key)%R) l -> scan_le key l = length l.
Proof.
  induction 1 as [|a l Ha _ IH]; [reflexivity|].
  cbn [scan_le length]. destruct (Rlt_dec key a); [lra|]. now rewrite IH.
Qed.

Lemma interp1_at_first (x0 x1 : R) (xr fp : list R) :
  (x0 < x1)%R -> (x0 <= nth (length (x1 :: xr)) (x0 :: x1 :: xr) 0)%R ->
  interp1 (x0 :: x1 :: xr) fp x0 = nth 0 fp 0%R.
Proof.
  intros H01 Hlast. unfold interp1.
  cbn [length Nat.eqb Nat.sub].
  destruct (Rlt_dec (nth (S (length xr)) (x0 :: x1 :: xr) 0%R) x0) as [H|_].
  { cbn [length] in Hlast. lra. }
  cbn [nth]. destruct (Rlt_dec x0 x0) as [H|_]; [lra|].
  unfold interp_search. cbn [tl scan_le].
  destruct (Rlt_dec x0 x1) as [_|H]; [|lra].
  cbn [Nat.eqb]. destruct (Req_dec_T x0 x0) as [_|H]; [reflexivity|congruence].
Qed.

Lemma interp1_at_last (xp fp : list R) :
  2 <= length xp ->
  Forall (fun a => (a <= nth (length xp - 1) xp 0)%R) xp ->
  interp1 xp fp (nth (length xp - 1) xp 0%R) = nth (length xp - 1) fp 0%R.
Proof.
  intros Hlen Hall. unfold interp1.
  destruct (Nat.eqb_spec (length xp) 1) as [H|_]; [lia|].
  set (x := nth (length xp - 1) xp 0%R) in *.
  destruct (Rlt_dec x x) as [H|_]; [lra|].
  destruct xp as [|x0 xr]; [cbn in Hlen; lia|].
  inversion Hall as [|? ? H0 Hr]; subst.
  cbn [nth]. destruct (Rlt_dec x x0) as [H|_]; [lra|].
  unfold interp_search. cbn [tl]. rewrite scan_le_all by exact Hr.
  cbn [length Nat.sub]. rewrite Nat.sub_0_r. now rewrite Nat.eqb_refl.
Qed.

Lemma nth_column (X : ndarray) (c i : nat) :
  i < shape0 X -> nth i (column c (rowsOf X)) 0%R = entry X i c.
Proof.
  intros Hi. unfold column, entry. now rewrite (nth_map_lt _ _ []) by exact Hi.
Qed.

Lemma nth_resampled (X : ndarray) (c i : nat) (t : list Z) :
  i < shape0 X ->
  nth i (resampled X c t) 0%R
  = interp1 (map IZR t)
            (map (fun k => nth (Z.to_nat k) (column c (rowsOf X)) 0%R) t) (INR i).
Proof.
  intros Hi. unfold resampled, np_arange. rewrite map_map.
  now rewrite nth_map_seq by exact Hi.
Qed.

(** The interpolated column takes the values of [X] at both ends. *)
Lemma resampled_first (X : ndarray) (c n : nat) (t : list Z) :
  3 <= shape0 X ->
  sample_positions (Z.of_nat (shape0 X)) n (Z.of_nat (shape0 X) - 1) t ->
  nth 0 (resampled X c t) 0%R = entry X 0 c.
Proof.
  intros HM [d [-> [_ Hd]]]. rewrite nth_resampled by lia.
  cbn [map INR]. change 0%R with (IZR 0).
  assert (Hall : Forall (fun x => (1 <= x)%Z) (d ++ [(Z.of_nat (shape0 X) - 1)%Z])).
  { apply Forall_app. split.
    - eapply Forall_impl; [|exact Hd]. cbn. intros; lia.
    - repeat constructor. lia. }
  destruct (d ++ [(Z.of_nat (shape0 X) - 1)%Z]) as [|x1 xr] eqn:Hxs.
  { destruct d; discriminate. }
  cbn [map]. rewrite interp1_at_first.
  - cbn [nth Z.to_nat]. apply nth_column. lia.
  - inversion Hall; subst. apply IZR_lt. lia.
  - change (IZR 0 <= nth (length (map IZR xr)) (map IZR (x1 :: xr)) 0)%R.
    assert (Hin : In (nth (length (map IZR xr)) (map IZR (x1 :: xr)) 0%R)
                     (map IZR (x1 :: xr))).
    { apply nth_In. cbn [length map]. lia. }
    apply in_map_iff in Hin. destruct Hin as [y [Hy Hyin]].
    rewrite <- Hy. apply IZR_le.
    rewrite Forall_forall in Hall. specialize (Hall y Hyin). lia.
Qed.

Lemma resampled_last (X : ndarray) (c n : nat) (t : list Z) :
  3 <= shape0 X ->
  sample_positions (Z.of_nat (shape0 X)) n (Z.of_nat (shape0 X) - 1) t ->
  nth (shape0 X - 1) (resampled X c t) 0%R = entry X (shape0 X - 1) c.
Proof.
  intros HM [d [-> [_ Hd]]]. rewrite nth_resampled by lia.
  set (t := (0%Z :: d ++ [(Z.of_nat (shape0 X) - 1)%Z])).
  assert (Hlen : length t = S (S (length d)))
    by (unfold t; cbn [length]; rewrite length_app; cbn [length]; lia).
  assert (Hlast : forall (f : Z -> R), nth (length (map f t) - 1) (map f t) 0%R
                                        = f (Z.of_nat (shape0 X) - 1)%Z).
  { intros f. rewrite length_map, Hlen. unfold t. cbn [map].
    rewrite map_app. cbn [map Nat.sub nth].
    rewrite app_nth2 by (rewrite length_map; lia).
    now rewrite length_map, Nat.sub_diag. }
  assert (Hq : INR (shape0 X - 1) = nth (length (map IZR t) - 1) (map IZR t) 0%R).
  { rewrite Hlast, INR_IZR_INZ. f_equal. lia. }
  rewrite Hq, interp1_at_last.
  - rewrite length_map.
    rewrite <- (length_map (fun k => nth (Z.to_nat k) (column c (rowsOf X)) 0%R) t).
    rewrite Hlast. replace (Z.to_nat (Z.of_nat (shape0 X) - 1)) with (shape0 X - 1) by lia.
    apply nth_column. lia.
  - rewrite length_map. lia.
  - rewrite Hlast. apply Forall_forall. intros a Ha.
    apply in_map_iff in Ha. destruct Ha as [y [<- Hy]]. apply IZR_le.
    unfold t in Hy. destruct Hy as [<-|Hy]; [lia|].
    apply in_app_or in Hy. destruct Hy as [Hy|[<-|[]]]; [|lia].
    rewrite Forall_forall in Hd. specialize (Hd y Hy). lia.
Qed.

(** C10.  On an [M x 3] array with [M >= 3] and [nSample >= 2],
    [rand_sampling] keeps the boundary samples: the first row of the result
    is the first row of [X], and the last row is the last row of [X]. *)
Theorem rand_sampling_keeps_boundary (X : ndarray) (nSample : Z) (rng : RandomState) :
  wf X -> shape1 X = 3 -> 3 <= shape0 X -> (2 <= nSample)%Z ->
  exists Y : ndarray,
    result_of (rand_sampling X nSample rng) = Ok Y /\
    nth 0 (rowsOf Y) [] = nth 0 (rowsOf X) [] /\
    nth (shape0 X - 1) (rowsOf Y) [] = nth (shape0 X - 1) (rowsOf X) [].
Proof.
  intros Hwf HN HM Hn.
  destruct (@rand_sampling_run X nSample rng Hn HM ltac:(lia))
    as [t0 [t1 [t2 [s' [P0 [P1 [P2 Hrun]]]]]]].
  rewrite Hrun. eexists. split; [reflexivity|]. cbn [rowsOf].
  assert (Hrow : forall i, i < shape0 X ->
            nth 0 (resampled X 0 t0) 0%R = entry X 0 0 ->
            nth i (resampled X 0 t0) 0%R = entry X i 0 ->
            nth i (resampled X 1 t1) 0%R = entry X i 1 ->
            nth i (resampled X 2 t2) 0%R = entry X i 2 ->
            nth i (map2 (fun r a => list_set r 2 a)
                     (map2 (fun r a => list_set r 1 a)
                        (map2 (fun r a => list_set r 0 a)
                           (rowsOf (np_zeros (shape X))) (resampled X 0 t0))
                        (resampled X 1 t1))
                     (resampled X 2 t2)) []
            = nth i (rowsOf X) []).
  { intros i Hi _ E0 E1 E2.
    assert (Hz : length (rowsOf (np_zeros (shape X))) = shape0 X)
      by (unfold np_zeros, shape; cbn [rowsOf fst snd]; apply repeat_length).
    rewrite (nth_map2 _ _ _ [] 0%R []);
      [|rewrite !map2_length, !resampled_length, Hz; lia|rewrite resampled_length; lia].
    rewrite (nth_map2 _ _ _ [] 0%R []);
      [|rewrite !map2_length, !resampled_length, Hz; lia|rewrite resampled_length; lia].
    rewrite (nth_map2 _ _ _ [] 0%R []);
      [|rewrite Hz; lia|rewrite resampled_length; lia].
    rewrite E0, E1, E2.
    unfold np_zeros, shape. cbn [rowsOf fst snd]. rewrite nth_repeat_lt by exact Hi.
    rewrite HN. cbn.
    pose proof (wf_nth_length Hwf Hi) as Hlen. rewrite HN in Hlen.
    unfold entry.
    destruct (nth i (rowsOf X) []) as [|p [|q [|w [|? ?]]]]; try discriminate.
    reflexivity. }
  split.
  - apply Hrow; try lia; try reflexivity; eapply resampled_first; eassumption.
  - apply Hrow; try lia; try reflexivity;
      [eapply resampled_first|eapply resampled_last
       |eapply resampled_last|eapply resampled_last]; eassumption.
Qed.

Lemma rand_sampling_keeps_boundary_witness :
  exists Y : ndarray,
    result_of (rand_sampling (window 5 3) 6 sample_rng) = Ok Y /\
    nth 0 (rowsOf Y) [] = nth 0 (rowsOf (window 5 3)) [] /\
    nth (shape0 (window 5 3) - 1) (rowsOf Y) []
    = nth (shape0 (window 5 3) - 1) (rowsOf (window 5 3)) [].
Proof.
  apply (@rand_sampling_keeps_boundary (window 5 3) 6 sample_rng).
  - apply window_wf.
  - reflexivity.
  - vm_compute. lia.
  - lia.
Defined.

(** ** Which exceptions can be raised

    Whatever random sampling and the curve generator raise is one of numpy's
    or Python's own errors. *)

Create HintDb benign.

Lemma benign_Ok {A} (a : A) : benign (Ok a).
Proof. exact I. Qed.

Lemma benign_ValueError {A} : benign (@Raise A ValueError).
Proof. left. reflexivity. Qed.

Lemma benign_IndexError {A} : benign (@Raise A IndexError).
Proof. right. left. reflexivity. Qed.

Lemma benign_ZeroDivisionError {A} : benign (@Raise A ZeroDivisionError).
Proof. right. right. reflexivity. Qed.

Lemma benign_obind {A B} (o : outcome A) (k : A -> outcome B) :
  benign o -> (forall a, benign (k a)) -> benign (obind o k).
Proof. intros Ho Hk. destruct o; cbn; auto. Qed.

Lemma benign_bind {A B} (c : Rand A) (k : A -> Rand B) (s : RandomState) :
  benign (c s) -> (forall a s', benign (k a s')) -> benign (bind c k s).
Proof.
  intros Hc Hk. unfold bind. destruct (c s) as [[a s']| |]; cbn in *; auto.
Qed.

Lemma benign_lift {A} (o : outcome A) (s : RandomState) : benign o -> benign (lift o s).
Proof. intros Ho. destruct o; cbn in *; auto. Qed.

Lemma benign_ret {A} (a : A) (s : RandomState) : benign (ret a s).
Proof. exact I. Qed.

Lemma benign_result_of {A} (o : outcome (A * RandomState)) :
  benign o -> benign (result_of o).
Proof. destruct o as [[a s]| |]; cbn; auto. Qed.

#[local] Hint Resolve benign_Ok benign_ValueError benign_IndexError
  benign_ZeroDivisionError benign_ret : benign.

Lemma benign_not_invalid_shape {A} (o : outcome A) :
  benign o -> o <> Raise InvalidShape.
Proof.
  intros Hb ->. cbn in Hb. destruct Hb as [H|[H|H]]; discriminate H.
Qed.

Lemma benign_draw_list_steady {A} (d : Rand A) (k : nat) (v : RandomState -> A)
    (n : nat) (s : RandomState) :
  steady d k v -> benign (draw_list n d s).
Proof. intros Hd. now rewrite (draw_list_steady Hd n). Qed.

Lemma benign_np_random_normal (loc scale : R) (sh : nat * nat) (s : RandomState) :
  benign (np_random_normal loc scale sh s).
Proof.
  destruct (Rlt_dec scale 0) as [H|H].
  - rewrite np_random_normal_neg by exact H. auto with benign.
  - rewrite np_random_normal_ok by lra. exact I.
Qed.

Lemma benign_np_random_randint (low high size : Z) (s : RandomState) :
  benign (np_random_randint low high size s).
Proof.
  unfold np_random_randint.
  destruct (size =? 0)%Z; [exact I|].
  destruct (size <? 0)%Z; [apply benign_ValueError|].
  destruct (high <=? low)%Z; [apply benign_ValueError|].
  eapply benign_draw_list_steady. apply steady_bits.
Qed.

Lemma benign_py_index (len : nat) (i : Z) : benign (py_index len i).
Proof.
  unfold py_index.
  destruct ((0 <=? i) && (i <? Z.of_nat len))%Z; [exact I|].
  destruct ((- Z.of_nat len <=? i) && (i <? 0))%Z; auto with benign.
Qed.

Lemma benign_py_getitem {A} (d : A) (l : list A) (i : Z) : benign (py_getitem d l i).
Proof. apply benign_obind; [apply benign_py_index|auto with benign]. Qed.

Lemma benign_py_setitem {A} (l : list A) (i : Z) (a : A) : benign (py_setitem l i a).
Proof. apply benign_obind; [apply benign_py_index|auto with benign]. Qed.

Lemma benign_py_set_slice {A} (a b : Z) (l v : list A) : benign (py_set_slice a b l v).
Proof.
  unfold py_set_slice.
  destruct (Nat.eqb _ _); [exact I|].
  destruct v as [|x [|y v]]; auto with benign.
Qed.

Lemma benign_np_col (c : nat) (A : ndarray) : benign (np_col c A).
Proof. unfold np_col. destruct (Nat.ltb c (shape1 A)); auto with benign. Qed.

Lemma benign_np_set_col (c : nat) (v : list R) (A : ndarray) : benign (np_set_col c v A).
Proof.
  unfold np_set_col.
  destruct (negb (Nat.ltb c (shape1 A))); [auto with benign|].
  destruct (negb (Nat.eqb (length v) (shape0 A))); auto with benign.
Qed.

Lemma benign_np_interp (x xp fp : list R) : benign (np_interp x xp fp).
Proof.
  unfold np_interp.
  destruct (Nat.eqb (length xp) 0); [auto with benign|].
  destruct (negb (Nat.eqb (length xp) (length fp))); auto with benign.
Qed.

Lemma benign_np_take (col : list R) (t : list Z) : benign (np_take col t).
Proof.
  induction t as [|i t IH]; cbn [np_take]; [exact I|].
  apply benign_obind; [apply benign_py_getitem|]. intros a.
  apply benign_obind; [exact IH|auto with benign].
Qed.

Lemma benign_CubicSpline (xs ys : list R) : benign (CubicSpline xs ys).
Proof.
  unfold CubicSpline.
  destruct (Nat.ltb (length xs) 2); [auto with benign|].
  destruct (negb (Nat.eqb (length xs) (length ys))); [auto with benign|].
  destruct (negb (strictly_increasing xs)); auto with benign.
Qed.

Lemma benign_np_arange_step (stop num den : Z) : benign (np_arange_step stop num den).
Proof.
  unfold np_arange_step.
  destruct (den =? 0)%Z; [auto with benign|].
  destruct (num =? 0)%Z; auto with benign.
Qed.

#[local] Hint Resolve benign_np_random_normal benign_np_random_randint
  benign_py_index benign_py_getitem benign_py_setitem benign_py_set_slice benign_np_col
  benign_np_set_col benign_np_interp benign_np_take benign_CubicSpline
  benign_np_arange_step : benign.

Ltac benign_step :=
  first [ assumption | solve [auto with benign]
        | apply benign_bind | apply benign_obind | apply benign_lift
        | progress intros ].

Lemma benign_set_last_row (a : Z) (tt : int_cols) : benign (set_last_row a tt).
Proof.
  induction tt as [|col tt IH]; cbn [set_last_row]; [exact I|].
  repeat benign_step.
Qed.

Lemma benign_sample_column (M nSample : Z) (c : nat) (tt : int_cols) (s : RandomState) :
  benign (sample_column M nSample c tt s).
Proof.
  unfold sample_column. repeat benign_step.
  unfold set_interior. destruct (nth_error tt c); repeat benign_step.
Qed.

Lemma benign_resample_column (X : ndarray) (tt : int_cols) (c : nat) (X_new : ndarray) :
  benign (resample_column X tt c X_new).
Proof.
  unfold resample_column. destruct (nth_error tt c); repeat benign_step.
Qed.

#[local] Hint Resolve benign_set_last_row benign_sample_column
  benign_resample_column : benign.

Lemma benign_rand_sampling (X : ndarray) (nSample : Z) (s : RandomState) :
  benign (rand_sampling X nSample s).
Proof.
  unfold rand_sampling, rand_sample_timesteps. repeat benign_step.
  unfold np_zeros_int. destruct (nSample <? 0)%Z; auto with benign.
Qed.

Lemma benign_generate_random_curves (X : ndarray) (sigma : R) (knot : Z)
    (s : RandomState) :
  benign (generate_random_curves X sigma knot s).
Proof.
  unfold generate_random_curves. repeat benign_step.
  destruct (knot + 2 <? 0)%Z; [apply benign_ValueError|auto with benign].
Qed.

(** ** What a successful run implies *)

Lemma bind_Ok_inv {A B} (c : Rand A) (k : A -> Rand B) (s : RandomState)
    (r : B * RandomState) :
  bind c k s = Ok r -> exists a s1, c s = Ok (a, s1) /\ k a s1 = Ok r.
Proof.
  unfold bind. destruct (c s) as [[a s1]| |]; try discriminate.
  intros H. exists a, s1. auto.
Qed.

Lemma obind_Ok_inv {A B} (o : outcome A) (k : A -> outcome B) (b : B) :
  obind o k = Ok b -> exists a, o = Ok a /\ k a = Ok b.
Proof. destruct o as [a| |]; try discriminate. intros H. exists a. auto. Qed.

Lemma lift_Ok_inv {A} (o : outcome A) (s s' : RandomState) (a : A) :
  lift o s = Ok (a, s') -> o = Ok a /\ s' = s.
Proof. destruct o; try discriminate. intros [= -> ->]. auto. Qed.

Lemma sample_column_Ok_inv (M nSample : Z) (c : nat) (tt tt' : int_cols)
    (s s' : RandomState) :
  sample_column M nSample c tt s = Ok (tt', s') ->
  c < length tt /\ length tt' = length tt.
Proof.
  unfold sample_column. intros H.
  apply bind_Ok_inv in H. destruct H as [draws [s1 [_ H]]].
  apply lift_Ok_inv in H. destruct H as [H _].
  unfold set_interior in H. destruct (nth_error tt c) as [col|] eqn:Hc; [|discriminate].
  apply obind_Ok_inv in H. destruct H as [col' [_ [= <-]]].
  assert (Hlt : c < length tt) by (apply nth_error_Some; congruence).
  split; [exact Hlt|]. now apply list_set_length.
Qed.

Lemma rand_sample_timesteps_Ok_inv (X : ndarray) (nSample : Z) (tt : int_cols)
    (s s' : RandomState) :
  rand_sample_timesteps X nSample s = Ok (tt, s') -> 3 <= shape1 X.
Proof.
  unfold rand_sample_timesteps. intros H.
  apply bind_Ok_inv in H. destruct H as [tt0 [s0 [H0 H]]].
  apply lift_Ok_inv in H0. destruct H0 as [H0 _].
  apply obind_Ok_inv in H0. destruct H0 as [z [_ [= <-]]].
  apply bind_Ok_inv in H. destruct H as [tt1 [s1 [H1 H]]].
  apply bind_Ok_inv in H. destruct H as [tt2 [s2 [H2 H]]].
  apply bind_Ok_inv in H. destruct H as [tt3 [s3 [H3 _]]].
  apply sample_column_Ok_inv in H1, H2, H3.
  rewrite repeat_length in H1. lia.
Qed.

Lemma rand_sampling_Ok_inv (X Y : ndarray) (nSample : Z) (s s' : RandomState) :
  rand_sampling X nSample s = Ok (Y, s') -> 3 <= shape1 X.
Proof.
  unfold rand_sampling. intros H.
  apply bind_Ok_inv in H. destruct H as [tt [s1 [H _]]].
  now apply rand_sample_timesteps_Ok_inv in H.
Qed.

Lemma np_col_Ok_inv (c : nat) (A : ndarray) (v : list R) :
  np_col c A = Ok v -> c < shape1 A /\ v = column c (rowsOf A).
Proof.
  unfold np_col. destruct (Nat.ltb_spec c (shape1 A)); [|discriminate].
  intros [= <-]. auto.
Qed.

Lemma generate_random_curves_Ok_inv (X C : ndarray) (sigma : R) (knot : Z)
    (s s' : RandomState) :
  generate_random_curves X sigma knot s = Ok (C, s') ->
  3 <= shape1 X /\ shape C = (shape0 X, 3).
Proof.
  unfold generate_random_curves. intros H.
  apply bind_Ok_inv in H. destruct H as [ticks [s0 [_ H]]].
  apply bind_Ok_inv in H. destruct H as [yy [s1 [_ H]]].
  apply lift_Ok_inv in H. destruct H as [H _].
  apply obind_Ok_inv in H. destruct H as [x0 [_ H]].
  apply obind_Ok_inv in H. destruct H as [y0 [_ H]].
  apply obind_Ok_inv in H. destruct H as [cs_x [_ H]].
  apply obind_Ok_inv in H. destruct H as [x1 [_ H]].
  apply obind_Ok_inv in H. destruct H as [y1 [_ H]].
  apply obind_Ok_inv in H. destruct H as [cs_y [_ H]].
  apply obind_Ok_inv in H. destruct H as [x2 [Hx2 H]].
  apply obind_Ok_inv in H. destruct H as [y2 [_ H]].
  apply obind_Ok_inv in H. destruct H as [cs_z [_ H]].
  injection H as <-.
  apply np_col_Ok_inv in Hx2. cbn [shape1] in Hx2. split; [lia|].
  unfold shape, shape0, np_arange. cbn [rowsOf shape1].
  now rewrite !length_map, length_seq.
Qed.

Lemma axangle2mat_bad_length (axis : list R) (angle : R) :
  length axis <> 3 -> axangle2mat axis angle = Raise ValueError.
Proof.
  destruct axis as [|x [|y [|z [|w axis]]]]; cbn; intros H; try reflexivity. lia.
Qed.

Lemma rotation_bad_shape (X : ndarray) (rng : RandomState) :
  shape1 X <> 3 -> result_of (rotation X rng) = Raise ValueError.
Proof.
  intros HN. rewrite rotation_run.
  rewrite axangle2mat_bad_length; [reflexivity|].
  unfold drawn_axis. now rewrite length_map, length_seq.
Qed.

Lemma rand_sampling_returns (X : ndarray) (nSample : Z) (rng : RandomState) :
  (2 <= nSample)%Z -> 3 <= shape0 X -> 3 <= shape1 X ->
  exists Y, result_of (rand_sampling X nSample rng) = Ok Y /\ shape Y = shape X.
Proof.
  intros Hn HM HN.
  destruct (@rand_sampling_run X nSample rng Hn HM HN)
    as [t0 [t1 [t2 [s' [_ [_ [_ Hrun]]]]]]].
  rewrite Hrun. eexists. split; [reflexivity|].
  apply set_col_shape; [|apply resampled_length].
  rewrite !map2_length, !resampled_length.
  unfold np_zeros, shape. cbn [rowsOf fst snd]. rewrite repeat_length. lia.
Qed.

(** ** No shape check *)

(** C2, as the code has it.  With [N <> 3] channels neither [rotation] nor
    the curve generator nor random sampling raises [InvalidShape]:
    [rotation] ends in the [ValueError] of unpacking an axis that has not
    three components; the curve generator and random sampling never return
    for [N < 3], and for [N > 3] work on channels 0, 1 and 2 alone, so that
    random sampling returns an array of the shape of [X]. *)
Theorem no_invalid_shape (X : ndarray) (sigma : R) (knot nSample : Z)
    (rng : RandomState) :
  shape1 X <> 3 ->
  result_of (rotation X rng) = Raise ValueError /\
  result_of (generate_random_curves X sigma knot rng) <> Raise InvalidShape /\
  result_of (rand_sampling X nSample rng) <> Raise InvalidShape /\
  (shape1 X < 3 ->
   (forall C, result_of (generate_random_curves X sigma knot rng) <> Ok C) /\
   (forall Y, result_of (rand_sampling X nSample rng) <> Ok Y)) /\
  (3 < shape1 X -> 3 <= shape0 X -> (2 <= nSample)%Z ->
   exists Y, result_of (rand_sampling X nSample rng) = Ok Y /\ shape Y = shape X).
Proof.
  intros HN. split; [now apply rotation_bad_shape|].
  split; [apply benign_not_invalid_shape, benign_result_of,
          benign_generate_random_curves|].
  split; [apply benign_not_invalid_shape, benign_result_of, benign_rand_sampling|].
  split.
  - intros Hlt. split.
    + intros C HC.
      destruct (generate_random_curves X sigma knot rng) as [[C' s']| |] eqn:Hrun;
        try discriminate.
      apply generate_random_curves_Ok_inv in Hrun. lia.
    + intros Y HY.
      destruct (rand_sampling X nSample rng) as [[Y' s']| |] eqn:Hrun; try discriminate.
      apply rand_sampling_Ok_inv in Hrun. lia.
  - intros Hgt HM Hn. apply rand_sampling_returns; lia.
Qed.

Lemma no_invalid_shape_witness :
  result_of (rotation (window 3 4) sample_rng) = Raise ValueError /\
  result_of (generate_random_curves (window 3 4) 1 4 sample_rng) <> Raise InvalidShape /\
  result_of (rand_sampling (window 3 4) 2 sample_rng) <> Raise InvalidShape /\
  (shape1 (window 3 4) < 3 ->
   (forall C, result_of (generate_random_curves (window 3 4) 1 4 sample_rng) <> Ok C) /\
   (forall Y, result_of (rand_sampling (window 3 4) 2 sample_rng) <> Ok Y)) /\
  (3 < shape1 (window 3 4) -> 3 <= shape0 (window 3 4) -> (2 <= 2)%Z ->
   exists Y, result_of (rand_sampling (window 3 4) 2 sample_rng) = Ok Y
             /\ shape Y = shape (window 3 4)).
Proof.
  apply (@no_invalid_shape (window 3 4) 1 4 2 sample_rng).
  cbn. lia.
Defined.

(** C2, as stated, fails: random sampling of a window with four channels
    computes a result instead of raising [InvalidShape]. *)
Lemma rand_sampling_four_channels :
  exists Y, result_of (rand_sampling (window 3 4) 2 sample_rng) = Ok Y
            /\ shape Y = (3, 4).
Proof.
  destruct (@rand_sampling_returns (window 3 4) 2 sample_rng) as [Y [HY Hsh]];
    try (vm_compute; lia); try lia.
  exists Y. split; [exact HY|]. now rewrite Hsh, window_shape.
Qed.

(** ** Splines interpolate their knots *)

Lemma eliminate_length (rows : list tri_row) (c d : R) :
  length (eliminate rows c d) = length rows.
Proof.
  revert c d. induction rows as [|[[[a b] c'] d'] rows IH]; intros c d; cbn; [reflexivity|].
  now rewrite IH.
Qed.

Lemma back_substitute_length (cd : list (R * R)) :
  length (back_substitute cd) = length cd.
Proof.
  induction cd as [|[c d] cd IH]; cbn; [reflexivity|]. now rewrite IH.
Qed.

Lemma knot_derivatives_length (xs ys : list R) :
  2 <= length xs -> length (knot_derivatives xs ys) = length xs.
Proof.
  intros Hlen. unfold knot_derivatives.
  destruct (Nat.eqb_spec (length xs) 2) as [->|_]; [reflexivity|].
  now rewrite back_substitute_length, eliminate_length, length_map, length_seq.
Qed.

Lemma strictly_increasing_cons (x0 x1 : R) (xs : list R) :
  strictly_increasing (x0 :: x1 :: xs) = true <->
  (x0 < x1)%R /\ strictly_increasing (x1 :: xs) = true.
Proof.
  unfold strictly_increasing.
  change (diff (x0 :: x1 :: xs)) with ((x1 - x0)%R :: diff (x1 :: xs)).
  cbn [forallb]. destruct (Rlt_dec 0 (x1 - x0)) as [H|H]; cbn [andb].
  - split; [intros Hs; split; [lra|exact Hs]|tauto].
  - split; [discriminate|]. intros [H' _]. lra.
Qed.

Lemma increasing_nth_ge (xs : list R) (x0 : R) (i : nat) :
  strictly_increasing (x0 :: xs) = true -> i < length (x0 :: xs) ->
  (x0 <= nth i (x0 :: xs) 0)%R.
Proof.
  revert x0 i. induction xs as [|x1 xs IH]; intros x0 i Hinc Hi.
  - cbn [length] in Hi. replace i with 0 by lia. cbn. lra.
  - apply strictly_increasing_cons in Hinc. destruct Hinc as [H01 Hinc].
    destruct i as [|i]; [cbn; lra|].
    change (nth (S i) (x0 :: x1 :: xs) 0%R) with (nth i (x1 :: xs) 0%R).
    cbn [length] in Hi.
    assert (Hi' : i < length (x1 :: xs)) by (cbn [length]; lia).
    specialize (IH x1 i Hinc Hi'). lra.
Qed.

Lemma piece_value_left (p : piece) : piece_value p (p_left p) = c3 p.
Proof. unfold piece_value. rewrite Rminus_diag. ring. Qed.

(** At every knot but the last, the spline takes the knot's value. *)
Lemma ppoly_at_knot (xs ys s : list R) (i : nat) :
  strictly_increasing xs = true ->
  length ys = length xs -> length s = length xs -> i + 1 < length xs ->
  ppoly (pieces xs ys s) (nth i xs 0%R) = nth i ys 0%R.
Proof.
  revert ys s i. induction xs as [|x0 xs IH]; intros ys s i Hinc Hy Hs Hi.
  { cbn in Hi. lia. }
  destruct xs as [|x1 xs]; [cbn in Hi; lia|].
  destruct ys as [|y0 [|y1 ys]]; try discriminate.
  destruct s as [|s0 [|s1 s]]; try discriminate.
  apply strictly_increasing_cons in Hinc. destruct Hinc as [H01 Hinc].
  change (pieces (x0 :: x1 :: xs) (y0 :: y1 :: ys) (s0 :: s1 :: s))
    with (mkPiece x0 x1
            (((s0 + s1 - 2 * ((y1 - y0) / (x1 - x0))) / (x1 - x0)) / (x1 - x0))
            ((((y1 - y0) / (x1 - x0)) - s0) / (x1 - x0)
             - ((s0 + s1 - 2 * ((y1 - y0) / (x1 - x0))) / (x1 - x0)))
            s0 y0
          :: pieces (x1 :: xs) (y1 :: ys) (s1 :: s)).
  set (p := mkPiece x0 x1 _ _ s0 y0).
  destruct i as [|i].
  - cbn [nth]. cbn [ppoly].
    assert (Hv : piece_value p x0 = y0) by apply (piece_value_left p).
    destruct (pieces (x1 :: xs) (y1 :: ys) (s1 :: s)); [exact Hv|].
    cbn [p_right p]. destruct (Rlt_dec x0 x1); [exact Hv|lra].
  - change (nth (S i) (x0 :: x1 :: xs) 0%R) with (nth i (x1 :: xs) 0%R).
    change (nth (S i) (y0 :: y1 :: ys) 0%R) with (nth i (y1 :: ys) 0%R).
    cbn [length] in *.
    destruct xs as [|x2 xs]; [cbn in Hi; lia|].
    destruct ys as [|y2 ys]; [discriminate|].
    destruct s as [|s2 s]; [discriminate|].
    assert (Hge : (x1 <= nth i (x1 :: x2 :: xs) 0)%R).
    { apply increasing_nth_ge; [exact Hinc|]. cbn [length] in *. lia. }
    rewrite <- (IH (y1 :: y2 :: ys) (s1 :: s2 :: s) i Hinc); try (cbn [length] in *; lia).
    remember (nth i (x1 :: x2 :: xs) 0%R) as x eqn:Hx.
    remember (pieces (x1 :: x2 :: xs) (y1 :: y2 :: ys) (s1 :: s2 :: s)) as rest eqn:Hrest.
    destruct rest as [|p1 rest]; [discriminate|].
    cbn [ppoly]. cbn [p_right p]. destruct (Rlt_dec x x1); [lra|reflexivity].
Qed.

(** ** The knots of the curve generator *)

Lemma ticks_increasing (h : R) (a n : nat) :
  (0 < h)%R ->
  strictly_increasing (map (fun i => (INR i * h)%R) (seq a n)) = true.
Proof.
  intros Hh. revert a. induction n as [|n IH]; intros a; [reflexivity|].
  destruct n as [|n]; [reflexivity|].
  change (seq a (S (S n))) with (a :: S a :: seq (S (S a)) n).
  cbn [map]. apply strictly_increasing_cons. split.
  - rewrite S_INR. nra.
  - apply (IH (S a)).
Qed.

Lemma six_ticks (M : Z) :
  (6 <= M)%Z -> Z.to_nat (- (- (M * (4 + 1)) / (M - 1)))%Z = 6.
Proof.
  intros HM.
  assert (H : (- (M * (4 + 1)) / (M - 1) = -6)%Z).
  { symmetry. apply (Z.div_unique _ _ _ (M - 6)%Z); [left|]; lia. }
  rewrite H. reflexivity.
Qed.

Lemma column_repeat (c N : nat) (ticks : list R) :
  c < N -> column c (map (fun t => repeat t N) ticks) = ticks.
Proof.
  intros Hc. unfold column. rewrite map_map. rewrite <- (map_id ticks) at 2.
  apply map_ext. intros t. now apply nth_repeat_lt.
Qed.

Lemma curve_spline_ok (X : ndarray) (sigma : R) (rng : RandomState) (c : nat) :
  6 <= shape0 X ->
  CubicSpline (curve_ticks X) (curve_values X sigma rng c)
  = Ok (curve_spline X sigma rng c).
Proof.
  intros HM. unfold CubicSpline, curve_ticks, curve_values, column.
  rewrite !length_map, length_seq, normal_rows_length. cbn [fst Nat.ltb Nat.leb Nat.eqb negb].
  rewrite ticks_increasing; [reflexivity|].
  apply Rdiv_lt_0_compat; apply IZR_lt; lia.
Qed.

Lemma generate_random_curves_ok (X : ndarray) (sigma : R) (rng : RandomState) :
  6 <= shape0 X -> 3 <= shape1 X -> (0 <= sigma)%R ->
  generate_random_curves X sigma 4 rng
  = Ok (mkArray 3 (map (fun t => [curve_spline X sigma rng 0 t;
                                   curve_spline X sigma rng 1 t;
                                   curve_spline X sigma rng 2 t])
                       (np_arange (shape0 X))),
        advance (6 * (shape1 X * 1)) rng).
Proof.
  intros HM HN Hs. unfold generate_random_curves, bind at 1.
  unfold np_arange_step.
  destruct (Z.eqb_spec (4 + 1) 0) as [H|_]; [discriminate H|].
  destruct (Z.eqb_spec (Z.of_nat (shape0 X) - 1) 0) as [H|_]; [lia|].
  rewrite six_ticks by lia. cbn [lift]. fold (curve_ticks X).
  unfold bind. cbn [Z.ltb Z.add Z.compare Pos.add Pos.succ Z.to_nat Pos.to_nat
                    Pos.iter_op Nat.add].
  change (Pos.to_nat 6) with 6.
  rewrite np_random_normal_ok by exact Hs. cbn [fst snd lift].
  unfold np_col. cbn [shape1 rowsOf].
  destruct (Nat.ltb_spec 0 (shape1 X)) as [_|]; [|lia].
  destruct (Nat.ltb_spec 1 (shape1 X)) as [_|]; [|lia].
  destruct (Nat.ltb_spec 2 (shape1 X)) as [_|]; [|lia].
  cbn [obind]. rewrite !column_repeat by lia.
  fold (curve_values X sigma rng 0) (curve_values X sigma rng 1)
       (curve_values X sigma rng 2).
  rewrite !curve_spline_ok by exact HM. reflexivity.
Qed.

(** ** The cumulative sum along time *)

Lemma cumsum_rows_length (acc : list R) (rows : list (list R)) :
  length (cumsum_rows acc rows) = length rows.
Proof.
  revert acc. induction rows as [|r rows IH]; intros acc; cbn; [reflexivity|].
  now rewrite IH.
Qed.

Lemma cumsum_rows_wf (N : nat) (acc : list R) (rows : list (list R)) :
  length acc = N -> Forall (fun r => length r = N) rows ->
  Forall (fun r => length r = N) (cumsum_rows acc rows).
Proof.
  intros Hacc Hrows. revert acc Hacc.
  induction Hrows as [|r rows Hr _ IH]; intros acc Hacc; cbn [cumsum_rows]; constructor.
  - rewrite map2_length, Hacc, Hr. apply Nat.min_id.
  - apply IH. rewrite map2_length, Hacc, Hr. apply Nat.min_id.
Qed.




Lemma curve_values_nth (X : ndarray) (sigma : R) (rng : RandomState) (c i : nat) :
  c < shape1 X -> i < 6 ->
  nth i (curve_values X sigma rng c) 0%R
  = (1 + sigma * gauss rng (cursor rng + i * shape1 X + c))%R.
Proof.
  intros Hc Hi. unfold curve_values, column, normal_rows. cbn [fst snd].
  rewrite map_map. rewrite nth_map_seq by exact Hi. now rewrite nth_map_seq by exact Hc.
Qed.

(** ** The shape of what is returned *)

Lemma elementwise_same_shape (f : R -> R -> R) (X Z : ndarray) :
  wf X -> wf Z -> shape Z = shape X ->
  same_shape X (mkArray (shape1 X) (map2 (map2 f) (rowsOf X) (rowsOf Z))).
Proof.
  intros HX HZ Hsh. unfold shape in Hsh. injection Hsh as H0 H1.
  split.
  - unfold shape, shape0 at 1. cbn [rowsOf shape1]. f_equal.
    rewrite map2_length. fold (shape0 X) (shape0 Z). lia.
  - unfold wf. cbn [rowsOf shape1]. apply Forall_forall. intros r Hr.
    apply In_nth_error in Hr. destruct Hr as [i Hi].
    assert (Hlt : i < length (map2 (map2 f) (rowsOf X) (rowsOf Z)))
      by (apply nth_error_Some; congruence).
    rewrite map2_length in Hlt.
    apply (nth_error_nth _ _ []) in Hi.
    rewrite (nth_map2 _ _ _ [] [] []) in Hi by lia. subst r.
    rewrite map2_length, !wf_nth_length; try assumption; unfold shape0; lia.
Qed.

Lemma normal_rows_wf (loc scale : R) (sh : nat * nat) (s : RandomState) :
  wf (mkArray (snd sh) (normal_rows loc scale sh s)).
Proof.
  unfold wf, normal_rows. cbn [rowsOf shape1]. apply Forall_forall. intros r Hr.
  apply in_map_iff in Hr. destruct Hr as [i [<- _]]. now rewrite length_map, length_seq.
Qed.

Lemma np_random_normal_Ok_inv (loc scale : R) (sh : nat * nat) (s s' : RandomState)
    (Z : ndarray) :
  np_random_normal loc scale sh s = Ok (Z, s') -> shape Z = sh /\ wf Z.
Proof.
  destruct (Rlt_dec scale 0) as [H|H].
  - rewrite np_random_normal_neg by exact H. discriminate.
  - rewrite np_random_normal_ok by lra. intros [= <- _]. split.
    + unfold shape, shape0. cbn [rowsOf shape1]. rewrite normal_rows_length.
      now destruct sh.
    + apply normal_rows_wf.
Qed.

Lemma jitter_same_shape (X Y : ndarray) (sigma : R) (s s' : RandomState) :
  wf X -> jitter X sigma s = Ok (Y, s') -> same_shape X Y.
Proof.
  intros Hwf H. unfold jitter in H.
  apply bind_Ok_inv in H. destruct H as [noise [s1 [Hn [= <- _]]]].
  apply np_random_normal_Ok_inv in Hn. destruct Hn as [Hsh Hwfn].
  now apply elementwise_same_shape.
Qed.

Lemma np_matmul_Ok_inv (A B Y : ndarray) :
  np_matmul A B = Ok Y ->
  shape1 A = shape0 B /\ shape Y = (shape0 A, shape1 B) /\ wf Y.
Proof.
  unfold np_matmul. destruct (Nat.eqb_spec (shape1 A) (shape0 B)); [|discriminate].
  intros [= <-]. split; [assumption|]. split.
  - unfold shape, shape0. cbn [rowsOf shape1]. now rewrite length_map.
  - unfold wf. cbn [rowsOf shape1]. apply Forall_forall. intros r Hr.
    apply in_map_iff in Hr. destruct Hr as [r' [<- _]]. now rewrite length_map, length_seq.
Qed.

Lemma scaling_same_shape (X Y : ndarray) (sigma : R) (s s' : RandomState) :
  wf X -> scaling X sigma s = Ok (Y, s') -> same_shape X Y.
Proof.
  intros Hwf H. unfold scaling in H.
  apply bind_Ok_inv in H. destruct H as [sc [s1 [Hsc H]]].
  apply bind_Ok_inv in H. destruct H as [noise [s2 [Hn [= <- _]]]].
  apply lift_Ok_inv in Hn. destruct Hn as [Hn _].
  apply np_random_normal_Ok_inv in Hsc. destruct Hsc as [Hsh _].
  apply np_matmul_Ok_inv in Hn. destruct Hn as [_ [Hshape Hwfn]].
  apply elementwise_same_shape; try assumption.
  rewrite Hshape. unfold shape in Hsh. injection Hsh as _ ->.
  unfold np_ones, shape, shape0. cbn [rowsOf fst snd]. now rewrite repeat_length.
Qed.

Lemma generate_random_curves_wf (X C : ndarray) (sigma : R) (knot : Z)
    (s s' : RandomState) :
  generate_random_curves X sigma knot s = Ok (C, s') -> wf C.
Proof.
  unfold generate_random_curves. intros H.
  apply bind_Ok_inv in H. destruct H as [ticks [s0 [_ H]]].
  apply bind_Ok_inv in H. destruct H as [yy [s1 [_ H]]].
  apply lift_Ok_inv in H. destruct H as [H _].
  repeat (apply obind_Ok_inv in H; destruct H as [? [_ H]]).
  injection H as <-.
  unfold wf. cbn [rowsOf shape1]. apply Forall_forall. intros r Hr.
  apply in_map_iff in Hr. destruct Hr as [t [<- _]]. reflexivity.
Qed.

Lemma magnitude_warp_same_shape (X Y : ndarray) (sigma : R) (s s' : RandomState) :
  wf X -> magnitude_warp X sigma s = Ok (Y, s') -> same_shape X Y.
Proof.
  intros Hwf H. unfold magnitude_warp in H.
  apply bind_Ok_inv in H. destruct H as [curve [s1 [Hc H]]].
  apply lift_Ok_inv in H. destruct H as [H _].
  pose proof (generate_random_curves_wf _ _ _ _ Hc) as Hwfc.
  unfold np_mul_checked in H.
  destruct (Nat.eqb_spec (shape0 X) (shape0 curve)) as [H0|]; [|discriminate].
  destruct (Nat.eqb_spec (shape1 X) (shape1 curve)) as [H1|]; [|discriminate].
  injection H as <-. apply elementwise_same_shape; try assumption.
  unfold shape. congruence.
Qed.

Lemma axangle2mat_Ok_inv (axis : list R) (angle : R) (Rm : ndarray) :
  axangle2mat axis angle = Ok Rm -> shape Rm = (3, 3).
Proof.
  destruct axis as [|x [|y [|z [|w axis]]]]; cbn; try discriminate.
  intros [= <-]. reflexivity.
Qed.

Lemma rotation_same_shape (X Y : ndarray) (s s' : RandomState) :
  rotation X s = Ok (Y, s') -> same_shape X Y.
Proof.
  rewrite rotation_run. intros H.
  apply lift_Ok_inv in H. destruct H as [H _].
  apply obind_Ok_inv in H. destruct H as [Rm [HR H]].
  apply axangle2mat_Ok_inv in HR. unfold shape in HR. injection HR as HR0 HR1.
  apply np_matmul_Ok_inv in H. destruct H as [Hin [Hsh Hwf]].
  split; [|exact Hwf]. rewrite Hsh. unfold shape. congruence.
Qed.

Lemma rotation_returns (X : ndarray) (rng : RandomState) :
  shape1 X = 3 -> exists Y, result_of (rotation X rng) = Ok Y.
Proof.
  intros HN. rewrite rotation_run, HN. unfold drawn_axis. cbn [seq map axangle2mat].
  cbv zeta. unfold obind, np_matmul. cbn [shape1 shape0 rowsOf length].
  rewrite HN. cbn [Nat.eqb lift result_of]. eexists. reflexivity.
Qed.

Lemma jitter_returns (X : ndarray) (sigma : R) (rng : RandomState) :
  (0 <= sigma)%R -> exists Y, result_of (jitter X sigma rng) = Ok Y.
Proof.
  intros Hs. unfold jitter, bind. rewrite np_random_normal_ok by exact Hs.
  eexists. reflexivity.
Qed.

Lemma scaling_returns (X : ndarray) (sigma : R) (rng : RandomState) :
  (0 <= sigma)%R -> exists Y, result_of (scaling X sigma rng) = Ok Y.
Proof.
  intros Hs. unfold scaling, bind. rewrite np_random_normal_ok by exact Hs.
  unfold np_matmul, np_ones, normal_rows, shape0.
  cbn [shape1 rowsOf fst snd seq map length Nat.eqb lift]. eexists. reflexivity.
Qed.

Lemma magnitude_warp_returns (X : ndarray) (sigma : R) (rng : RandomState) :
  shape1 X = 3 -> 6 <= shape0 X -> (0 <= sigma)%R ->
  exists Y, result_of (magnitude_warp X sigma rng) = Ok Y.
Proof.
  intros HN HM Hs. unfold magnitude_warp, bind.
  rewrite generate_random_curves_ok by (try assumption; lia).
  unfold lift, np_mul_checked, shape0 at 2, np_arange. cbn [rowsOf shape1].
  rewrite !length_map, length_seq, HN, !Nat.eqb_refl. cbn [andb].
  eexists. reflexivity.
Qed.

Lemma py_bound_le (len : nat) (i : Z) : py_bound len i <= len.
Proof.
  unfold py_bound. destruct (Z.ltb_spec i 0); lia.
Qed.

Lemma Forall_firstn {A} (P : A -> Prop) (n : nat) (l : list A) :
  Forall P l -> Forall P (firstn n l).
Proof.
  intros H. revert n. induction H as [|a l Ha _ IH]; intros [|n]; cbn; auto.
Qed.

Lemma Forall_skipn {A} (P : A -> Prop) (n : nat) (l : list A) :
  Forall P l -> Forall P (skipn n l).
Proof.
  intros H. revert n. induction H as [|a l Ha Hl IH]; intros [|n]; cbn; auto.
Qed.

Lemma repeat_all {A} (n : nat) (a : A) (P : A -> Prop) : P a -> Forall P (repeat a n).
Proof. intros Ha. induction n; cbn; auto. Qed.

Lemma py_slice_Forall {A} (P : A -> Prop) (a b : Z) (l : list A) :
  Forall P l -> Forall P (py_slice a b l).
Proof. intros H. unfold py_slice. now apply Forall_firstn, Forall_skipn. Qed.

Lemma py_set_slice_Ok_inv {A} (P : A -> Prop) (a b : Z) (l v l' : list A) :
  py_set_slice a b l v = Ok l' ->
  length l' = length l /\ (Forall P l -> Forall P v -> Forall P l').
Proof.
  unfold py_set_slice.
  pose proof (py_bound_le (length l) a) as Ha.
  pose proof (py_bound_le (length l) b) as Hb.
  set (a' := py_bound (length l) a) in *. set (b' := py_bound (length l) b) in *.
  destruct (Nat.eqb_spec (length v) (b' - a')) as [Hk|Hk].
  - intros [= <-]. split.
    + rewrite !length_app, length_firstn, length_skipn. lia.
    + intros Hl Hv. apply Forall_app. split; [now apply Forall_firstn|].
      apply Forall_app. split; [exact Hv|now apply Forall_skipn].
  - destruct v as [|x [|y v]]; try discriminate. intros [= <-]. split.
    + rewrite !length_app, length_firstn, repeat_length, length_skipn. lia.
    + intros Hl Hv. inversion Hv; subst.
      apply Forall_app. split; [now apply Forall_firstn|].
      apply Forall_app. split; [now apply repeat_all|now apply Forall_skipn].
Qed.

Lemma place_all_Ok_inv (P : list R -> Prop) (X : list (list R)) (segs : list Z)
    (idx : list nat) :
  forall st st',
  place_all X segs idx st = Ok st' ->
  length (fst st') = length (fst st) /\
  (Forall P X -> Forall P (fst st) -> Forall P (fst st')).
Proof.
  induction idx as [|k idx IH]; intros st st' H.
  - injection H as <-. auto.
  - cbn [place_all] in H. apply obind_Ok_inv in H. destruct H as [st1 [H1 H]].
    apply IH in H. destruct H as [Hlen Hall].
    destruct st as [X_new pp]. unfold place_segment in H1.
    apply obind_Ok_inv in H1. destruct H1 as [lo [_ H1]].
    apply obind_Ok_inv in H1. destruct H1 as [hi [_ H1]].
    apply obind_Ok_inv in H1. destruct H1 as [X_new' [Hset [= <-]]].
    apply (py_set_slice_Ok_inv P) in Hset. destruct Hset as [Hlen' Hall'].
    cbn [fst] in *. split; [congruence|].
    intros HX Hnew. apply Hall; [exact HX|].
    apply Hall'; [exact Hnew|]. now apply py_slice_Forall.
Qed.

Lemma np_zeros_same_shape (X : ndarray) : same_shape X (np_zeros (shape X)).
Proof.
  split.
  - unfold np_zeros, shape, shape0. cbn [rowsOf shape1 fst snd]. now rewrite repeat_length.
  - unfold wf, np_zeros, shape. cbn [rowsOf shape1 fst snd].
    apply repeat_all, repeat_length.
Qed.

Lemma permutation_same_shape (fuel : nat) (X Y : ndarray) (nPerm minSegLength : Z)
    (s s' : RandomState) :
  wf X -> permutation fuel X nPerm minSegLength s = Ok (Y, s') -> same_shape X Y.
Proof.
  intros Hwf H.
  destruct (permutation_run fuel X nPerm minSegLength s) as [idx [_ Heq]].
  rewrite Heq in H. clear Heq.
  destruct (search_segs fuel (Z.of_nat (shape0 X)) nPerm minSegLength
              (advance (Z.to_nat nPerm - 1) s)) as [[segs s1]| |]; try discriminate.
  destruct (place_all (rowsOf X) segs idx (rowsOf (np_zeros (shape X)), 0))
    as [st| |] eqn:Hplace; try discriminate.
  injection H as <- _.
  apply (place_all_Ok_inv (fun r => length r = shape1 X)) in Hplace.
  destruct Hplace as [Hlen Hall]. cbn [fst] in *.
  assert (Hz0 : length (rowsOf (np_zeros (shape X))) = shape0 X)
    by (unfold np_zeros, shape; cbn [rowsOf fst snd]; apply repeat_length).
  assert (Hwz : Forall (fun r => length r = shape1 X) (rowsOf (np_zeros (shape X))))
    by (unfold np_zeros, shape; cbn [rowsOf fst snd]; apply repeat_all, repeat_length).
  split.
  - unfold shape, shape0 at 1. cbn [rowsOf shape1]. f_equal.
    rewrite Hlen. exact Hz0.
  - unfold wf. cbn [rowsOf shape1]. apply Hall; [exact Hwf|exact Hwz].
Qed.

Lemma np_set_col_Ok_inv (c : nat) (v : list R) (A A' : ndarray) :
  np_set_col c v A = Ok A' -> shape A' = shape A /\ (wf A -> wf A').
Proof.
  unfold np_set_col.
  destruct (Nat.ltb_spec c (shape1 A)) as [Hc|]; [|discriminate]. cbn [negb].
  destruct (Nat.eqb_spec (length v) (shape0 A)) as [Hv|]; [|discriminate]. cbn [negb].
  intros [= <-]. split.
  - unfold shape, shape0 at 1. cbn [rowsOf shape1]. f_equal.
    rewrite map2_length, Hv. fold (shape0 A). lia.
  - intros Hwf. unfold wf. cbn [rowsOf shape1]. apply Forall_forall. intros r Hr.
    apply In_nth_error in Hr. destruct Hr as [i Hi].
    assert (Hlt : i < length (map2 (fun r a => list_set r c a) (rowsOf A) v))
      by (apply nth_error_Some; congruence).
    rewrite map2_length in Hlt.
    apply (nth_error_nth _ _ []) in Hi.
    rewrite (nth_map2 _ _ _ [] 0%R []) in Hi by lia. subst r.
    assert (Hrow : length (nth i (rowsOf A) []) = shape1 A)
      by (apply wf_nth_length; [exact Hwf|unfold shape0; lia]).
    rewrite list_set_length; lia.
Qed.

Lemma resample_column_Ok_inv (X : ndarray) (tt : int_cols) (c : nat) (A A' : ndarray) :
  resample_column X tt c A = Ok A' -> shape A' = shape A /\ (wf A -> wf A').
Proof.
  unfold resample_column. destruct (nth_error tt c); [|discriminate]. intros H.
  repeat (apply obind_Ok_inv in H; destruct H as [? [_ H]]).
  now apply np_set_col_Ok_inv in H.
Qed.

Lemma rand_sampling_same_shape (X Y : ndarray) (nSample : Z) (s s' : RandomState) :
  rand_sampling X nSample s = Ok (Y, s') -> same_shape X Y.
Proof.
  unfold rand_sampling. intros H.
  apply bind_Ok_inv in H. destruct H as [tt [s1 [_ H]]].
  apply lift_Ok_inv in H. destruct H as [H _].
  apply obind_Ok_inv in H. destruct H as [A0 [H0 H]].
  apply obind_Ok_inv in H. destruct H as [A1 [H1 H2]].
  apply resample_column_Ok_inv in H0, H1, H2.
  destruct H0 as [S0 W0], H1 as [S1 W1], H2 as [S2 W2].
  destruct (np_zeros_same_shape X) as [Hz Hwz].
  split; [congruence|auto].
Qed.

(** C6, as the code has it.  Whatever [jitter], [scaling],
    [magnitude_warp], [rotation], [permutation] or [rand_sampling] returns on
    a well-formed array has the shape of its input.  [jitter] and [scaling]
    return for every [sigma >= 0]; on three channels [rotation] always
    returns, [magnitude_warp] for at least six rows and [sigma >= 0], and
    [rand_sampling] for at least three rows and [nSample >= 2]. *)
Theorem returned_shape (fuel : nat) (X : ndarray) (sigma : R)
    (nPerm minSegLength nSample : Z) (rng : RandomState) :
  wf X ->
  (forall Y, result_of (jitter X sigma rng) = Ok Y -> same_shape X Y) /\
  (forall Y, result_of (scaling X sigma rng) = Ok Y -> same_shape X Y) /\
  (forall Y, result_of (magnitude_warp X sigma rng) = Ok Y -> same_shape X Y) /\
  (forall Y, result_of (rotation X rng) = Ok Y -> same_shape X Y) /\
  (forall Y, result_of (permutation fuel X nPerm minSegLength rng) = Ok Y ->
             same_shape X Y) /\
  (forall Y, result_of (rand_sampling X nSample rng) = Ok Y -> same_shape X Y) /\
  ((0 <= sigma)%R ->
   (exists Y, result_of (jitter X sigma rng) = Ok Y) /\
   (exists Y, result_of (scaling X sigma rng) = Ok Y)) /\
  (shape1 X = 3 ->
   (exists Y, result_of (rotation X rng) = Ok Y) /\
   (6 <= shape0 X -> (0 <= sigma)%R ->
    exists Y, result_of (magnitude_warp X sigma rng) = Ok Y) /\
   (3 <= shape0 X -> (2 <= nSample)%Z ->
    exists Y, result_of (rand_sampling X nSample rng) = Ok Y)).
Proof.
  intros Hwf.
  assert (Hres : forall (o : outcome (ndarray * RandomState)) Y,
            result_of o = Ok Y -> exists s', o = Ok (Y, s')).
  { intros [[Y' s']| |] Y; cbn; try discriminate. intros [= ->]. now exists s'. }
  split; [|split; [|split; [|split; [|split; [|split; [|split]]]]]].
  - intros Y H. apply Hres in H. destruct H as [s' H]. eapply jitter_same_shape; eauto.
  - intros Y H. apply Hres in H. destruct H as [s' H]. eapply scaling_same_shape; eauto.
  - intros Y H. apply Hres in H. destruct H as [s' H].
    eapply magnitude_warp_same_shape; eauto.
  - intros Y H. apply Hres in H. destruct H as [s' H]. eapply rotation_same_shape; eauto.
  - intros Y H. apply Hres in H. destruct H as [s' H].
    eapply permutation_same_shape; eauto.
  - intros Y H. apply Hres in H. destruct H as [s' H].
    eapply rand_sampling_same_shape; eauto.
  - intros Hs. split; [now apply jitter_returns|now apply scaling_returns].
  - intros HN. split; [now apply rotation_returns|]. split.
    + intros HM Hs. now apply magnitude_warp_returns.
    + intros HM Hn.
      assert (HN3 : 3 <= shape1 X) by lia.
      destruct (@rand_sampling_returns X nSample rng Hn HM HN3) as [Y [HY _]].
      now exists Y.
Qed.

Lemma returned_shape_witness :
  (forall Y, result_of (jitter (window 6 3) (1 / 5) sample_rng) = Ok Y ->
             same_shape (window 6 3) Y) /\
  (forall Y, result_of (scaling (window 6 3) (1 / 5) sample_rng) = Ok Y ->
             same_shape (window 6 3) Y) /\
  (forall Y, result_of (magnitude_warp (window 6 3) (1 / 5) sample_rng) = Ok Y ->
             same_shape (window 6 3) Y) /\
  (forall Y, result_of (rotation (window 6 3) sample_rng) = Ok Y ->
             same_shape (window 6 3) Y) /\
  (forall Y, result_of (permutation 9 (window 6 3) 2 1 sample_rng) = Ok Y ->
             same_shape (window 6 3) Y) /\
  (forall Y, result_of (rand_sampling (window 6 3) 4 sample_rng) = Ok Y ->
             same_shape (window 6 3) Y) /\
  ((0 <= 1 / 5)%R ->
   (exists Y, result_of (jitter (window 6 3) (1 / 5) sample_rng) = Ok Y) /\
   (exists Y, result_of (scaling (window 6 3) (1 / 5) sample_rng) = Ok Y)) /\
  (shape1 (window 6 3) = 3 ->
   (exists Y, result_of (rotation (window 6 3) sample_rng) = Ok Y) /\
   (6 <= shape0 (window 6 3) -> (0 <= 1 / 5)%R ->
    exists Y, result_of (magnitude_warp (window 6 3) (1 / 5) sample_rng) = Ok Y) /\
   (3 <= shape0 (window 6 3) -> (2 <= 4)%Z ->
    exists Y, result_of (rand_sampling (window 6 3) 4 sample_rng) = Ok Y)).
Proof.
  apply (@returned_shape 9 (window 6 3) (1 / 5)%R 2 1 4 sample_rng).
  apply window_wf.
Defined.

(** C6, as stated, fails: the shape precondition [N = 3] does not make a
    transform return.  On a window of two rows [rand_sampling] with its
    default [nSample = 1000] asks numpy for 998 integers of the empty range
    [[1, 1)] and ends in a [ValueError]; on a window of thirty rows
    [permutation] with its defaults [nPerm = 4], [minSegLength = 10] rejects
    every candidate partition and never returns. *)
Lemma transforms_without_result :
  shape (window 2 3) = (2, 3) /\
  result_of (rand_sampling (window 2 3) 1000 sample_rng) = Raise ValueError /\
  never_returns (fun fuel => result_of (permutation fuel (window 30 3) 4 10 sample_rng)).
Proof.
  split; [reflexivity|]. split; [vm_compute; reflexivity|].
  intros fuel.
  destruct (permutation_run fuel (window 30 3) 4 10 sample_rng) as [idx [_ ->]].
  rewrite search_segs_diverges; [reflexivity| |right].
  - vm_compute. discriminate.
  - vm_compute. split; [discriminate|reflexivity].
Qed.

(** * Further properties of the transforms *)

(** ** Jitter and scaling: the noise *)

Lemma scaling_run (X : ndarray) (sigma : R) (rng : RandomState) :
  (0 <= sigma)%R ->
  scaling X sigma rng
  = Ok (np_mul X (mkArray (shape1 X)
                    (map (fun r => map (fun j => dot r
                                          (column j (normal_rows 1 sigma (1, shape1 X) rng)))
                                       (seq 0 (shape1 X)))
                         (repeat [1%R] (shape0 X)))),
        advance (1 * (shape1 X * 1)) rng).
Proof.
  intros Hs. unfold scaling, bind. rewrite np_random_normal_ok by exact Hs.
  unfold np_matmul, np_ones. cbn [shape1 rowsOf fst snd].
  unfold shape0 at 1. cbn [rowsOf]. rewrite normal_rows_length.
  cbn [fst Nat.eqb lift]. reflexivity.
Qed.

(** X1.  A negative noise scale is refused: [jitter] and [scaling] end in
    numpy's [ValueError] and return nothing. *)
Theorem negative_sigma_refused (X : ndarray) (sigma : R) (rng : RandomState) :
  (sigma < 0)%R ->
  result_of (jitter X sigma rng) = Raise ValueError /\
  result_of (scaling X sigma rng) = Raise ValueError.
Proof.
  intros Hs. unfold jitter, scaling, bind.
  now rewrite !np_random_normal_neg by exact Hs.
Qed.

Lemma negative_sigma_refused_witness :
  result_of (jitter (window 4 3) (-1) sample_rng) = Raise ValueError /\
  result_of (scaling (window 4 3) (-1) sample_rng) = Raise ValueError.
Proof.
  apply (@negative_sigma_refused (window 4 3) (-1)%R sample_rng). lra.
Defined.

(** X2.  [jitter] adds to entry [(i, j)] the noise scale times a normal
    variate of its own, the one drawn at position [i * N + j]: the
    perturbation does not depend on the data. *)
Theorem jitter_entries (X : ndarray) (sigma : R) (rng : RandomState) :
  wf X -> (0 <= sigma)%R ->
  exists Y : ndarray,
    result_of (jitter X sigma rng) = Ok Y /\
    forall i j, i < shape0 X -> j < shape1 X ->
      entry Y i j
      = (entry X i j + sigma * gauss rng (cursor rng + i * shape1 X + j))%R.
Proof.
  intros Hwf Hs. unfold jitter, bind. rewrite np_random_normal_ok by exact Hs.
  eexists. split; [reflexivity|].
  intros i j Hi Hj. unfold entry, np_add, normal_rows, shape. cbn [rowsOf fst snd].
  rewrite (nth_map2 _ _ _ [] [] []);
    [|exact Hi|rewrite length_map, length_seq; exact Hi].
  rewrite nth_map_seq by exact Hi.
  rewrite (nth_map2 _ _ _ 0%R 0%R 0%R);
    [|rewrite wf_nth_length by assumption; exact Hj
     |rewrite length_map, length_seq; exact Hj].
  rewrite nth_map_seq by exact Hj. lra.
Qed.

Lemma jitter_entries_witness :
  exists Y : ndarray,
    result_of (jitter (window 4 3) (1 / 2) sample_rng) = Ok Y /\
    forall i j, i < shape0 (window 4 3) -> j < shape1 (window 4 3) ->
      entry Y i j
      = (entry (window 4 3) i j
         + 1 / 2 * gauss sample_rng
                     (cursor sample_rng + i * shape1 (window 4 3) + j))%R.
Proof.
  apply (@jitter_entries (window 4 3) (1 / 2)%R sample_rng).
  - apply window_wf.
  - lra.
Defined.

(** X3.  With noise scale 0 every scale factor is 1: [scaling(X, 0)]
    returns [X] itself. *)
Theorem scaling_sigma_zero (X : ndarray) (rng : RandomState) :
  wf X -> result_of (scaling X 0 rng) = Ok X.
Proof.
  intros Hwf. rewrite scaling_run by lra. cbn [result_of]. f_equal.
  destruct X as [N rows]. unfold np_mul, shape0 in *. cbn [shape1 rowsOf] in *.
  f_equal. apply map2_fst_id.
  - now rewrite length_map, repeat_length.
  - intros i r z Hr Hz.
    assert (Hlen : length r = N) by (apply (@wf_row (mkArray N rows) i r Hwf Hr)).
    assert (Hi : i < length rows) by (apply nth_error_Some; congruence).
    apply (nth_error_nth _ _ []) in Hz.
    rewrite (nth_map_lt _ _ [1%R]) in Hz by (rewrite repeat_length; exact Hi).
    rewrite nth_repeat_lt in Hz by exact Hi. subst z.
    apply map2_fst_id.
    + now rewrite length_map, length_seq.
    + intros j x e Hx He. apply nth_error_map_seq in He. destruct He as [Hj ->].
      unfold column, normal_rows. cbn [fst snd seq map].
      rewrite nth_map_seq by exact Hj. rewrite dot_single. lra.
Qed.

Lemma scaling_sigma_zero_witness :
  result_of (scaling (window 4 3) 0 sample_rng) = Ok (window 4 3).
Proof.
  apply (@scaling_sigma_zero (window 4 3) sample_rng). apply window_wf.
Defined.

(** ** Rotation is rigid *)

Lemma rodrigues_dot (x y z c s p q w p' q' w' : R) :
  (x * x + y * y + z * z = 1)%R -> (c * c + s * s = 1)%R ->
  let C := (1 - c)%R in
  let xs := (x * s)%R in let ys := (y * s)%R in let zs := (z * s)%R in
  let xC := (x * C)%R in let yC := (y * C)%R in let zC := (z * C)%R in
  let xyC := (x * yC)%R in let yzC := (y * zC)%R in let zxC := (z * xC)%R in
  dot [p * (x * xC + c) + (q * (xyC + zs) + (w * (zxC - ys) + 0));
       p * (xyC - zs) + (q * (y * yC + c) + (w * (yzC + xs) + 0));
       p * (zxC + ys) + (q * (yzC - xs) + (w * (z * zC + c) + 0))]%R
      [p' * (x * xC + c) + (q' * (xyC + zs) + (w' * (zxC - ys) + 0));
       p' * (xyC - zs) + (q' * (y * yC + c) + (w' * (yzC + xs) + 0));
       p' * (zxC + ys) + (q' * (yzC - xs) + (w' * (z * zC + c) + 0))]%R
  = dot [p; q; w] [p'; q'; w'].
Proof.
  intros Hn Hc C xs ys zs xC yC zC xyC yzC zxC.
  subst C xs ys zs xC yC zC xyC yzC zxC.
  unfold dot. cbn [map2 fold_right]. nsatz.
Qed.

(** X4.  [rotation] is rigid: for an [M x 3] array and a non-zero drawn
    axis, the inner product of any two rows of the result is the inner
    product of the same two rows of [X], so that angles and distances
    between timesteps are kept. *)
Theorem rotation_preserves_dot (X : ndarray) (rng : RandomState) :
  wf X -> shape1 X = 3 -> drawn_axis 3 rng <> [0; 0; 0]%R ->
  exists Y : ndarray,
    result_of (rotation X rng) = Ok Y /\
    forall i j, i < shape0 X -> j < shape0 X ->
      dot (nth i (rowsOf Y) []) (nth j (rowsOf Y) [])
      = dot (nth i (rowsOf X) []) (nth j (rowsOf X) []).
Proof.
  intros Hwf HN Hax.
  rewrite rotation_run, HN.
  remember (drawn_angle 3 rng) as angle eqn:Ha. clear Ha.
  unfold drawn_axis in *. cbn [seq map] in *.
  set (x := (-1 + (1 - -1) * unif rng (cursor rng + 0))%R) in *.
  set (y := (-1 + (1 - -1) * unif rng (cursor rng + 1))%R) in *.
  set (z := (-1 + (1 - -1) * unif rng (cursor rng + 2))%R) in *.
  pose proof (unit_axis Hax) as Hunit. cbv zeta in Hunit.
  unfold axangle2mat. cbv zeta.
  remember (sqrt (x * x + y * y + z * z)) as n eqn:Hn. clear Hn.
  remember (x / n)%R as u eqn:Hu. remember (y / n)%R as v eqn:Hv.
  remember (z / n)%R as t eqn:Ht. clear Hu Hv Ht.
  assert (Hcs : (cos angle * cos angle + sin angle * sin angle = 1)%R).
  { pose proof (sin2_cos2 angle) as H. unfold Rsqr in H. lra. }
  remember (cos angle) as c eqn:Hc. remember (sin angle) as s eqn:Hs. clear Hc Hs.
  unfold obind, np_matmul. cbn [shape1 shape0 rowsOf length].
  rewrite HN. cbn [Nat.eqb lift result_of].
  eexists. split; [reflexivity|].
  intros i j Hi Hj. cbn [rowsOf].
  rewrite !(nth_map_lt _ _ []) by assumption.
  pose proof (wf_nth_length Hwf Hi) as Hli. rewrite HN in Hli.
  pose proof (wf_nth_length Hwf Hj) as Hlj. rewrite HN in Hlj.
  destruct (nth i (rowsOf X) []) as [|p [|q [|w [|? ?]]]]; try discriminate.
  destruct (nth j (rowsOf X) []) as [|p' [|q' [|w' [|? ?]]]]; try discriminate.
  rewrite !matmul_row3.
  apply (@rodrigues_dot u v t c s p q w p' q' w' Hunit Hcs).
Qed.

Lemma rotation_preserves_dot_witness :
  exists Y : ndarray,
    result_of (rotation (window 2 3) sample_rng) = Ok Y /\
    forall i j, i < shape0 (window 2 3) -> j < shape0 (window 2 3) ->
      dot (nth i (rowsOf Y) []) (nth j (rowsOf Y) [])
      = dot (nth i (rowsOf (window 2 3)) []) (nth j (rowsOf (window 2 3)) []).
Proof.
  apply (@rotation_preserves_dot (window 2 3) sample_rng).
  - apply window_wf.
  - reflexivity.
  - unfold drawn_axis. cbn [seq map unif cursor sample_rng Nat.add].
    intros H. injection H as _ H _.
    change (INR (1 + 2)) with (1 + 1 + 1)%R in H. lra.
Defined.

(** ** Permutation: when it returns and when it raises *)

(** X5.  [permutation] can only return when there is room for [nPerm]
    segments of more than [minSegLength] rows: [nPerm >= 1] and
    [nPerm * (minSegLength + 1) <= M]. *)
Theorem permutation_needs_room (fuel : nat) (X Y : ndarray) (nPerm minSegLength : Z)
    (rng : RandomState) :
  result_of (permutation fuel X nPerm minSegLength rng) = Ok Y ->
  (1 <= nPerm)%Z /\ (nPerm * (minSegLength + 1) <= Z.of_nat (shape0 X))%Z.
Proof.
  intros Hrun.
  destruct (permutation_run fuel X nPerm minSegLength rng) as [idx [_ Heq]].
  rewrite Heq in Hrun. clear Heq.
  destruct (search_segs fuel (Z.of_nat (shape0 X)) nPerm minSegLength
              (advance (Z.to_nat nPerm - 1) rng)) as [[segs s1]| |] eqn:Hsearch;
    try discriminate.
  apply search_segs_result in Hsearch.
  destruct Hsearch as [mid [-> [Hlen Hacc]]].
  apply accepted_room in Hacc. split; [lia|].
  replace nPerm with (Z.of_nat (length mid) + 1)%Z by lia. exact Hacc.
Qed.

Lemma permutation_needs_room_witness :
  (1 <= 3)%Z /\ (3 * (1 + 1) <= Z.of_nat (shape0 (window 8 1)))%Z.
Proof.
  apply (@permutation_needs_room 5 (window 8 1)
           (mkArray 1 (map (fun i => [INR i]) [6; 7; 0; 1; 2; 3; 4; 5])) 3 1 sample_rng).
  vm_compute. reflexivity.
Defined.

(** X6.  [permutation] ends in numpy's [ValueError] on the first pass of
    its loop when [nPerm] is not positive (a negative number of cut points
    is requested), and when at least one cut point is wanted from an empty
    range, [M - minSegLength <= minSegLength]. *)
Theorem permutation_value_error (fuel : nat) (X : ndarray) (nPerm minSegLength : Z)
    (rng : RandomState) :
  (nPerm <= 0 \/
   (2 <= nPerm /\ Z.of_nat (shape0 X) - minSegLength <= minSegLength))%Z ->
  result_of (permutation (S fuel) X nPerm minSegLength rng) = Raise ValueError.
Proof.
  intros Hbad.
  destruct (permutation_run (S fuel) X nPerm minSegLength rng) as [idx [_ ->]].
  rewrite search_segs_step.
  destruct Hbad as [H0|[H2 Hr]].
  - now rewrite draw_segs_nonpositive by exact H0.
  - now rewrite draw_segs_empty_range by assumption.
Qed.

Lemma permutation_value_error_witness :
  result_of (permutation (S 0) (window 20 3) 4 10 sample_rng) = Raise ValueError.
Proof.
  apply (@permutation_value_error 0 (window 20 3) 4 10 sample_rng).
  right. vm_compute. split; discriminate.
Defined.

(** X7.  With a single segment there is nothing to reorder: for
    [nPerm = 1] and [M - minSegLength > minSegLength], [permutation] returns
    [X] itself on the first pass. *)
Theorem permutation_single_segment (fuel : nat) (X : ndarray) (minSegLength : Z)
    (rng : RandomState) :
  (minSegLength < Z.of_nat (shape0 X) - minSegLength)%Z ->
  result_of (permutation (S fuel) X 1 minSegLength rng) = Ok X.
Proof.
  intros Hroom.
  set (M := shape0 X).
  assert (Hidx : np_random_permutation 1 rng = Ok ([0], rng)) by reflexivity.
  unfold permutation, bind at 1. rewrite Hidx.
  unfold bind at 1. rewrite search_segs_step, draw_segs_single.
  assert (Hacc : accepted [0%Z; Z.of_nat (shape0 X)] minSegLength = Ok true).
  { unfold accepted. rewrite segs_differences. cbn [gaps tl map2 np_min fold_left obind].
    f_equal. apply Z.ltb_lt. fold M in Hroom |- *. lia. }
  rewrite Hacc. unfold bind, lift.
  assert (Hplace : place_all (rowsOf X) [0%Z; Z.of_nat (shape0 X)] [0]
                     (rowsOf (np_zeros (shape X)), 0)
                   = Ok (rowsOf X, shape0 X)).
  { pose proof (@place_all_ok (rowsOf X) [0%Z; Z.of_nat (shape0 X)] [0] []
                  (rowsOf (np_zeros (shape X)))) as H.
    assert (Hseg : nth 0 (slices (rowsOf X) [0%Z; Z.of_nat (shape0 X)]) [] = rowsOf X).
    { cbn [slices nth]. change 0%Z with (Z.of_nat 0).
      rewrite py_slice_nat by (unfold shape0; lia).
      cbn [skipn]. rewrite Nat.sub_0_r. apply firstn_all. }
    cbn [map concat] in H. rewrite Hseg, app_nil_r in H.
    assert (Hz : length (rowsOf (np_zeros (shape X))) = shape0 X)
      by (unfold np_zeros, shape; cbn [rowsOf fst snd]; apply repeat_length).
    cbn [app length Nat.add] in H. rewrite H.
    - rewrite skipn_all2 by (rewrite Hz; unfold shape0; lia).
      now rewrite app_nil_r.
    - repeat constructor.
    - rewrite Hz. unfold shape0. lia. }
  rewrite Hplace. unfold ret. cbn [result_of fst]. now destruct X.
Qed.

Lemma permutation_single_segment_witness :
  result_of (permutation (S 0) (window 20 3) 1 5 sample_rng) = Ok (window 20 3).
Proof.
  apply (@permutation_single_segment 0 (window 20 3) 5 sample_rng).
  vm_compute. reflexivity.
Defined.

(** ** Random sampling: refused parameters and untouched channels *)

(** X8.  [rand_sampling] ends in numpy's [ValueError] when fewer than two
    sample points are asked for, and when interior points are wanted
    ([nSample > 2]) from a window of fewer than three rows, which has no
    interior. *)
Theorem rand_sampling_value_error (X : ndarray) (nSample : Z) (rng : RandomState) :
  (nSample < 2 \/ (2 < nSample /\ Z.of_nat (shape0 X) < 3))%Z ->
  result_of (rand_sampling X nSample rng) = Raise ValueError.
Proof.
  intros Hbad. unfold rand_sampling, rand_sample_timesteps, bind at 1, bind at 1.
  unfold np_zeros_int.
  destruct (Z.ltb_spec nSample 0) as [Hneg|Hnn]; [reflexivity|].
  cbn [obind lift]. unfold bind at 1, sample_column, bind at 1.
  destruct Hbad as [Hlt|[Hgt HM]].
  - now rewrite np_random_randint_negative by lia.
  - now rewrite np_random_randint_empty_range by lia.
Qed.

Lemma rand_sampling_value_error_witness :
  result_of (rand_sampling (window 5 3) 1 sample_rng) = Raise ValueError.
Proof.
  apply (@rand_sampling_value_error (window 5 3) 1 sample_rng). left. lia.
Defined.

(** X9.  [rand_sampling] resamples the first three channels only: on an
    array with more channels, every entry of a channel beyond the third is 0
    in the result. *)
Theorem rand_sampling_extra_channels (X : ndarray) (nSample : Z) (rng : RandomState) :
  (2 <= nSample)%Z -> 3 <= shape0 X -> 3 <= shape1 X ->
  exists Y : ndarray,
    result_of (rand_sampling X nSample rng) = Ok Y /\
    forall i c, i < shape0 X -> 3 <= c -> c < shape1 X -> entry Y i c = 0%R.
Proof.
  intros Hn HM HN.
  destruct (@rand_sampling_run X nSample rng Hn HM HN)
    as [t0 [t1 [t2 [s' [_ [_ [_ Hrun]]]]]]].
  rewrite Hrun. eexists. split; [reflexivity|].
  intros i c Hi Hc3 Hc. unfold entry. cbn [rowsOf].
  assert (Hz : length (rowsOf (np_zeros (shape X))) = shape0 X)
    by (unfold np_zeros, shape; cbn [rowsOf fst snd]; apply repeat_length).
  rewrite (nth_map2 _ _ _ [] 0%R []);
    [|rewrite !map2_length, !resampled_length, Hz; lia|rewrite resampled_length; lia].
  rewrite (nth_map2 _ _ _ [] 0%R []);
    [|rewrite !map2_length, !resampled_length, Hz; lia|rewrite resampled_length; lia].
  rewrite (nth_map2 _ _ _ [] 0%R []);
    [|rewrite Hz; lia|rewrite resampled_length; lia].
  unfold np_zeros, shape. cbn [rowsOf fst snd]. rewrite nth_repeat_lt by exact Hi.
  set (r0 := repeat 0%R (shape1 X)).
  assert (L0 : length r0 = shape1 X) by apply repeat_length.
  set (r1 := list_set r0 0 _).
  assert (L1 : length r1 = shape1 X) by (unfold r1; rewrite list_set_length; lia).
  set (r2 := list_set r1 1 _).
  assert (L2 : length r2 = shape1 X) by (unfold r2; rewrite list_set_length; lia).
  rewrite nth_list_set by lia. destruct (Nat.eqb_spec c 2); [lia|].
  unfold r2. rewrite nth_list_set by lia. destruct (Nat.eqb_spec c 1); [lia|].
  unfold r1. rewrite nth_list_set by lia. destruct (Nat.eqb_spec c 0); [lia|].
  now apply nth_repeat_lt.
Qed.

Lemma rand_sampling_extra_channels_witness :
  exists Y : ndarray,
    result_of (rand_sampling (window 4 5) 3 sample_rng) = Ok Y /\
    forall i c, i < shape0 (window 4 5) -> 3 <= c -> c < shape1 (window 4 5) ->
                entry Y i c = 0%R.
Proof.
  apply (@rand_sampling_extra_channels (window 4 5) 3 sample_rng).
  - lia.
  - vm_compute. lia.
  - vm_compute. lia.
Defined.

(** ** Random sampling: the sample positions are in order *)

Lemma sorted_positions_sample (M : Z) (n : nat) (a : Z) (t : list Z) :
  sorted_positions M n a t -> sample_positions M n a t.
Proof. intros [d [Ht [Hlen [Hr _]]]]. exists d. auto. Qed.

Lemma sample_column_sorted (M nSample : Z) (c : nat) (tt : int_cols) (s : RandomState) :
  (2 <= nSample)%Z -> (3 <= M)%Z ->
  nth_error tt c = Some (repeat 0%Z (Z.to_nat nSample)) ->
  exists t s',
    sample_column M nSample c tt s = Ok (list_set tt c t, s') /\
    sorted_positions M (Z.to_nat nSample) 0 t.
Proof.
  intros Hn HM Hc. unfold sample_column, bind.
  destruct (@np_random_randint_total 1 (M - 1) (nSample - 2) s) as [draws [s' [-> [Hlen Hin]]]];
    try lia.
  unfold lift, set_interior. rewrite Hc.
  replace (Z.to_nat nSample) with (length (np_sort draws) + 2)
    by (rewrite np_sort_length; lia).
  rewrite set_interior_zeros by reflexivity. cbn [obind].
  eexists. eexists. split; [reflexivity|].
  exists (np_sort draws). repeat split.
  - now apply np_sort_Forall.
  - apply np_sort_sorted.
Qed.

Lemma set_last_sorted (M : Z) (n : nat) (a b : Z) (t : list Z) :
  sorted_positions M n a t ->
  sorted_positions M n b (list_set t (length t - 1) b).
Proof.
  intros [d [-> [Hlen [Hin Hs]]]]. exists d. repeat split; try assumption.
  pose proof (set_last d a b) as H. unfold py_setitem in H.
  rewrite py_index_last in H by (cbn; lia). cbn [obind] in H. now injection H.
Qed.

Lemma rand_sample_timesteps_sorted (X : ndarray) (nSample : Z) (s : RandomState) :
  (2 <= nSample)%Z -> 3 <= shape0 X -> 3 <= shape1 X ->
  exists tt s',
    rand_sample_timesteps X nSample s = Ok (tt, s') /\
    length tt = shape1 X /\
    forall c, c < 3 ->
      exists t, nth_error tt c = Some t /\
                sorted_positions (Z.of_nat (shape0 X)) (Z.to_nat nSample)
                                 (Z.of_nat (shape0 X) - 1) t.
Proof.
  intros Hn HM HN. unfold rand_sample_timesteps.
  set (M := Z.of_nat (shape0 X)). set (n := Z.to_nat nSample).
  set (z := repeat 0%Z n).
  assert (HM' : (3 <= M)%Z) by (unfold M; lia).
  assert (HN0 : 0 < shape1 X) by lia.
  assert (Hz : np_zeros_int nSample = Ok z).
  { unfold np_zeros_int. destruct (Z.ltb_spec nSample 0); [lia|reflexivity]. }
  unfold bind at 1. rewrite Hz. cbn [obind lift].
  set (tt0 := repeat z (shape1 X)).
  assert (H0 : forall c, c < shape1 X -> nth_error tt0 c = Some z).
  { intros c Hc. unfold tt0. rewrite nth_error_repeat by exact Hc. reflexivity. }
  assert (Hl0 : length tt0 = shape1 X) by apply repeat_length.
  destruct (@sample_column_sorted M nSample 0 tt0 s Hn HM' (H0 0 HN0))
    as [t0 [s0 [E0 P0]]].
  unfold bind at 1. rewrite E0.
  set (tt1 := list_set tt0 0 t0).
  assert (Hl1 : length tt1 = shape1 X) by (unfold tt1; rewrite list_set_length; lia).
  assert (H1 : nth_error tt1 1 = Some z)
    by (unfold tt1; rewrite nth_error_list_set by lia; apply H0; lia).
  destruct (@sample_column_sorted M nSample 1 tt1 s0 Hn HM' H1) as [t1 [s1 [E1 P1]]].
  unfold bind at 1. rewrite E1.
  set (tt2 := list_set tt1 1 t1).
  assert (Hl2 : length tt2 = shape1 X) by (unfold tt2; rewrite list_set_length; lia).
  assert (H2 : nth_error tt2 2 = Some z).
  { unfold tt2. rewrite nth_error_list_set by lia. cbn [Nat.eqb].
    unfold tt1. rewrite nth_error_list_set by lia. apply H0. lia. }
  destruct (@sample_column_sorted M nSample 2 tt2 s1 Hn HM' H2) as [t2 [s2 [E2 P2]]].
  unfold bind at 1. rewrite E2.
  set (tt3 := list_set tt2 2 t2).
  assert (Hl3 : length tt3 = shape1 X) by (unfold tt3; rewrite list_set_length; lia).
  pose proof (sample_positions_length (sorted_positions_sample P0)) as L0.
  pose proof (sample_positions_length (sorted_positions_sample P1)) as L1.
  pose proof (sample_positions_length (sorted_positions_sample P2)) as L2.
  assert (Hcols : forall c col, nth_error tt3 c = Some col -> length col = n).
  { intros c col. unfold tt3. rewrite nth_error_list_set by lia.
    destruct (Nat.eqb_spec c 2); [intros [= <-]; exact L2|].
    unfold tt2. rewrite nth_error_list_set by lia.
    destruct (Nat.eqb_spec c 1); [intros [= <-]; exact L1|].
    unfold tt1. rewrite nth_error_list_set by lia.
    destruct (Nat.eqb_spec c 0); [intros [= <-]; exact L0|].
    intros Hc. assert (Hlt : c < length tt0) by (apply nth_error_Some; congruence).
    rewrite H0 in Hc by lia. injection Hc as <-. apply repeat_length. }
  assert (Hpos : Forall (fun col => 0 < length col) tt3).
  { apply Forall_forall. intros col Hin. apply In_nth_error in Hin.
    destruct Hin as [c Hc]. rewrite (Hcols c col Hc). lia. }
  unfold lift. rewrite (set_last_row_ok (M - 1) Hpos).
  eexists. eexists. split; [reflexivity|]. split; [now rewrite length_map|].
  intros c Hc. rewrite nth_error_map.
  unfold tt3. rewrite nth_error_list_set by lia.
  unfold tt2. rewrite nth_error_list_set by lia.
  unfold tt1. rewrite nth_error_list_set by lia.
  destruct c as [|[|[|c]]]; try lia; cbn [Nat.eqb option_map];
    eexists; (split; [reflexivity|]); eapply set_last_sorted; eassumption.
Qed.

Lemma StronglySorted_snoc (d : list Z) (b : Z) :
  StronglySorted Z.le d -> Forall (fun x => (x <= b)%Z) d ->
  StronglySorted Z.le (d ++ [b]).
Proof.
  induction 1 as [|x d Hs IH Hx]; intros Hall; cbn [app].
  - repeat constructor.
  - inversion Hall; subst. constructor; [now apply IH|].
    apply Forall_app. split; [exact Hx|]. repeat constructor. assumption.
Qed.

Lemma LocallySorted_Strongly (d : list Z) :
  LocallySorted Z.le d -> StronglySorted Z.le d.
Proof.
  intros H. apply Sorted_StronglySorted.
  - intros x y z. apply Z.le_trans.
  - now apply Sorted_LocallySorted_iff.
Qed.

Lemma sorted_positions_strongly (M : Z) (n : nat) (t : list Z) :
  (3 <= M)%Z -> sorted_positions M n (M - 1) t -> StronglySorted Z.le t.
Proof.
  intros HM [d [-> [_ [Hr Hs]]]]. constructor.
  - apply StronglySorted_snoc; [now apply LocallySorted_Strongly|].
    eapply Forall_impl; [|exact Hr]. cbn. intros; lia.
  - apply Forall_app. split.
    + eapply Forall_impl; [|exact Hr]. cbn. intros; lia.
    + repeat constructor. lia.
Qed.

(** X10.  On at least three rows and channels and for [nSample >= 2],
    [rand_sample_timesteps] returns one column of positions per channel;
    each of the columns 0, 1 and 2 holds [nSample] row numbers of the window
    in non-decreasing order, the first of them 0 and the last [M - 1]. *)
Theorem rand_sample_timesteps_columns (X : ndarray) (nSample : Z) (rng : RandomState) :
  (2 <= nSample)%Z -> 3 <= shape0 X -> 3 <= shape1 X ->
  exists tt : int_cols,
    result_of (rand_sample_timesteps X nSample rng) = Ok tt /\
    length tt = shape1 X /\
    forall c, c < 3 ->
      exists t, nth_error tt c = Some t /\
        length t = Z.to_nat nSample /\
        nth 0 t 0%Z = 0%Z /\
        nth (length t - 1) t 0%Z = (Z.of_nat (shape0 X) - 1)%Z /\
        StronglySorted Z.le t /\
        Forall (fun i => (0 <= i < Z.of_nat (shape0 X))%Z) t.
Proof.
  intros Hn HM HN.
  destruct (rand_sample_timesteps_sorted X rng Hn HM HN) as [tt [s' [Hrun [Hlen Hcols]]]].
  exists tt. rewrite Hrun. split; [reflexivity|]. split; [exact Hlen|].
  intros c Hc. destruct (Hcols c Hc) as [t [Ht Hp]].
  exists t. split; [exact Ht|].
  pose proof (sorted_positions_sample Hp) as Hsp.
  split; [exact (sample_positions_length Hsp)|].
  split; [destruct Hp as [d [-> _]]; reflexivity|].
  split.
  - destruct Hp as [d [-> _]]. cbn [length]. rewrite length_app. cbn [length].
    replace (S (length d + 1) - 1) with (S (length d)) by lia. cbn [nth].
    rewrite app_nth2 by lia. now rewrite Nat.sub_diag.
  - split.
    + eapply sorted_positions_strongly; [|exact Hp]. lia.
    + eapply sample_positions_range; [|exact Hsp]. lia.
Qed.

Lemma rand_sample_timesteps_columns_witness :
  exists tt : int_cols,
    result_of (rand_sample_timesteps (window 5 3) 6 sample_rng) = Ok tt /\
    length tt = shape1 (window 5 3) /\
    forall c, c < 3 ->
      exists t, nth_error tt c = Some t /\
        length t = Z.to_nat 6 /\
        nth 0 t 0%Z = 0%Z /\
        nth (length t - 1) t 0%Z = (Z.of_nat (shape0 (window 5 3)) - 1)%Z /\
        StronglySorted Z.le t /\
        Forall (fun i => (0 <= i < Z.of_nat (shape0 (window 5 3)))%Z) t.
Proof.
  apply (@rand_sample_timesteps_columns (window 5 3) 6 sample_rng).
  - lia.
  - vm_compute. lia.
  - vm_compute. lia.
Defined.

(** ** Random sampling: the samples themselves are kept *)

Lemma scan_le_bound (key : R) (l : list R) : scan_le key l <= length l.
Proof.
  induction l as [|a l IH]; cbn [scan_le length]; [lia|].
  destruct (Rlt_dec key a); lia.
Qed.

(** In a non-decreasing list of positions the search for one of its members
    stops at a position holding that member. *)
Lemma scan_le_finds (l : list Z) (a x : Z) :
  StronglySorted Z.le (a :: l) -> In x (a :: l) ->
  nth (scan_le (IZR x) (map IZR l)) (a :: l) 0%Z = x.
Proof.
  revert a. induction l as [|b l IH]; intros a Hs Hin.
  - destruct Hin as [<-|[]]. reflexivity.
  - inversion Hs as [|? ? Hs' Ha]; subst. inversion Ha as [|? ? Hab _]; subst.
    cbn [map scan_le]. destruct (Rlt_dec (IZR x) (IZR b)) as [Hlt|Hge].
    + apply lt_IZR in Hlt. destruct Hin as [<-|Hin]; [reflexivity|].
      inversion Hs' as [|? ? _ Hb]; subst.
      destruct Hin as [<-|Hin]; [lia|].
      rewrite Forall_forall in Hb. specialize (Hb x Hin). lia.
    + assert (Hbx : (b <= x)%Z).
      { destruct (Z.le_gt_cases b x) as [H|H]; [exact H|].
        exfalso. apply Hge. apply IZR_lt. lia. }
      change (nth (S ?j) (a :: ?r) ?d) with (nth j r d).
      apply IH; [exact Hs'|].
      destruct Hin as [<-|Hin]; [left; lia|exact Hin].
Qed.

(** Interpolating through the points [(t_j, f t_j)] returns [f x] at every
    [x] among the [t_j]. *)
Lemma interp1_at_sample (f : Z -> R) (t : list Z) (x : Z) :
  2 <= length t -> StronglySorted Z.le t -> In x t ->
  interp1 (map IZR t) (map f t) (IZR x) = f x.
Proof.
  intros Hlen Hs Hin. unfold interp1. rewrite length_map.
  destruct (Nat.eqb_spec (length t) 1) as [H|_]; [lia|].
  destruct t as [|a l]; [inversion Hin|].
  assert (Hfirst : (a <= x)%Z).
  { inversion Hs as [|? ? _ Ha]; subst. destruct Hin as [<-|Hin]; [lia|].
    rewrite Forall_forall in Ha. now apply Ha. }
  assert (Hj := scan_le_bound (IZR x) (map IZR l)). rewrite length_map in Hj.
  assert (Hfound := scan_le_finds Hs Hin).
  assert (Hlast : (x <= nth (length (a :: l) - 1) (a :: l) 0)%Z).
  { clear Hfound Hj Hfirst Hlen. revert a Hs Hin.
    induction l as [|b l IH]; intros a Hs Hin.
    - destruct Hin as [<-|[]]. cbn. lia.
    - inversion Hs as [|? ? Hs' Ha]; subst.
      replace (length (a :: b :: l) - 1) with (S (length (b :: l) - 1))
        by (cbn [length]; lia).
      change (nth (S ?j) (a :: ?r) ?d) with (nth j r d).
      destruct Hin as [<-|Hin]; [|now apply IH].
      rewrite Forall_forall in Ha. apply Ha. apply nth_In. cbn [length]. lia. }
  set (j := scan_le (IZR x) (map IZR l)) in *.
  assert (Hjl : j < length (a :: l)) by (cbn [length]; lia).
  change (interp_search (IZR x) (map IZR (a :: l))) with j. cbv zeta.
  rewrite (@nth_map_lt _ _ IZR (a :: l) (length (a :: l) - 1) 0%Z 0%R)
    by (cbn [length]; lia).
  destruct (Rlt_dec _ (IZR x)) as [H|_]; [apply lt_IZR in H; lia|].
  change (nth 0 (map IZR (a :: l)) 0%R) with (IZR a).
  destruct (Rlt_dec (IZR x) (IZR a)) as [H|_]; [apply lt_IZR in H; lia|].
  rewrite (@nth_map_lt _ _ f (a :: l) j 0%Z 0%R Hjl).
  rewrite (@nth_map_lt _ _ IZR (a :: l) j 0%Z 0%R Hjl).
  rewrite Hfound.
  destruct (Nat.eqb j (length (a :: l) - 1)); [reflexivity|].
  destruct (Req_dec_T (IZR x) (IZR x)) as [_|H]; [reflexivity|congruence].
Qed.

(** The array [rand_sampling] builds from given columns of positions. *)
Lemma rand_sampling_from_columns (X : ndarray) (nSample : Z) (rng s' : RandomState)
    (tt : int_cols) (n : nat) (t0 t1 t2 : list Z) :
  rand_sample_timesteps X nSample rng = Ok (tt, s') ->
  nth_error tt 0 = Some t0 -> nth_error tt 1 = Some t1 -> nth_error tt 2 = Some t2 ->
  (forall t, In t [t0; t1; t2] ->
     sample_positions (Z.of_nat (shape0 X)) n (Z.of_nat (shape0 X) - 1) t) ->
  1 <= shape0 X -> 3 <= shape1 X ->
  rand_sampling X nSample rng
  = Ok (mkArray (shape1 X)
          (map2 (fun r a => list_set r 2 a)
             (map2 (fun r a => list_set r 1 a)
                (map2 (fun r a => list_set r 0 a)
                   (rowsOf (np_zeros (shape X))) (resampled X 0 t0))
                (resampled X 1 t1))
             (resampled X 2 t2)),
        s').
Proof.
  intros Hrun H0 H1 H2 HP HM HN.
  assert (P0 := HP t0 ltac:(cbn; auto)).
  assert (P1 := HP t1 ltac:(cbn; auto)).
  assert (P2 := HP t2 ltac:(cbn; auto)).
  unfold rand_sampling, bind. rewrite Hrun. unfold lift.
  assert (Hz : shape (np_zeros (shape X)) = shape X).
  { unfold np_zeros, shape, shape0. cbn [rowsOf shape1 fst snd]. now rewrite repeat_length. }
  rewrite (@resample_column_ok X _ tt 0 n t0 H0 ltac:(lia) ltac:(lia) Hz P0). cbn [obind].
  assert (Hlen0 : length (rowsOf (np_zeros (shape X))) = shape0 X)
    by (unfold np_zeros, shape; cbn [rowsOf fst snd]; apply repeat_length).
  rewrite (@resample_column_ok X _ tt 1 n t1 H1 ltac:(lia) ltac:(lia));
    [|apply set_col_shape; [exact Hlen0|apply resampled_length] | exact P1].
  cbn [obind rowsOf].
  rewrite (@resample_column_ok X _ tt 2 n t2 H2 ltac:(lia) ltac:(lia));
    [reflexivity| | exact P2].
  apply set_col_shape; [|apply resampled_length].
  now rewrite map2_length, resampled_length, Hlen0, Nat.min_id.
Qed.

(** The entries of the first three channels of the result are the
    interpolated columns. *)
Lemma resampled_entry (X : ndarray) (t0 t1 t2 : list Z) (i c : nat) :
  i < shape0 X -> 3 <= shape1 X -> c < 3 ->
  entry (mkArray (shape1 X)
          (map2 (fun r a => list_set r 2 a)
             (map2 (fun r a => list_set r 1 a)
                (map2 (fun r a => list_set r 0 a)
                   (rowsOf (np_zeros (shape X))) (resampled X 0 t0))
                (resampled X 1 t1))
             (resampled X 2 t2))) i c
  = nth i (resampled X c (nth c [t0; t1; t2] [])) 0%R.
Proof.
  intros Hi HN Hc. unfold entry. cbn [rowsOf].
  assert (Hz : length (rowsOf (np_zeros (shape X))) = shape0 X)
    by (unfold np_zeros, shape; cbn [rowsOf fst snd]; apply repeat_length).
  rewrite (nth_map2 _ _ _ [] 0%R []);
    [|rewrite !map2_length, !resampled_length, Hz; lia|rewrite resampled_length; lia].
  rewrite (nth_map2 _ _ _ [] 0%R []);
    [|rewrite !map2_length, !resampled_length, Hz; lia|rewrite resampled_length; lia].
  rewrite (nth_map2 _ _ _ [] 0%R []);
    [|rewrite Hz; lia|rewrite resampled_length; lia].
  unfold np_zeros, shape. cbn [rowsOf fst snd]. rewrite nth_repeat_lt by exact Hi.
  set (r0 := repeat 0%R (shape1 X)).
  assert (L0 : length r0 = shape1 X) by apply repeat_length.
  set (r1 := list_set r0 0 _).
  assert (L1 : length r1 = shape1 X) by (unfold r1; rewrite list_set_length; lia).
  set (r2 := list_set r1 1 _).
  assert (L2 : length r2 = shape1 X) by (unfold r2; rewrite list_set_length; lia).
  rewrite nth_list_set by lia.
  destruct c as [|[|[|c]]]; try lia; reflexivity.
Qed.

(** X11.  [rand_sampling] keeps every sample: at each row number that
    [rand_sample_timesteps] (run on the same generator state) puts into the
    column of one of the first three channels, the returned array holds the
    value [X] has at that row in that channel. *)
Theorem rand_sampling_exact_at_samples (X : ndarray) (nSample : Z) (rng : RandomState) :
  (2 <= nSample)%Z -> 3 <= shape0 X -> 3 <= shape1 X ->
  exists (tt : int_cols) (Y : ndarray),
    result_of (rand_sample_timesteps X nSample rng) = Ok tt /\
    result_of (rand_sampling X nSample rng) = Ok Y /\
    forall c t k, c < 3 -> nth_error tt c = Some t -> In k t ->
      entry Y (Z.to_nat k) c = entry X (Z.to_nat k) c.
Proof.
  intros Hn HM HN.
  destruct (rand_sample_timesteps_sorted X rng Hn HM HN) as [tt [s' [Hrun [Hlen Hcols]]]].
  destruct (Hcols 0 ltac:(lia)) as [t0 [H0 P0]].
  destruct (Hcols 1 ltac:(lia)) as [t1 [H1 P1]].
  destruct (Hcols 2 ltac:(lia)) as [t2 [H2 P2]].
  assert (HP : forall t, In t [t0; t1; t2] ->
             sorted_positions (Z.of_nat (shape0 X)) (Z.to_nat nSample)
                              (Z.of_nat (shape0 X) - 1) t).
  { intros t [<-|[<-|[<-|[]]]]; assumption. }
  assert (Hsampling := @rand_sampling_from_columns X nSample rng s' tt (Z.to_nat nSample)
                         t0 t1 t2 Hrun H0 H1 H2
                         (fun t Ht => sorted_positions_sample (HP t Ht))
                         ltac:(lia) HN).
  exists tt. eexists. rewrite Hrun, Hsampling. split; [reflexivity|]. split; [reflexivity|].
  intros c t k Hc Ht Hk.
  assert (Htc : t = nth c [t0; t1; t2] []).
  { destruct c as [|[|[|c]]]; try lia; cbn [nth]; congruence. }
  assert (Hin : In t [t0; t1; t2]).
  { rewrite Htc. apply nth_In. cbn [length]. exact Hc. }
  assert (Hs := HP t Hin).
  assert (Hr : (0 <= k < Z.of_nat (shape0 X))%Z).
  { assert (Hall := @sample_positions_range (Z.of_nat (shape0 X)) (Z.to_nat nSample) t
                      ltac:(lia) (sorted_positions_sample Hs)).
    rewrite Forall_forall in Hall. now apply Hall. }
  rewrite resampled_entry by lia. rewrite <- Htc.
  rewrite nth_resampled by lia.
  rewrite INR_IZR_INZ, Z2Nat.id by lia.
  rewrite interp1_at_sample.
  - apply nth_column. lia.
  - rewrite (sample_positions_length (sorted_positions_sample Hs)). lia.
  - eapply sorted_positions_strongly; [|exact Hs]. lia.
  - exact Hk.
Qed.

Lemma rand_sampling_exact_at_samples_witness :
  exists (tt : int_cols) (Y : ndarray),
    result_of (rand_sample_timesteps (window 5 3) 4 sample_rng) = Ok tt /\
    result_of (rand_sampling (window 5 3) 4 sample_rng) = Ok Y /\
    forall c t k, c < 3 -> nth_error tt c = Some t -> In k t ->
      entry Y (Z.to_nat k) c = entry (window 5 3) (Z.to_nat k) c.
Proof.
  apply (@rand_sampling_exact_at_samples (window 5 3) 4 sample_rng).
  - lia.
  - vm_compute. lia.
  - vm_compute. lia.
Defined.

(** ** Random curves without spread *)

Lemma diff_constant (v : R) (ys : list R) :
  Forall (fun y => y = v) ys -> Forall (fun d => d = 0%R) (diff ys).
Proof.
  induction 1 as [|a ys Ha Hys IH]; [constructor|].
  destruct ys as [|b ys]; [constructor|].
  change (diff (a :: b :: ys)) with ((b - a)%R :: diff (b :: ys)).
  constructor; [|exact IH]. inversion Hys; subst. lra.
Qed.

Lemma quotients_of_zero (num den : list R) :
  Forall (fun d => d = 0%R) num -> Forall (fun q => q = 0%R) (map2 Rdiv num den).
Proof.
  intros H. revert den. induction H as [|a num Ha _ IH]; intros [|b den]; cbn [map2];
    constructor; [|apply IH]. subst a. unfold Rdiv. ring.
Qed.

Lemma nth_of_zeros (l : list R) (i : nat) :
  Forall (fun d => d = 0%R) l -> nth i l 0%R = 0%R.
Proof.
  intros H. revert i. induction H as [|a l Ha _ IH]; intros [|i]; cbn [nth]; auto.
Qed.

Lemma spline_row_rhs_zero (n : nat) (xs dx slope : list R) (r : nat) :
  Forall (fun q => q = 0%R) slope -> snd (spline_row n xs dx slope r) = 0%R.
Proof.
  intros H. unfold spline_row.
  destruct (Nat.eqb n 3).
  - destruct r as [|[|r]]; cbn [snd]; rewrite ?(nth_of_zeros _ H); ring.
  - destruct (Nat.eqb r 0); [|destruct (Nat.eqb r (n - 1))]; cbn [snd];
      rewrite ?(nth_of_zeros _ H); unfold Rdiv; ring.
Qed.

Lemma eliminate_rhs_zero (rows : list tri_row) (c d : R) :
  d = 0%R -> Forall (fun r => snd r = 0%R) rows ->
  Forall (fun cd => snd cd = 0%R) (eliminate rows c d).
Proof.
  intros Hd H. revert c d Hd. induction H as [|[[[a b] c'] d'] rows Hr _ IH];
    intros c d Hd; cbn [eliminate]; constructor.
  - cbn [snd] in *. subst. unfold Rdiv. ring.
  - apply IH. cbn [snd] in *. subst. unfold Rdiv. ring.
Qed.

Lemma back_substitute_zero (cd : list (R * R)) :
  Forall (fun p => snd p = 0%R) cd -> Forall (fun s => s = 0%R) (back_substitute cd).
Proof.
  induction 1 as [|[c d] cd Hd _ IH]; cbn [back_substitute]; constructor; [|exact IH].
  cbn [snd] in Hd. subst d.
  destruct (back_substitute cd) as [|s0 s]; cbn [hd]; [ring|].
  inversion IH; subst. ring.
Qed.

(** Through equal values the spline has derivative zero at every knot. *)
Lemma knot_derivatives_constant (xs ys : list R) (v : R) :
  Forall (fun y => y = v) ys -> Forall (fun s => s = 0%R) (knot_derivatives xs ys).
Proof.
  intros H. unfold knot_derivatives.
  assert (Hsl : Forall (fun q => q = 0%R) (map2 Rdiv (diff ys) (diff xs)))
    by (apply quotients_of_zero; now apply (diff_constant (v := v))).
  destruct (Nat.eqb (length xs) 2).
  - repeat constructor; now apply nth_of_zeros.
  - apply back_substitute_zero. apply eliminate_rhs_zero; [reflexivity|].
    apply Forall_forall. intros row Hrow. apply in_map_iff in Hrow.
    destruct Hrow as [r [<- _]]. now apply spline_row_rhs_zero.
Qed.

Lemma pieces_constant (xs ys s : list R) (v : R) :
  Forall (fun y => y = v) ys -> Forall (fun d => d = 0%R) s ->
  Forall (fun p => forall x, piece_value p x = v) (pieces xs ys s).
Proof.
  revert ys s. induction xs as [|x0 xs IH]; intros ys s Hy Hs; [constructor|].
  destruct xs as [|x1 xs]; [destruct ys, s; constructor|].
  destruct ys as [|y0 [|y1 ys]]; [constructor|constructor|].
  destruct s as [|s0 [|s1 s]]; [constructor|constructor|].
  change (pieces (x0 :: x1 :: xs) (y0 :: y1 :: ys) (s0 :: s1 :: s))
    with (mkPiece x0 x1
            (((s0 + s1 - 2 * ((y1 - y0) / (x1 - x0))) / (x1 - x0)) / (x1 - x0))
            ((((y1 - y0) / (x1 - x0)) - s0) / (x1 - x0)
             - ((s0 + s1 - 2 * ((y1 - y0) / (x1 - x0))) / (x1 - x0)))
            s0 y0
          :: pieces (x1 :: xs) (y1 :: ys) (s1 :: s)).
  inversion Hy as [|? ? Hy0 Hy']; subst. inversion Hy' as [|? ? Hy1 _]; subst.
  inversion Hs as [|? ? Hs0 Hs']; subst. inversion Hs' as [|? ? Hs1 _]; subst.
  constructor.
  - intros x. unfold piece_value. cbn [p_left c0 c1 c2 c3]. unfold Rdiv. ring.
  - now apply IH.
Qed.

Lemma ppoly_constant (ps : list piece) (v x : R) :
  ps <> [] -> Forall (fun p => forall x, piece_value p x = v) ps -> ppoly ps x = v.
Proof.
  intros Hne H. induction H as [|p ps Hp Hps IH]; [congruence|].
  destruct ps as [|q ps]; [apply Hp|].
  change (ppoly (p :: q :: ps) x)
    with (if Rlt_dec x (p_right p) then piece_value p x else ppoly (q :: ps) x).
  destruct (Rlt_dec x (p_right p)); [apply Hp|]. apply IH. discriminate.
Qed.

Lemma pieces_nonempty (xs ys s : list R) :
  2 <= length xs -> length ys = length xs -> length s = length xs ->
  pieces xs ys s <> [].
Proof.
  intros Hx Hy Hs.
  destruct xs as [|x0 [|x1 xs]]; cbn [length] in *; try lia.
  destruct ys as [|y0 [|y1 ys]]; cbn [length] in *; try lia.
  destruct s as [|s0 [|s1 s]]; cbn [length] in *; try lia.
  discriminate.
Qed.

Lemma curve_values_no_spread (X : ndarray) (rng : RandomState) (c : nat) :
  c < shape1 X -> Forall (fun y => y = 1%R) (curve_values X 0 rng c).
Proof.
  intros Hc. unfold curve_values, column, normal_rows. cbn [fst snd].
  apply Forall_forall. intros y Hy.
  apply in_map_iff in Hy. destruct Hy as [r [<- Hr]].
  apply in_map_iff in Hr. destruct Hr as [i [<- _]].
  rewrite nth_map_seq by exact Hc. lra.
Qed.

(** With [sigma = 0] every control value is 1, and so is the curve. *)
Lemma curve_spline_no_spread (X : ndarray) (rng : RandomState) (c : nat) (x : R) :
  c < shape1 X -> curve_spline X 0 rng c x = 1%R.
Proof.
  intros Hc. unfold curve_spline.
  assert (Ht : length (curve_ticks X) = 6)
    by (unfold curve_ticks; now rewrite length_map, length_seq).
  assert (Hv : length (curve_values X 0 rng c) = 6)
    by (unfold curve_values, column; now rewrite length_map, normal_rows_length).
  apply ppoly_constant.
  - apply pieces_nonempty; rewrite ?knot_derivatives_length; lia.
  - apply pieces_constant; [now apply curve_values_no_spread|].
    apply (@knot_derivatives_constant _ _ 1%R). now apply curve_values_no_spread.
Qed.

(** X12.  With [sigma = 0] the random curves are flat: on at least six rows
    and three channels [generate_random_curves] returns an array of [M]
    rows and three columns whose entries are all 1. *)
Theorem flat_curves (X : ndarray) (rng : RandomState) :
  6 <= shape0 X -> 3 <= shape1 X ->
  exists C : ndarray,
    result_of (generate_random_curves X 0 4 rng) = Ok C /\
    shape C = (shape0 X, 3) /\
    forall i j, i < shape0 X -> j < 3 -> entry C i j = 1%R.
Proof.
  intros HM HN. rewrite generate_random_curves_ok by (try assumption; lra).
  eexists. split; [reflexivity|]. split.
  - unfold shape, shape0, np_arange. cbn [rowsOf shape1].
    now rewrite !length_map, length_seq.
  - intros i j Hi Hj. unfold entry, np_arange. cbn [rowsOf].
    rewrite map_map. rewrite nth_map_seq by exact Hi.
    destruct j as [|[|[|j]]]; try lia; cbn [nth]; apply curve_spline_no_spread; lia.
Qed.

Lemma flat_curves_witness :
  exists C : ndarray,
    result_of (generate_random_curves (window 7 3) 0 4 sample_rng) = Ok C /\
    shape C = (shape0 (window 7 3), 3) /\
    forall i j, i < shape0 (window 7 3) -> j < 3 -> entry C i j = 1%R.
Proof.
  apply (@flat_curves (window 7 3) sample_rng).
  - vm_compute. lia.
  - vm_compute. lia.
Defined.

(** X13.  Magnitude warping with [sigma = 0] changes nothing: on a
    well-formed array of three channels and at least six rows
    [magnitude_warp(X, 0)] returns [X] itself. *)
Theorem magnitude_warp_sigma_zero (X : ndarray) (rng : RandomState) :
  wf X -> shape1 X = 3 -> 6 <= shape0 X ->
  result_of (magnitude_warp X 0 rng) = Ok X.
Proof.
  intros Hwf HN HM. unfold magnitude_warp, bind.
  rewrite generate_random_curves_ok by (try assumption; lia || lra).
  unfold lift, np_mul_checked, shape0 at 2, np_arange. cbn [rowsOf shape1].
  rewrite !length_map, length_seq, HN, !Nat.eqb_refl. cbn [andb result_of].
  f_equal. destruct X as [N rows]. unfold np_mul, shape0 in *. cbn [shape1 rowsOf] in *.
  subst N. f_equal. apply map2_fst_id.
  - now rewrite !length_map, length_seq.
  - intros i r z Hr Hz. rewrite map_map in Hz.
    apply nth_error_map_seq in Hz. destruct Hz as [Hi ->].
    assert (Hlen : length r = 3) by (apply (@wf_row (mkArray 3 rows) i r Hwf Hr)).
    rewrite !curve_spline_no_spread by (cbn [shape1]; lia).
    destruct r as [|a [|b [|c [|e r]]]]; try discriminate Hlen.
    cbn [map2]. repeat f_equal; lra.
Qed.

Lemma magnitude_warp_sigma_zero_witness :
  result_of (magnitude_warp (window 6 3) 0 sample_rng) = Ok (window 6 3).
Proof.
  apply (@magnitude_warp_sigma_zero (window 6 3) sample_rng).
  - apply window_wf.
  - reflexivity.
  - vm_compute. lia.
Defined.

(** ** Magnitude warping: when it returns *)

Lemma result_of_Ok_inv {A} (o : outcome (A * RandomState)) (a : A) :
  result_of o = Ok a -> exists s', o = Ok (a, s').
Proof.
  destruct o as [[a' s']| |]; try discriminate. intros [= ->]. now exists s'.
Qed.

Lemma tick_count (M : nat) :
  Z.to_nat (- (- (Z.of_nat M * (4 + 1)) / (Z.of_nat M - 1)))%Z = 6 -> 6 <= M.
Proof.
  intros H. destruct M as [|[|[|[|[|[|M]]]]]]; try lia; vm_compute in H; discriminate.
Qed.

(** The curve generator only returns on six rows or more and a
    non-negative [sigma]: fewer rows give other than six knots, which the
    spline constructor refuses against its six control values. *)
Lemma generate_random_curves_domain (X C : ndarray) (sigma : R) (s s' : RandomState) :
  generate_random_curves X sigma 4 s = Ok (C, s') ->
  6 <= shape0 X /\ (0 <= sigma)%R.
Proof.
  unfold generate_random_curves. intros H.
  apply bind_Ok_inv in H. destruct H as [ticks [s0 [Ht H]]].
  apply lift_Ok_inv in Ht. destruct Ht as [Ht ->].
  apply bind_Ok_inv in H. destruct H as [yy [s1 [Hy H]]].
  change (4 + 2 <? 0)%Z with false in Hy. cbv iota in Hy.
  destruct (Rlt_dec sigma 0) as [Hneg|Hpos].
  { rewrite np_random_normal_neg in Hy by exact Hneg. discriminate. }
  split; [|lra].
  rewrite np_random_normal_ok in Hy by lra. injection Hy as <- _.
  apply lift_Ok_inv in H. destruct H as [H _].
  apply obind_Ok_inv in H. destruct H as [x0 [Hx0 H]].
  apply obind_Ok_inv in H. destruct H as [y0 [Hy0 H]].
  apply obind_Ok_inv in H. destruct H as [cs_x [Hcs _]].
  apply np_col_Ok_inv in Hx0. destruct Hx0 as [_ ->].
  apply np_col_Ok_inv in Hy0. destruct Hy0 as [_ ->].
  cbn [rowsOf] in Hcs. unfold CubicSpline, column in Hcs.
  rewrite !length_map, normal_rows_length in Hcs. cbn [fst] in Hcs.
  destruct (Nat.ltb (length ticks) 2); [discriminate|].
  change (Pos.to_nat 6) with 6 in Hcs.
  destruct (Nat.eqb_spec (length ticks) 6) as [Hlen|]; [|discriminate].
  unfold np_arange_step in Ht.
  destruct (Z.eqb (4 + 1) 0); [discriminate|].
  destruct (Z.eqb (Z.of_nat (shape0 X) - 1) 0); [discriminate|].
  injection Ht as <-. rewrite length_map, length_seq in Hlen.
  apply tick_count. exact Hlen.
Qed.

(** X14.  [magnitude_warp] returns an array exactly on three channels, at
    least six rows and a non-negative [sigma]. *)
Theorem magnitude_warp_domain (X : ndarray) (sigma : R) (rng : RandomState) :
  (exists Y, result_of (magnitude_warp X sigma rng) = Ok Y) <->
  (shape1 X = 3 /\ 6 <= shape0 X /\ (0 <= sigma)%R).
Proof.
  split.
  - intros [Y H]. apply result_of_Ok_inv in H. destruct H as [s' H].
    unfold magnitude_warp in H.
    apply bind_Ok_inv in H. destruct H as [curve [s1 [Hc H]]].
    apply lift_Ok_inv in H. destruct H as [H _].
    destruct (generate_random_curves_domain _ _ _ Hc) as [HM Hs].
    destruct (generate_random_curves_Ok_inv _ _ _ _ Hc) as [_ Hsh].
    unfold np_mul_checked in H.
    destruct (Nat.eqb_spec (shape0 X) (shape0 curve)) as [_|]; [|discriminate].
    destruct (Nat.eqb_spec (shape1 X) (shape1 curve)) as [H1|]; [|discriminate].
    unfold shape in Hsh. injection Hsh as _ H3. repeat split; [congruence|exact HM|exact Hs].
  - intros [HN [HM Hs]]. now apply magnitude_warp_returns.
Qed.

(** ** Distorted time steps, once the curve generator is found *)

Lemma last_entry_ok (A : ndarray) (c : nat) :
  1 <= shape0 A -> c < shape1 A ->
  last_entry A c = Ok (entry A (shape0 A - 1) c).
Proof.
  intros HM Hc. unfold last_entry, py_getitem.
  rewrite py_index_last by exact HM. cbn [obind].
  destruct (Nat.ltb_spec c (shape1 A)) as [_|]; [reflexivity|lia].
Qed.

Lemma scale_col_spec (c : nat) (t : R) (A : ndarray) :
  wf A -> c < shape1 A ->
  exists B, scale_col c t A = Ok B /\
    shape0 B = shape0 A /\ shape1 B = shape1 A /\ wf B /\
    forall i j, i < shape0 A ->
      entry B i j = if Nat.eqb j c then (entry A i c * t)%R else entry A i j.
Proof.
  intros Hwf Hc. unfold scale_col, np_col, np_set_col.
  destruct (Nat.ltb_spec c (shape1 A)) as [_|]; [|lia]. cbn [obind negb].
  assert (Hcol : length (column c (rowsOf A)) = shape0 A)
    by (unfold column; now rewrite length_map).
  rewrite length_map, Hcol, Nat.eqb_refl. cbn [negb].
  eexists. split; [reflexivity|].
  assert (Hrows : forall i, i < shape0 A ->
            nth i (map2 (fun r a => list_set r c a) (rowsOf A)
                     (map (fun v => (v * t)%R) (column c (rowsOf A)))) []
            = list_set (nth i (rowsOf A) []) c (entry A i c * t)%R).
  { intros i Hi. rewrite (nth_map2 _ _ _ [] 0%R []);
      [|exact Hi|rewrite length_map, Hcol; exact Hi].
    f_equal. rewrite (@nth_map_lt _ _ (fun v => (v * t)%R) _ i 0%R 0%R) by lia.
    now rewrite nth_column. }
  assert (Hlen : length (map2 (fun r a => list_set r c a) (rowsOf A)
                           (map (fun v => (v * t)%R) (column c (rowsOf A))))
                 = shape0 A).
  { rewrite map2_length, length_map, Hcol. apply Nat.min_id. }
  split; [exact Hlen|]. split; [reflexivity|]. split.
  - unfold wf. cbn [rowsOf shape1]. apply Forall_forall. intros r Hr.
    apply (In_nth _ _ []) in Hr. destruct Hr as [i [Hi <-]].
    rewrite Hlen in Hi. rewrite Hrows by exact Hi.
    rewrite list_set_length; rewrite wf_nth_length by assumption; [reflexivity|exact Hc].
  - intros i j Hi. unfold entry at 1. cbn [rowsOf]. rewrite Hrows by exact Hi.
    rewrite nth_list_set by (rewrite wf_nth_length by assumption; exact Hc).
    reflexivity.
Qed.

Lemma np_cumsum0_wf (tt : ndarray) :
  wf tt -> wf (np_cumsum0 tt) /\ shape0 (np_cumsum0 tt) = shape0 tt.
Proof.
  intros Hwf. split.
  - unfold wf, np_cumsum0. cbn [rowsOf shape1].
    apply cumsum_rows_wf; [apply repeat_length|exact Hwf].
  - unfold shape0, np_cumsum0. cbn [rowsOf]. apply cumsum_rows_length.
Qed.

(** X15.  What [distort_timesteps] computes once its call finds a curve
    generator.  If the globals bind [GenerateRandomCurves] to a generator
    that returns a well-formed curve [tt] of at least one row and three
    channels whose cumulative sums end away from zero in the first three
    channels, then [distort_timesteps] returns an array of the shape of
    [tt]: each of the first three channels is the running sum of [tt]
    times [(M - 1)] over its final value, so it ends at [M - 1], [M] the
    number of rows of [X]; the random state is the one the generator
    left. *)
Theorem distort_timesteps_rescales (g : globals) (f : ndarray -> R -> Rand ndarray)
    (X tt : ndarray) (sigma : R) (rng s' : RandomState) :
  lookup "GenerateRandomCurves" g = Some (PyCurveGenerator f) ->
  f X sigma rng = Ok (tt, s') ->
  wf tt -> 1 <= shape0 tt -> 3 <= shape1 tt ->
  (forall c, c < 3 -> entry (np_cumsum0 tt) (shape0 tt - 1) c <> 0%R) ->
  exists T : ndarray,
    distort_timesteps g X sigma rng = Ok (T, s') /\
    same_shape tt T /\
    (forall i c, i < shape0 tt -> c < 3 ->
       entry T i c
       = (entry (np_cumsum0 tt) i c
          * ((INR (shape0 X) - 1) / entry (np_cumsum0 tt) (shape0 tt - 1) c))%R) /\
    (forall c, c < 3 -> entry T (shape0 tt - 1) c = (INR (shape0 X) - 1)%R) /\
    (forall i c, i < shape0 tt -> 3 <= c -> entry T i c = entry (np_cumsum0 tt) i c).
Proof.
  intros Hg Hf Hwf HM HN Hlast.
  unfold distort_timesteps, bind, call_global. rewrite Hg, Hf.
  destruct (np_cumsum0_wf Hwf) as [HwfC HC0].
  set (C := np_cumsum0 tt) in *.
  assert (HC1 : shape1 C = shape1 tt) by reflexivity.
  rewrite !last_entry_ok by lia. cbn [obind lift]. rewrite HC0.
  set (k := fun c => ((INR (shape0 X) - 1) / entry C (shape0 tt - 1) c)%R).
  destruct (@scale_col_spec 0 (k 0) C HwfC ltac:(lia)) as [B0 [E0 [M0 [N0 [W0 V0]]]]].
  destruct (@scale_col_spec 1 (k 1) B0 W0 ltac:(lia)) as [B1 [E1 [M1 [N1 [W1 V1]]]]].
  destruct (@scale_col_spec 2 (k 2) B1 W1 ltac:(lia)) as [B2 [E2 [M2 [N2 [W2 V2]]]]].
  fold (k 0) (k 1) (k 2). rewrite E0. cbn [obind]. rewrite E1. cbn [obind]. rewrite E2.
  exists B2. split; [reflexivity|].
  assert (Hentry : forall i c, i < shape0 tt -> c < 3 ->
            entry B2 i c = (entry C i c * k c)%R).
  { intros i c Hi Hc.
    rewrite V2 by lia. rewrite !V1 by lia. rewrite !V0 by lia.
    destruct c as [|[|[|c]]]; try lia; reflexivity. }
  split; [|split; [exact Hentry|split]].
  - split; [|exact W2]. unfold shape. f_equal; lia.
  - intros c Hc. rewrite Hentry by lia. unfold k. field. now apply Hlast.
  - intros i c Hi Hc.
    rewrite V2 by lia. destruct (Nat.eqb_spec c 2); [lia|].
    rewrite V1 by lia. destruct (Nat.eqb_spec c 1); [lia|].
    rewrite V0 by lia. destruct (Nat.eqb_spec c 0); [lia|]. reflexivity.
Qed.

Lemma distort_timesteps_rescales_witness :
  exists T : ndarray,
    distort_timesteps aliased_globals (window 6 3) 0 sample_rng
    = Ok (T, advance (6 * (3 * 1)) sample_rng) /\
    same_shape (unit_curve 6) T /\
    (forall i c, i < shape0 (unit_curve 6) -> c < 3 ->
       entry T i c
       = (entry (np_cumsum0 (unit_curve 6)) i c
          * ((INR (shape0 (window 6 3)) - 1)
             / entry (np_cumsum0 (unit_curve 6)) (shape0 (unit_curve 6) - 1) c))%R) /\
    (forall c, c < 3 ->
       entry T (shape0 (unit_curve 6) - 1) c = (INR (shape0 (window 6 3)) - 1)%R) /\
    (forall i c, i < shape0 (unit_curve 6) -> 3 <= c ->
       entry T i c = entry (np_cumsum0 (unit_curve 6)) i c).
Proof.
  apply (@distort_timesteps_rescales aliased_globals
           (fun X sigma => generate_random_curves X sigma 4)
           (window 6 3) (unit_curve 6) 0 sample_rng).
  - reflexivity.
  - rewrite generate_random_curves_ok; [|vm_compute; lia|vm_compute; lia|lra].
    change (shape1 (window 6 3)) with 3. f_equal. f_equal. unfold unit_curve. f_equal.
    change (np_arange (shape0 (window 6 3))) with (map INR (seq 0 6)).
    cbn [seq map repeat]. rewrite !curve_spline_no_spread by (cbn [shape1 window]; lia).
    reflexivity.
  - unfold wf, unit_curve. cbn [rowsOf shape1 repeat]. repeat constructor.
  - vm_compute. lia.
  - vm_compute. lia.
  - intros c Hc. unfold entry, np_cumsum0, unit_curve, shape0.
    cbn [rowsOf shape1 repeat cumsum_rows map2 length Nat.sub nth].
    destruct c as [|[|[|c]]]; try lia; cbn [nth]; lra.
Defined.

(** ** The random curve passes through its control values *)

Lemma ppoly_at_last_knot (xs ys s : list R) :
  strictly_increasing xs = true ->
  length ys = length xs -> length s = length xs -> 2 <= length xs ->
  ppoly (pieces xs ys s) (nth (length xs - 1) xs 0%R) = nth (length xs - 1) ys 0%R.
Proof.
  revert ys s. induction xs as [|x0 xs IH]; intros ys s Hinc Hy Hs Hlen.
  { cbn in Hlen. lia. }
  destruct xs as [|x1 xs]; [cbn in Hlen; lia|].
  destruct ys as [|y0 [|y1 ys]]; try discriminate.
  destruct s as [|s0 [|s1 s]]; try discriminate.
  apply strictly_increasing_cons in Hinc. destruct Hinc as [H01 Hinc].
  change (pieces (x0 :: x1 :: xs) (y0 :: y1 :: ys) (s0 :: s1 :: s))
    with (mkPiece x0 x1
            (((s0 + s1 - 2 * ((y1 - y0) / (x1 - x0))) / (x1 - x0)) / (x1 - x0))
            ((((y1 - y0) / (x1 - x0)) - s0) / (x1 - x0)
             - ((s0 + s1 - 2 * ((y1 - y0) / (x1 - x0))) / (x1 - x0)))
            s0 y0
          :: pieces (x1 :: xs) (y1 :: ys) (s1 :: s)).
  set (p := mkPiece x0 x1 _ _ s0 y0).
  destruct xs as [|x2 xs].
  - destruct ys as [|y2 ys]; [|discriminate].
    cbn [length Nat.sub nth pieces ppoly]. unfold piece_value, p.
    cbn [p_left c0 c1 c2 c3]. field. lra.
  - destruct ys as [|y2 ys]; [discriminate|].
    destruct s as [|s2 s]; [discriminate|].
    replace (length (x0 :: x1 :: x2 :: xs) - 1)
      with (S (length (x1 :: x2 :: xs) - 1)) by (cbn [length]; lia).
    change (nth (S ?k) (x0 :: ?l) 0%R) with (nth k l 0%R).
    change (nth (S ?k) (y0 :: ?l) 0%R) with (nth k l 0%R).
    assert (Hge : (x1 <= nth (length (x1 :: x2 :: xs) - 1) (x1 :: x2 :: xs) 0)%R).
    { apply increasing_nth_ge; [exact Hinc|]. cbn [length]. lia. }
    rewrite <- (IH (y1 :: y2 :: ys) (s1 :: s2 :: s) Hinc);
      try (cbn [length] in *; lia).
    remember (nth (length (x1 :: x2 :: xs) - 1) (x1 :: x2 :: xs) 0%R) as x eqn:Hx.
    remember (pieces (x1 :: x2 :: xs) (y1 :: y2 :: ys) (s1 :: s2 :: s)) as rest eqn:Hrest.
    destruct rest as [|p1 rest]; [discriminate|].
    cbn [ppoly]. cbn [p_right p]. destruct (Rlt_dec x x1); [lra|reflexivity].
Qed.

(** On [5 q + 1] rows the knots are the rows [0, q, ..., 5 q]. *)
Lemma curve_ticks_at (X : ndarray) (q i : nat) :
  shape0 X = 5 * q + 1 -> i < 6 -> nth i (curve_ticks X) 0%R = INR (i * q).
Proof.
  intros HM Hi. unfold curve_ticks. rewrite nth_map_seq by exact Hi.
  rewrite HM. replace (Z.of_nat (5 * q + 1) - 1)%Z with (5 * Z.of_nat q)%Z by lia.
  rewrite mult_IZR, <- INR_IZR_INZ, mult_INR.
  change (IZR (4 + 1)) with 5%R. field.
Qed.

(** X16.  The curve passes through its control values.  On [5 q + 1] rows
    ([q >= 1]) the six knots fall on the rows [0, q, 2 q, ..., 5 q], and
    there the curve [generate_random_curves] returns holds, in each of its
    three channels, the value drawn for that knot and channel:
    [1 + sigma * z] for the normal variate [z] at that place of the draw. *)
Theorem curve_through_controls (X : ndarray) (sigma : R) (rng : RandomState) (q : nat) :
  shape0 X = 5 * q + 1 -> 1 <= q -> 3 <= shape1 X -> (0 <= sigma)%R ->
  exists C : ndarray,
    result_of (generate_random_curves X sigma 4 rng) = Ok C /\
    forall i c, i <= 5 -> c < 3 ->
      entry C (i * q) c
      = (1 + sigma * gauss rng (cursor rng + i * shape1 X + c))%R.
Proof.
  intros HM Hq HN Hs.
  rewrite generate_random_curves_ok by (try assumption; lia).
  eexists. split; [reflexivity|].
  intros i c Hi Hc. unfold entry, np_arange. cbn [rowsOf].
  rewrite map_map. rewrite nth_map_seq by nia.
  assert (Hspline : curve_spline X sigma rng c (INR (i * q))
                    = (1 + sigma * gauss rng (cursor rng + i * shape1 X + c))%R).
  { rewrite <- (@curve_ticks_at X q i HM) by lia.
    rewrite <- curve_values_nth by lia.
    assert (Hinc : strictly_increasing (curve_ticks X) = true).
    { unfold curve_ticks. apply ticks_increasing.
      apply Rdiv_lt_0_compat; apply IZR_lt; lia. }
    assert (Ht : length (curve_ticks X) = 6)
      by (unfold curve_ticks; now rewrite length_map, length_seq).
    assert (Hv : length (curve_values X sigma rng c) = 6)
      by (unfold curve_values, column; now rewrite length_map, normal_rows_length).
    unfold curve_spline.
    destruct (Nat.eq_dec i 5) as [->|Hne].
    - replace 5 with (length (curve_ticks X) - 1) at 1 3 by lia.
      apply ppoly_at_last_knot; rewrite ?knot_derivatives_length; lia || exact Hinc.
    - apply ppoly_at_knot; rewrite ?knot_derivatives_length; lia || exact Hinc. }
  destruct c as [|[|[|c]]]; try lia; cbn [nth]; exact Hspline.
Qed.

Lemma curve_through_controls_witness :
  exists C : ndarray,
    result_of (generate_random_curves (window 11 3) 1 4 sample_rng) = Ok C /\
    forall i c, i <= 5 -> c < 3 ->
      entry C (i * 2) c
      = (1 + 1 * gauss sample_rng (cursor sample_rng + i * shape1 (window 11 3) + c))%R.
Proof.
  apply (@curve_through_controls (window 11 3) 1 sample_rng 2).
  - vm_compute. reflexivity.
  - lia.
  - vm_compute. lia.
  - lra.
Defined.

(** ** Time warping: is the warped time axis non-decreasing? *)

Lemma cumsum_entry_first (tt : ndarray) (c : nat) :
  wf tt -> c < shape1 tt -> 0 < shape0 tt ->
  entry (np_cumsum0 tt) 0 c = entry tt 0 c.
Proof.
  intros Hwf Hc HM. unfold entry, np_cumsum0. cbn [rowsOf].
  assert (Hlen := @wf_nth_length tt 0 Hwf HM).
  unfold shape0 in HM. destruct (rowsOf tt) as [|r rest]; [cbn in HM; lia|].
  cbn [cumsum_rows nth] in *.
  rewrite (nth_map2 _ _ _ 0%R 0%R 0%R) by (rewrite ?repeat_length; lia).
  rewrite nth_repeat_lt by exact Hc. lra.
Qed.









